(** * The [cleanup_jobs] management command of AWX

    A shallow embedding of
    [awx/main/management/commands/cleanup_jobs.py] and the properties
    of its retention engine: the classification of every record, the
    counters each category returns, dry runs, the cutoff computation and
    the selection of categories.

    The command runs against a relational store through Django's ORM.
    The store is modelled as one finite map per table, from primary key
    to row; the command itself is a computation in a state and exception
    monad over that store, the queries it issues and the records it hands
    to its logger. *)

From Stdlib Require Import ssreflect ZArith Lia Ascii.
From stdpp Require Import base gmap list strings fin_maps.

Local Open Scope general_if_scope.
Local Open Scope string_scope.
Local Open Scope Z_scope.

(** ** Python values and exceptions *)

(** The values [optparse] stores in the [options] dictionary. *)
Inductive pyval :=
| VInt (n : Z)
| VBool (b : bool).

(** [int(v)] *)
Definition py_int (v : pyval) : Z :=
  match v with
  | VInt n => n
  | VBool b => if b then 1 else 0
  end.

(** [bool(v)], also the truth value of [v] in a condition. *)
Definition py_bool (v : pyval) : bool :=
  match v with
  | VInt n => negb (n =? 0)
  | VBool b => b
  end.

(** Truth value of a string: the empty string is false. *)
Definition str_truthy (s : string) : bool :=
  match s with
  | EmptyString => false
  | String _ _ => true
  end.

(** The exceptions the command can meet. [DoesNotExist] is what the ORM
    raises when a related row is fetched and is not there. *)
Inductive exn :=
| OverflowError
| CommandError (msg : string)
| AttributeError (name : string)
| DoesNotExist (table : string) (pk : Z).

(** ** [datetime] *)

Module datetime.

(** A point in time is the number of microseconds since
    0001-01-01T00:00:00; a [timedelta] is a number of microseconds. *)
Definition us_per_day : Z := 86400000000.

(** [date.max.toordinal()], the ordinal of 9999-12-31. *)
Definition MAXORDINAL : Z := 3652059.

(** One past [datetime.max]. *)
Definition end_of_time : Z := MAXORDINAL * us_per_day.

Definition representable (t : Z) : Prop := 0 <= t < end_of_time.

(** [timedelta.max.days] *)
Definition MAX_DELTA_DAYS : Z := 999999999.

(** [datetime.timedelta(days=d)]: raises [OverflowError] when the
    magnitude of [d] exceeds 999999999. *)
Definition timedelta (days : Z) : exn + Z :=
  if (Z.abs days <=? MAX_DELTA_DAYS) then inr (days * us_per_day)
  else inl OverflowError.

(** [t - delta]: raises [OverflowError] ("date value out of range")
    when the result leaves years 1..9999. *)
Definition sub (t delta : Z) : exn + Z :=
  let r := t - delta in
  if (0 <=? r) && (r <? end_of_time) then inr r else inl OverflowError.

End datetime.

(** ** Models *)

(** Modelled from the spec: the models of [awx.main.models], which the
    command imports and which are not part of its file. A record has an
    identity (its primary key, the key of its table below), a status and
    a created time; this is the row of [Job], [AdHocCommand], [SystemJob],
    [WorkflowJob] and [Notification], without the fields that only serve
    to show the record. *)
Record Row := mkRow {
  status : string;
  created : Z
}.

(** Modelled from the spec: an update also refers to its parent. *)
Record ProjectUpdate := mkProjectUpdate {
  pu_status : string;
  pu_created : Z;
  pu_project : Z            (* foreign key to [Project] *)
}.

(** Modelled from the spec: as [ProjectUpdate], for an inventory
    source. *)
Record InventoryUpdate := mkInventoryUpdate {
  iu_status : string;
  iu_created : Z;
  iu_inventory_source : Z   (* foreign key to [InventorySource] *)
}.

(** Modelled from the spec: a parent refers back to its current and its
    last update, either of which may be null, and declares its source
    configuration, a string that may be empty. *)
Record Project := mkProject {
  p_current_update : option Z;
  p_last_update : option Z;
  scm_type : string
}.

(** Modelled from the spec: as [Project]. *)
Record InventorySource := mkInventorySource {
  s_current_update : option Z;
  s_last_update : option Z;
  source : string
}.

(** Modelled from the spec: the store, one table per model, each a
    finite map from primary key to row. *)
Record Store := mkStore {
  jobs : gmap Z Row;
  ad_hoc_commands : gmap Z Row;
  project_updates : gmap Z ProjectUpdate;
  inventory_updates : gmap Z InventoryUpdate;
  system_jobs : gmap Z Row;
  workflow_jobs : gmap Z Row;
  notifications : gmap Z Row;
  projects : gmap Z Project;
  inventory_sources : gmap Z InventorySource
}.

(** Modelled from the spec: the deletion interface of the storage
    collaborator ([Model.delete], not part of the command's file). The
    row leaves its table; rows that depend on it go with it, and they are
    not among the tables above. A parent that pointed at a deleted update
    has that pointer set to null, so no foreign key dangles. *)
Definition forget (pk : Z) (ptr : option Z) : option Z :=
  if decide (ptr = Some pk) then None else ptr.

(** Modelled from the spec: what the deletion of update [pk] does to a
    project. *)
Definition project_forget (pk : Z) (p : Project) : Project :=
  mkProject (forget pk (p_current_update p)) (forget pk (p_last_update p))
            (scm_type p).

(** Modelled from the spec: what the deletion of update [pk] does to an
    inventory source. *)
Definition inventory_source_forget (pk : Z) (s : InventorySource)
  : InventorySource :=
  mkInventorySource (forget pk (s_current_update s))
                    (forget pk (s_last_update s)) (source s).

(** Modelled from the spec: [Job.delete]. *)
Definition delete_job (pk : Z) (st : Store) : Store :=
  mkStore (delete pk (jobs st)) (ad_hoc_commands st) (project_updates st)
          (inventory_updates st) (system_jobs st) (workflow_jobs st)
          (notifications st) (projects st) (inventory_sources st).

(** Modelled from the spec: [AdHocCommand.delete]. *)
Definition delete_ad_hoc_command (pk : Z) (st : Store) : Store :=
  mkStore (jobs st) (delete pk (ad_hoc_commands st)) (project_updates st)
          (inventory_updates st) (system_jobs st) (workflow_jobs st)
          (notifications st) (projects st) (inventory_sources st).

(** Modelled from the spec: [ProjectUpdate.delete]. *)
Definition delete_project_update (pk : Z) (st : Store) : Store :=
  mkStore (jobs st) (ad_hoc_commands st) (delete pk (project_updates st))
          (inventory_updates st) (system_jobs st) (workflow_jobs st)
          (notifications st) (project_forget pk <$> projects st)
          (inventory_sources st).

(** Modelled from the spec: [InventoryUpdate.delete]. *)
Definition delete_inventory_update (pk : Z) (st : Store) : Store :=
  mkStore (jobs st) (ad_hoc_commands st) (project_updates st)
          (delete pk (inventory_updates st)) (system_jobs st)
          (workflow_jobs st) (notifications st) (projects st)
          (inventory_source_forget pk <$> inventory_sources st).

(** Modelled from the spec: [SystemJob.delete]. *)
Definition delete_system_job (pk : Z) (st : Store) : Store :=
  mkStore (jobs st) (ad_hoc_commands st) (project_updates st)
          (inventory_updates st) (delete pk (system_jobs st))
          (workflow_jobs st) (notifications st) (projects st)
          (inventory_sources st).

(** Modelled from the spec: [WorkflowJob.delete]. *)
Definition delete_workflow_job (pk : Z) (st : Store) : Store :=
  mkStore (jobs st) (ad_hoc_commands st) (project_updates st)
          (inventory_updates st) (system_jobs st)
          (delete pk (workflow_jobs st)) (notifications st) (projects st)
          (inventory_sources st).

(** Modelled from the spec: [Notification.delete]. *)
Definition delete_notification (pk : Z) (st : Store) : Store :=
  mkStore (jobs st) (ad_hoc_commands st) (project_updates st)
          (inventory_updates st) (system_jobs st) (workflow_jobs st)
          (delete pk (notifications st)) (projects st)
          (inventory_sources st).

(** ** The world of a run *)

(** What the command asks of the store. The counting queries behind the
    text that shows a record are reads of tables the command never
    decides on; they are not recorded. *)
Inductive Query :=
| Select (table : string)            (* [Model.objects.all()] *)
| Get (table : string) (pk : Z)      (* following a foreign key *)
| Delete (table : string) (pk : Z).  (* [instance.delete()] *)

(** An argument of a logging call. [Display pk] stands for the text the
    command builds to show the record with primary key [pk]. *)
Inductive LogArg :=
| Str (s : string)
| Num (n : nat)
| Display (pk : Z).

Record LogRecord := mkLogRecord {
  levelno : Z;
  msg : string;
  args : list LogArg
}.

Definition DEBUG : Z := 10.
Definition INFO : Z := 20.

Record World := mkWorld {
  db : Store;
  queries : list Query;      (* in the order issued *)
  logged : list LogRecord    (* in the order handed to the logger *)
}.

(** ** The monad of the command *)

Definition M (A : Type) : Type := World → (exn + A) * World.

#[export] Instance M_ret : MRet M := λ A (a : A) w, (inr a, w).

#[export] Instance M_bind : MBind M := λ A B (f : A → M B) (c : M A) w,
  match c w with
  | (inr a, w') => f a w'
  | (inl e, w') => (inl e, w')
  end.

Definition raise {A} (e : exn) : M A := λ w, (inl e, w).

Definition query (q : Query) : M unit := λ w,
  (inr tt, mkWorld (db w) (queries w ++ [q]) (logged w)).

Definition read {A} (f : Store → A) : M A := λ w, (inr (f (db w)), w).

Definition write (f : Store → Store) : M unit := λ w,
  (inr tt, mkWorld (f (db w)) (queries w) (logged w)).

(** [self.logger.log(level, msg, *args)] *)
Definition log (level : Z) (fmt : string) (a : list LogArg) : M unit := λ w,
  (inr tt, mkWorld (db w) (queries w) (logged w ++ [mkLogRecord level fmt a])).

(** Modelled from the spec: the enumeration of all records of a
    category. [Model.objects.all()], iterated, gives the rows as they are
    when the loop starts. *)
Definition objects_all {R} (table : string) (t : Store → gmap Z R)
  : M (list (Z * R)) :=
  _ ← query (Select table); read (λ st, map_to_list (t st)).

(** Modelled from the spec: the lookup of the parent of an update.
    Following a foreign key fetches the row it refers to and raises
    [DoesNotExist] when there is none. *)
Definition fetch {R} (table : string) (t : Store → gmap Z R) (pk : Z) : M R :=
  _ ← query (Get table pk);
  o ← read (λ st, t st !! pk);
  match o with
  | Some r => mret r
  | None => raise (DoesNotExist table pk)
  end.

(** Modelled from the spec: following a foreign key that may be null,
    as the two pointers of a parent are. A null pointer gives [None]
    without a query; any other is fetched as [fetch] does, and the
    instance fetched is stood for by its primary key, the only part of it
    the command compares. *)
Definition follow {R} (table : string) (t : Store → gmap Z R) (ptr : option Z)
  : M (option Z) :=
  match ptr with
  | None => mret None
  | Some k => _ ← fetch table t k; mret (Some k)
  end.

(** [instance.delete()] *)
Definition delete_instance (table : string) (del : Z → Store → Store) (pk : Z)
  : M unit :=
  _ ← query (Delete table pk); write (del pk).

(** [@transaction.atomic]: an exception that leaves the body rolls the
    store back to what it was on entry. *)
Definition atomic {A} (body : M A) : M A := λ w,
  match body w with
  | (inl e, w') => (inl e, mkWorld (db w) (queries w') (logged w'))
  | ok => ok
  end.

(** ** The command *)

(** The branch a record takes in the [if]/[elif] chain of its loop:
    active status, protected by its parent, too recent, or the final
    [else]. *)
Inductive Classification :=
| SkipActive
| SkipProtected
| SkipRecent
| Eligible.

#[export] Instance Classification_eq_dec : EqDecision Classification.
Proof. solve_decision. Defined.

(** The attributes of [self] the loops read. *)
Record Command := mkCommand {
  cutoff : Z;
  dry_run : bool
}.

(** [for x in l: s = body(x, s)] *)
Fixpoint for_each {A S} (body : A → S → M S) (l : list A) (s : S) : M S :=
  match l with
  | [] => mret s
  | x :: l' => s' ← body x s; for_each body l' s'
  end.

(** *** The condition chains, one per method *)

Definition classify_job (self : Command) (job : Row) : Classification :=
  if bool_decide (status job ∈ ["pending"; "waiting"; "running"]) then SkipActive
  else if created job >=? cutoff self then SkipRecent
  else Eligible.

Definition classify_ad_hoc_command (self : Command) (ad_hoc_command : Row)
  : Classification :=
  if bool_decide (status ad_hoc_command ∈ ["pending"; "waiting"; "running"])
  then SkipActive
  else if created ad_hoc_command >=? cutoff self then SkipRecent
  else Eligible.

(** [pu in (pu.project.current_update, pu.project.last_update)] compares
    model instances, which are equal when their primary keys are; nothing
    equals [None]. The project is fetched once the status test is
    through, not before, and is kept by [pu] from then on; building the
    pair follows both pointers of the project, the second also when the
    first is already [pu]. *)
Definition classify_project_update (self : Command) (pk : Z) (pu : ProjectUpdate)
  : M Classification :=
  if bool_decide (pu_status pu ∈ ["pending"; "waiting"; "running"])
  then mret SkipActive
  else
    project ← fetch "Project" projects (pu_project pu);
    current_update ← follow "ProjectUpdate" project_updates
                            (p_current_update project);
    last_update ← follow "ProjectUpdate" project_updates
                         (p_last_update project);
    if (bool_decide (current_update = Some pk)
        || bool_decide (last_update = Some pk))
       && str_truthy (scm_type project)
    then mret SkipProtected
    else if pu_created pu >=? cutoff self then mret SkipRecent
    else mret Eligible.

Definition classify_inventory_update (self : Command) (pk : Z)
  (iu : InventoryUpdate) : M Classification :=
  if bool_decide (iu_status iu ∈ ["pending"; "waiting"; "running"])
  then mret SkipActive
  else
    inventory_source ← fetch "InventorySource" inventory_sources
                             (iu_inventory_source iu);
    current_update ← follow "InventoryUpdate" inventory_updates
                            (s_current_update inventory_source);
    last_update ← follow "InventoryUpdate" inventory_updates
                         (s_last_update inventory_source);
    if (bool_decide (current_update = Some pk)
        || bool_decide (last_update = Some pk))
       && str_truthy (source inventory_source)
    then mret SkipProtected
    else if iu_created iu >=? cutoff self then mret SkipRecent
    else mret Eligible.

Definition classify_management_job (self : Command) (sj : Row) : Classification :=
  if bool_decide (status sj ∈ ["pending"; "waiting"; "running"]) then SkipActive
  else if created sj >=? cutoff self then SkipRecent
  else Eligible.

Definition classify_workflow_job (self : Command) (workflow_job : Row)
  : Classification :=
  if bool_decide (status workflow_job ∈ ["pending"; "waiting"; "running"])
  then SkipActive
  else if created workflow_job >=? cutoff self then SkipRecent
  else Eligible.

Definition classify_notification (self : Command) (notification : Row)
  : Classification :=
  if bool_decide (status notification ∈ ["pending"]) then SkipActive
  else if created notification >=? cutoff self then SkipRecent
  else Eligible.

(** *** The bodies of the branches *)

(** What a branch does with the record and the two counters. The word
    [noun] is the one the method puts in the message of its first
    branch. *)
Definition branch (self : Command) (table noun : string)
  (del : Z → Store → Store) (pk : Z) (st : string) (c : Classification)
  (counters : nat * nat) : M (nat * nat) :=
  let '(skipped, deleted) := counters in
  match c with
  | SkipActive =>
      let action_text := if dry_run self then "would skip" else "skipping" in
      _ ← log DEBUG ("%s %s " +:+ noun +:+ " %s")
              [Str action_text; Str st; Display pk];
      mret (S skipped, deleted)
  | SkipProtected | SkipRecent =>
      let action_text := if dry_run self then "would skip" else "skipping" in
      _ ← log DEBUG "%s %s" [Str action_text; Display pk];
      mret (S skipped, deleted)
  | Eligible =>
      let action_text := if dry_run self then "would delete" else "deleting" in
      _ ← log INFO "%s %s" [Str action_text; Display pk];
      _ ← (if negb (dry_run self) then delete_instance table del pk
           else mret tt);
      mret (skipped, S deleted)
  end.

(** The seven methods are one loop written seven times. The embedding
    writes the loop once; a [Method] holds what a method puts into it:
    its model and the table behind it, the word in the message of its
    first branch, the status it prints, its condition chain and the
    deletion of one of its rows. *)
Record Method (R : Type) := mkMethod {
  table : string;
  noun : string;
  objects : Store → gmap Z R;
  status_of : R → string;
  classify : Z → R → M Classification;
  del : Z → Store → Store
}.
Arguments mkMethod {R}.
Arguments table {R}.
Arguments noun {R}.
Arguments objects {R}.
Arguments status_of {R}.
Arguments classify {R}.
Arguments del {R}.

(** One turn of the loop. *)
Definition visit {R} (self : Command) (m : Method R) (row : Z * R)
  (counters : nat * nat) : M (nat * nat) :=
  c ← classify m row.1 row.2;
  branch self (table m) (noun m) (del m) row.1 (status_of m row.2) c counters.

(** The loop: all rows of the table, the counters starting at zero. *)
Definition cleanup {R} (self : Command) (m : Method R) : M (nat * nat) :=
  rows ← objects_all (table m) (objects m);
  for_each (visit self m) rows (0%nat, 0%nat).

Definition jobs_method (self : Command) : Method Row :=
  mkMethod "Job" "job" jobs status
           (λ _ job, mret (classify_job self job)) delete_job.

Definition ad_hoc_commands_method (self : Command) : Method Row :=
  mkMethod "AdHocCommand" "ad hoc command" ad_hoc_commands status
           (λ _ c, mret (classify_ad_hoc_command self c)) delete_ad_hoc_command.

Definition project_updates_method (self : Command) : Method ProjectUpdate :=
  mkMethod "ProjectUpdate" "project update" project_updates pu_status
           (classify_project_update self) delete_project_update.

Definition inventory_updates_method (self : Command) : Method InventoryUpdate :=
  mkMethod "InventoryUpdate" "inventory update" inventory_updates iu_status
           (classify_inventory_update self) delete_inventory_update.

Definition management_jobs_method (self : Command) : Method Row :=
  mkMethod "SystemJob" "system_job" system_jobs status
           (λ _ sj, mret (classify_management_job self sj)) delete_system_job.

Definition workflow_jobs_method (self : Command) : Method Row :=
  mkMethod "WorkflowJob" "job" workflow_jobs status
           (λ _ wj, mret (classify_workflow_job self wj)) delete_workflow_job.

Definition notifications_method (self : Command) : Method Row :=
  mkMethod "Notification" "notification" notifications status
           (λ _ n, mret (classify_notification self n)) delete_notification.

Definition cleanup_jobs (self : Command) : M (nat * nat) :=
  cleanup self (jobs_method self).

Definition cleanup_ad_hoc_commands (self : Command) : M (nat * nat) :=
  cleanup self (ad_hoc_commands_method self).

Definition cleanup_project_updates (self : Command) : M (nat * nat) :=
  cleanup self (project_updates_method self).

Definition cleanup_inventory_updates (self : Command) : M (nat * nat) :=
  cleanup self (inventory_updates_method self).

Definition cleanup_management_jobs (self : Command) : M (nat * nat) :=
  cleanup self (management_jobs_method self).

Definition cleanup_workflow_jobs (self : Command) : M (nat * nat) :=
  cleanup self (workflow_jobs_method self).

Definition cleanup_notifications (self : Command) : M (nat * nat) :=
  cleanup self (notifications_method self).

(** *** [handle_noargs] *)

Definition model_names : list string :=
  ["jobs"; "ad_hoc_commands"; "project_updates"; "inventory_updates";
   "management_jobs"; "workflow_jobs"; "notifications"].

Definition methods : list (string * (Command → M (nat * nat))) :=
  [("cleanup_jobs", cleanup_jobs);
   ("cleanup_ad_hoc_commands", cleanup_ad_hoc_commands);
   ("cleanup_project_updates", cleanup_project_updates);
   ("cleanup_inventory_updates", cleanup_inventory_updates);
   ("cleanup_management_jobs", cleanup_management_jobs);
   ("cleanup_workflow_jobs", cleanup_workflow_jobs);
   ("cleanup_notifications", cleanup_notifications)].

Fixpoint assoc {A} (name : string) (l : list (string * A)) : option A :=
  match l with
  | [] => None
  | (k, a) :: l' => if String.eqb k name then Some a else assoc name l'
  end.

(** [getattr(self, name)()] *)
Definition call_method (self : Command) (name : string) : M (nat * nat) :=
  match assoc name methods with
  | Some method => method self
  | None => raise (AttributeError name)
  end.

(** [s.replace(old, new)] for one-character [old] and [new]. *)
Fixpoint replace (old new : ascii) (s : string) : string :=
  match s with
  | EmptyString => EmptyString
  | String c s' =>
      String (if Ascii.eqb c old then new else c) (replace old new s')
  end.

(** [options.get(key, default)] *)
Definition options_get (options : gmap string pyval) (key : string)
  (default : pyval) : pyval :=
  match options !! key with
  | Some v => v
  | None => default
  end.

Definition too_large : string :=
  "--days specified is too large. Try something less than 99999 (about 270 years).".

(** [now() - datetime.timedelta(days=days)] inside its [try]. *)
Definition compute_cutoff (now days : Z) : exn + Z :=
  match datetime.timedelta days with
  | inr delta => datetime.sub now delta
  | inl e => inl e
  end.

(** The truth value of [options.get('only_%s' % m, False)]. *)
Definition flagged (options : gmap string pyval) (m : string) : bool :=
  py_bool (options_get options ("only_" +:+ m) (VBool false)).

(** The set [models_to_cleanup] as the two statements after the cutoff
    build it. *)
Definition models_to_cleanup (options : gmap string pyval) : gset string :=
  let added :=
    foldl (λ (s : gset string) m, if flagged options m then s ∪ {[m]} else s)
          ∅ model_names in
  if decide (added = ∅) then added ∪ list_to_set model_names else added.

(** One turn of the loop over [model_names]. *)
Definition stage (self : Command) (selected : gset string) (m : string)
  (_ : unit) : M unit :=
  if decide (m ∈ selected) then
    '(skipped, deleted) ← call_method self ("cleanup_" +:+ m);
    if dry_run self then
      log 99 "%s: %d would be deleted, %d would be skipped."
          [Str (replace "_"%char " "%char m); Num deleted; Num skipped]
    else
      log 99 "%s: %d deleted, %d skipped."
          [Str (replace "_"%char " "%char m); Num deleted; Num skipped]
  else mret tt.

(** The body of [handle_noargs]; [now] is what [now()] returns. The setup
    of the logger and the two guards that silence the activity stream and
    the computed fields while the loops run act on nothing modelled
    here. *)
Definition handle_noargs_body (options : gmap string pyval) (now : Z) : M unit :=
  let days := py_int (options_get options "days" (VInt 90)) in
  let dry := py_bool (options_get options "dry_run" (VBool false)) in
  match compute_cutoff now days with
  | inl OverflowError => raise (CommandError too_large)
  | inl e => raise e
  | inr cut =>
      let self := mkCommand cut dry in
      for_each (stage self (models_to_cleanup options)) model_names tt
  end.

Definition handle_noargs (options : gmap string pyval) (now : Z) : M unit :=
  atomic (handle_noargs_body options now).

(** ** Vocabulary of the statements *)

#[export] Instance exn_eq_dec : EqDecision exn.
Proof. solve_decision. Defined.

(** What the condition chain of [m] says of row [r] with key [pk] when
    the store is [st]. *)
Definition verdict {R} (m : Method R) (st : Store) (pk : Z) (r : R)
  : exn + Classification :=
  (classify m pk r (mkWorld st [] [])).1.

(** The counters after a record of classification [c]. *)
Definition bump (c : Classification) (counters : nat * nat) : nat * nat :=
  match c with
  | Eligible => (counters.1, S counters.2)
  | _ => (S counters.1, counters.2)
  end.

(** The counters of a whole snapshot, every row judged against the one
    store [st]. *)
Fixpoint tally {R} (m : Method R) (st : Store) (rows : list (Z * R))
  (counters : nat * nat) : exn + (nat * nat) :=
  match rows with
  | [] => inr counters
  | row :: rows' =>
      match verdict m st row.1 row.2 with
      | inr c => tally m st rows' (bump c counters)
      | inl e => inl e
      end
  end.

(** The keys of the rows of a snapshot that are eligible in [st]. *)
Definition doomed {R} (m : Method R) (st : Store) (rows : list (Z * R))
  : list Z :=
  (filter (λ row, verdict m st row.1 row.2 = inr Eligible) rows).*1.

(** The store once the eligible rows of a snapshot are deleted. *)
Definition purge {R} (m : Method R) (st : Store) (rows : list (Z * R)) : Store :=
  foldl (λ s pk, del m pk s) st (doomed m st rows).

(** The rows a method iterates over, the counters it returns for them
    and the store a run that deletes leaves behind. *)
Definition snapshot {R} (m : Method R) (st : Store) : list (Z * R) :=
  map_to_list (objects m st).

Definition counts {R} (m : Method R) (st : Store) : exn + (nat * nat) :=
  tally m st (snapshot m st) (0%nat, 0%nat).

Definition swept {R} (m : Method R) (st : Store) : Store :=
  purge m st (snapshot m st).

(** The deletions among the queries of a run, the tables it selected
    from, and the summaries among its log records, as (name, deleted,
    skipped). *)
Definition deletions (qs : list Query) : list (string * Z) :=
  omap (λ q, match q with Delete t k => Some (t, k) | _ => None end) qs.

Definition selects (qs : list Query) : list string :=
  omap (λ q, match q with Select t => Some t | _ => None end) qs.

Definition summaries (l : list LogRecord) : list (string * nat * nat) :=
  omap (λ r, if levelno r =? 99 then
               match args r with
               | [Str name; Num deleted; Num skipped] =>
                   Some (name, deleted, skipped)
               | _ => None
               end
             else None) l.

(** A pointer that is null or refers to a row of the table [t], and the
    key a pointer refers to when there is no such row. *)
Definition resolves {R} (t : gmap Z R) (ptr : option Z) : Prop :=
  match ptr with
  | Some k => is_Some (t !! k)
  | None => True
  end.

Definition dangling {R} (t : gmap Z R) (ptr : option Z) : option Z :=
  match ptr with
  | Some k => match t !! k with Some _ => None | None => Some k end
  | None => None
  end.

(** Every foreign key the command follows has its row: every update has
    its parent, and a pointer of a parent that is not null refers to an
    update. *)
Definition integrity (st : Store) : Prop :=
  (∀ pk pu, project_updates st !! pk = Some pu →
            is_Some (projects st !! pu_project pu)) ∧
  (∀ pk iu, inventory_updates st !! pk = Some iu →
            is_Some (inventory_sources st !! iu_inventory_source iu)) ∧
  (∀ k p, projects st !! k = Some p →
          resolves (project_updates st) (p_current_update p)
          ∧ resolves (project_updates st) (p_last_update p)) ∧
  (∀ k s, inventory_sources st !! k = Some s →
          resolves (inventory_updates st) (s_current_update s)
          ∧ resolves (inventory_updates st) (s_last_update s)).

(** A computation that only reads: it leaves the store and the log as
    they are, issues neither a deletion nor a select, and what it answers
    depends on the store alone. *)
Definition reads_only {A} (c : M A) : Prop :=
  ∀ w, ∃ qs,
    c w = ((c (mkWorld (db w) [] [])).1,
           mkWorld (db w) (queries w ++ qs) (logged w))
    ∧ deletions qs = [] ∧ selects qs = [].

(** What the proofs ask of a method: its chain only reads, deleting one
    row of the table does not change what the chain says of another, the
    deletion removes the row from the method's table, integrity survives
    it, the chain gives an answer for every row of a store with
    integrity, and the only exception it raises is [DoesNotExist]. *)
Record method_ok {R} (m : Method R) : Prop := mk_method_ok {
  ok_reads : ∀ pk r w, ∃ qs,
      classify m pk r w
      = (verdict m (db w) pk r, mkWorld (db w) (queries w ++ qs) (logged w))
      ∧ deletions qs = [] ∧ selects qs = [];
  ok_stable : ∀ k k' r st,
      k ≠ k' → is_Some (objects m st !! k) →
      verdict m (del m k st) k' r = verdict m st k' r;
  ok_objects : ∀ k st, objects m (del m k st) = delete k (objects m st);
  ok_integrity : ∀ k st, integrity st → integrity (del m k st);
  ok_answers : ∀ st pk r,
      integrity st → objects m st !! pk = Some r →
      ∃ c, verdict m st pk r = inr c;
  ok_raises : ∀ st pk r e,
      verdict m st pk r = inl e → ∃ t k, e = DoesNotExist t k
}.

(** [w'] continues [w]: the store is [st'], the deletions issued since are
    [dels], and neither a select nor a summary was added. *)
Definition continues (w w' : World) (st' : Store) (dels : list (string * Z))
  : Prop :=
  db w' = st'
  ∧ deletions (queries w') = (deletions (queries w) ++ dels)%list
  ∧ selects (queries w') = selects (queries w)
  ∧ summaries (logged w') = summaries (logged w).

(** The turn of the loop for row [r] with key [pk] counts it as skipped
    and deletes nothing. *)
Definition skips {R} (self : Command) (m : Method R) (pk : Z) (r : R)
  (w : World) : Prop :=
  ∀ skipped deleted, ∃ w',
    visit self m (pk, r) (skipped, deleted) w = (inr (S skipped, deleted), w')
    ∧ db w' = db w
    ∧ deletions (queries w') = deletions (queries w).

(** The turn of the loop for row [r] with key [pk] counts it as deleted,
    and deletes it unless the run is a dry run. *)
Definition deletes {R} (self : Command) (m : Method R) (pk : Z) (r : R)
  (w : World) : Prop :=
  ∀ skipped deleted, ∃ w',
    visit self m (pk, r) (skipped, deleted) w = (inr (skipped, S deleted), w')
    ∧ db w' = (if dry_run self then db w else del m pk (db w))
    ∧ deletions (queries w')
      = (deletions (queries w)
         ++ (if dry_run self then [] else [(table m, pk)]))%list.

(** *** The methods by name *)

(** A method whatever the type of its rows. *)
Inductive AnyMethod :=
| Any {R} (m : Method R).

(** The method behind each model name: [policy self name] is what
    [cleanup_<name>] runs its loop with. *)
Definition policies (self : Command) : list (string * AnyMethod) :=
  [("jobs", Any (jobs_method self));
   ("ad_hoc_commands", Any (ad_hoc_commands_method self));
   ("project_updates", Any (project_updates_method self));
   ("inventory_updates", Any (inventory_updates_method self));
   ("management_jobs", Any (management_jobs_method self));
   ("workflow_jobs", Any (workflow_jobs_method self));
   ("notifications", Any (notifications_method self))].

Definition policy (self : Command) (name : string) : option AnyMethod :=
  assoc name (policies self).

Definition any_ok (a : AnyMethod) : Prop :=
  match a with Any m => method_ok m end.

(** The number of records of a category in a store. *)
Definition record_count (name : string) (st : Store) : nat :=
  match assoc name
          [("jobs", size (jobs st));
           ("ad_hoc_commands", size (ad_hoc_commands st));
           ("project_updates", size (project_updates st));
           ("inventory_updates", size (inventory_updates st));
           ("management_jobs", size (system_jobs st));
           ("workflow_jobs", size (workflow_jobs st));
           ("notifications", size (notifications st))] with
  | Some n => n
  | None => 0%nat
  end.

(** The counters of a category for a store, the store a deleting run of
    the category leaves, and the table the category reads. *)
Definition counts_of (self : Command) (name : string) (st : Store)
  : exn + (nat * nat) :=
  match policy self name with
  | Some (Any m) => counts m st
  | None => inl (AttributeError ("cleanup_" +:+ name))
  end.

Definition swept_of (self : Command) (name : string) (st : Store) : Store :=
  match policy self name with
  | Some (Any m) => swept m st
  | None => st
  end.

Definition table_of (self : Command) (name : string) : string :=
  match policy self name with
  | Some (Any m) => table m
  | None => ""
  end.

(** Two stores that look the same to a category: same table, same
    answers of its chain. *)
Definition same_for (self : Command) (name : string) (st st' : Store) : Prop :=
  match policy self name with
  | Some (Any m) =>
      objects m st' = objects m st
      ∧ ∀ pk r, verdict m st' pk r = verdict m st pk r
  | None => True
  end.

(** *** A run as a function of the store *)

(** The categories a run goes through, in the order of [model_names]. *)
Definition chosen (options : gmap string pyval) : list string :=
  if existsb (flagged options) model_names
  then List.filter (flagged options) model_names
  else model_names.

(** The stages of a run over the categories [names], those in [selected]
    only: the summaries (display name, deleted, skipped) and the store at
    the end, or the exception of the first category that raises. *)
Fixpoint stages (self : Command) (selected : gset string) (names : list string)
  (st : Store) : exn + (list (string * nat * nat) * Store) :=
  match names with
  | [] => inr ([], st)
  | m :: names' =>
      if decide (m ∈ selected) then
        match counts_of self m st with
        | inr (skipped, deleted) =>
            match stages self selected names'
                    (if dry_run self then st else swept_of self m st) with
            | inr (reports, st') =>
                inr ((replace "_"%char " "%char m, deleted, skipped) :: reports, st')
            | inl e => inl e
            end
        | inl e => inl e
        end
      else stages self selected names' st
  end.

(** *** A store to run on *)

(** Three jobs, two updates of a project that points at the first of
    them, one update of an inventory source that points at it, one
    notification. *)
Definition example_store : Store :=
  mkStore
    {[ 1 := mkRow "successful" 5; 2 := mkRow "running" 1;
       3 := mkRow "failed" 100 ]}
    ∅
    {[ 7 := mkProjectUpdate "successful" 3 1;
       8 := mkProjectUpdate "failed" 3 1 ]}
    {[ 4 := mkInventoryUpdate "failed" 2 1 ]}
    ∅
    ∅
    {[ 5 := mkRow "running" 1 ]}
    {[ 1 := mkProject (Some 7) None "git" ]}
    {[ 1 := mkInventorySource None (Some 4) "ec2" ]}.

Definition example_world : World := mkWorld example_store [] [].

(** ** The store after a run *)

(** The table of a category in [st'] is its table in [st], without the
    rows that were eligible in [st] when [swept] is set. *)
Definition remains (self : Command) (name : string) (st st' : Store)
  (swept : bool) : Prop :=
  match policy self name with
  | Some (Any m) =>
      ∀ pk r, objects m st' !! pk = Some r
              ↔ objects m st !! pk = Some r
                ∧ (swept = true → verdict m st pk r ≠ inr Eligible)
  | None => True
  end.

(** A store in which update 9 refers to a project that is not there. *)
Definition dangling_store : Store :=
  mkStore {[ 1 := mkRow "successful" 5 ]} ∅
          {[ 9 := mkProjectUpdate "failed" 3 2 ]} ∅ ∅ ∅ ∅
          {[ 1 := mkProject None None "git" ]} ∅.


(** A row that the final [else] of a chain is for: a status outside
    [active] and a created time strictly before the cutoff; for an
    update, also a parent that is there and does not protect it, that
    is, is not both pointing at it, as its current or its last update,
    and of a non-empty scm type (source). *)
Definition eligible_row (self : Command) (active : list string) (r : Row)
  : Prop :=
  (status r ∉ active) ∧ created r < cutoff self.

Definition eligible_project_update (self : Command) (st : Store) (pk : Z)
  (pu : ProjectUpdate) : Prop :=
  (pu_status pu ∉ ["pending"; "waiting"; "running"])
  ∧ pu_created pu < cutoff self
  ∧ ∃ project, projects st !! pu_project pu = Some project
      ∧ ¬ ((p_current_update project = Some pk
            ∨ p_last_update project = Some pk)
           ∧ scm_type project ≠ "").

Definition eligible_inventory_update (self : Command) (st : Store) (pk : Z)
  (iu : InventoryUpdate) : Prop :=
  (iu_status iu ∉ ["pending"; "waiting"; "running"])
  ∧ iu_created iu < cutoff self
  ∧ ∃ inventory_source,
      inventory_sources st !! iu_inventory_source iu = Some inventory_source
      ∧ ¬ ((s_current_update inventory_source = Some pk
            ∨ s_last_update inventory_source = Some pk)
           ∧ source inventory_source ≠ "").

(** The seven tables of [st'] are those of [st] without the rows for
    which [gone] holds: [gone name] is given the condition under which a
    row of category [name] is deleted. *)
Definition tables_without (self : Command) (st st' : Store)
  (selected : string → Prop) : Prop :=
  (∀ pk r, jobs st' !! pk = Some r
           ↔ jobs st !! pk = Some r
             ∧ ¬ (selected "jobs"
                  ∧ eligible_row self ["pending"; "waiting"; "running"] r))
  ∧ (∀ pk r, ad_hoc_commands st' !! pk = Some r
             ↔ ad_hoc_commands st !! pk = Some r
               ∧ ¬ (selected "ad_hoc_commands"
                    ∧ eligible_row self ["pending"; "waiting"; "running"] r))
  ∧ (∀ pk r, project_updates st' !! pk = Some r
             ↔ project_updates st !! pk = Some r
               ∧ ¬ (selected "project_updates"
                    ∧ eligible_project_update self st pk r))
  ∧ (∀ pk r, inventory_updates st' !! pk = Some r
             ↔ inventory_updates st !! pk = Some r
               ∧ ¬ (selected "inventory_updates"
                    ∧ eligible_inventory_update self st pk r))
  ∧ (∀ pk r, system_jobs st' !! pk = Some r
             ↔ system_jobs st !! pk = Some r
               ∧ ¬ (selected "management_jobs"
                    ∧ eligible_row self ["pending"; "waiting"; "running"] r))
  ∧ (∀ pk r, workflow_jobs st' !! pk = Some r
             ↔ workflow_jobs st !! pk = Some r
               ∧ ¬ (selected "workflow_jobs"
                    ∧ eligible_row self ["pending"; "waiting"; "running"] r))
  ∧ (∀ pk r, notifications st' !! pk = Some r
             ↔ notifications st !! pk = Some r
               ∧ ¬ (selected "notifications"
                    ∧ eligible_row self ["pending"] r)).


(** An update, not in an active status, that its method cannot follow
    to the end: its parent is not in the store, or a pointer of its
    parent refers to an update that is not. *)
Definition broken_project_update (st : Store) : Prop :=
  ∃ pk pu, project_updates st !! pk = Some pu
           ∧ (pu_status pu ∉ ["pending"; "waiting"; "running"])
           ∧ ∀ p, projects st !! pu_project pu = Some p →
                  ¬ (resolves (project_updates st) (p_current_update p)
                     ∧ resolves (project_updates st) (p_last_update p)).

Definition broken_inventory_update (st : Store) : Prop :=
  ∃ pk iu, inventory_updates st !! pk = Some iu
           ∧ (iu_status iu ∉ ["pending"; "waiting"; "running"])
           ∧ ∀ s, inventory_sources st !! iu_inventory_source iu = Some s →
                  ¬ (resolves (inventory_updates st) (s_current_update s)
                     ∧ resolves (inventory_updates st) (s_last_update s)).


(** ** The log and the queries of a run *)

(** The record a log line is about, and its action text. *)
Definition subject (r : LogRecord) : option Z :=
  match last (args r) with
  | Some (Display pk) => Some pk
  | _ => None
  end.

Definition action (r : LogRecord) : option string :=
  match args r with
  | Str a :: _ => Some a
  | _ => None
  end.

(** The number of records of a level in a log. *)
Definition lines_at (level : Z) (l : list LogRecord) : nat :=
  length (filter (λ r, levelno r = level) l).

(** The three kinds of records the command logs, in the wording of a
    dry run or of a run that deletes. *)
Definition worded (dry : bool) (r : LogRecord) : Prop :=
  (levelno r = DEBUG
   ∧ action r = Some (if dry then "would skip" else "skipping"))
  ∨ (levelno r = INFO
     ∧ action r = Some (if dry then "would delete" else "deleting"))
  ∨ (levelno r = 99
     ∧ msg r = (if dry then "%s: %d would be deleted, %d would be skipped."
                else "%s: %d deleted, %d skipped.")).

(** Whatever [c] logs satisfies [P], and it takes nothing from the log. *)
Definition logs_only {A} (P : LogRecord → Prop) (c : M A) : Prop :=
  ∀ w, ∃ new, logged (c w).2 = (logged w ++ new)%list ∧ Forall P new.

(** The primary keys of a category in a store, in the order its method
    goes through them. *)
Definition record_keys (name : string) (st : Store) : list Z :=
  match assoc name
          [("jobs", (map_to_list (jobs st)).*1);
           ("ad_hoc_commands", (map_to_list (ad_hoc_commands st)).*1);
           ("project_updates", (map_to_list (project_updates st)).*1);
           ("inventory_updates", (map_to_list (inventory_updates st)).*1);
           ("management_jobs", (map_to_list (system_jobs st)).*1);
           ("workflow_jobs", (map_to_list (workflow_jobs st)).*1);
           ("notifications", (map_to_list (notifications st)).*1)] with
  | Some keys => keys
  | None => []
  end.


(** ** [init_logging] *)

Definition ERROR : Z := 40.
Definition NOTSET : Z := 0.

(** [enumerate(l)] *)
Fixpoint enumerate_from {A} (i : Z) (l : list A) : list (Z * A) :=
  match l with
  | [] => []
  | x :: l' => (i, x) :: enumerate_from (i + 1) l'
  end.

(** [dict(enumerate([logging.ERROR, logging.INFO, logging.DEBUG, 0]))] *)
Definition log_levels : gmap Z Z :=
  list_to_map (enumerate_from 0 [ERROR; INFO; DEBUG; 0]).

(** The logger of the command, which [logging.getLogger] hands out, the
    same one every time in a process: its level, the stream handlers
    added to it, each of level [NOTSET] and printing the message alone,
    and whether it propagates to the loggers above it. *)
Record Logger := mkLogger {
  logger_level : Z;
  handlers : nat;
  propagate : bool
}.

(** The logger as [logging.getLogger] first makes it. *)
Definition new_logger : Logger := mkLogger NOTSET 0 true.

(** [self.verbosity], as [handle_noargs] sets it. *)
Definition verbosity_of (options : gmap string pyval) : Z :=
  py_int (options_get options "verbosity" (VInt 1)).

(** [init_logging]: the level by verbosity, one more handler, no
    propagation. *)
Definition init_logging (verbosity : Z) (logger : Logger) : Logger :=
  mkLogger (match log_levels !! verbosity with
            | Some level => level
            | None => 0
            end)
           (S (handlers logger)) false.

(** [Logger.getEffectiveLevel]: the level of the logger, or when that is
    [NOTSET] the effective level [inherited] from the loggers above. *)
Definition effective_level (logger : Logger) (inherited : Z) : Z :=
  if logger_level logger =? NOTSET then inherited else logger_level logger.

(** [Logger.isEnabledFor] *)
Definition is_enabled_for (logger : Logger) (inherited level : Z) : bool :=
  effective_level logger inherited <=? level.

(** What the handlers of the logger write for the records handed to it:
    a record the logger is enabled for goes to each of its handlers. *)
Definition written (logger : Logger) (inherited : Z) (l : list LogRecord)
  : list LogRecord :=
  r ← l;
  if is_enabled_for logger inherited (levelno r)
  then replicate (handlers logger) r else [].


(** ** The options *)

(** The keys [handle_noargs] looks up in its options, and what it takes
    for a key that is not there. *)
Definition read_keys : list string :=
  "verbosity" :: "days" :: "dry_run" :: ((λ m, "only_" +:+ m) <$> model_names).

Definition default_of (key : string) : pyval :=
  if decide (key = "days") then VInt 90
  else if decide (key = "verbosity") then VInt 1
  else VBool false.

(** ** What a method and a run do with one record *)

(** The level of the line a branch logs about its record: a skip at
    DEBUG, a deletion at INFO. *)
Definition level_of (c : Classification) : Z :=
  match c with
  | Eligible => INFO
  | _ => DEBUG
  end.

(** The levels of the lines of a log that are about record [pk]. *)
Definition levels_about (pk : Z) (l : list LogRecord) : list Z :=
  levelno <$> filter (λ r, subject r = Some pk) l.

(** Whatever [run] ends in from [w], the record [r] with key [pk] is in
    the table of [m] at the end. *)
Definition keeps {R A} (m : Method R) (run : M A) (pk : Z) (r : R) (w : World)
  : Prop :=
  objects m (db (run w).2) !! pk = Some r.

(** [run] spares the record: it keeps it, and no deletion of it is among
    the queries [run] issued. *)
Definition spares {R A} (m : Method R) (run : M A) (pk : Z) (r : R) (w : World)
  : Prop :=
  keeps m run pk r w
  ∧ ∃ dels, deletions (queries (run w).2) = (deletions (queries w) ++ dels)%list
            ∧ (table m, pk) ∉ dels.

(** When [run] returns from [w], the record with key [pk] is no longer in
    the table of [m]. *)
Definition gone {R A} (m : Method R) (run : M A) (pk : Z) (w : World) : Prop :=
  ∀ a w', run w = (inr a, w') → objects m (db w') !! pk = None.

(** When [run] returns from [w] it has removed the record: the record is
    gone and its deletion is among the queries [run] issued. *)
Definition removes {R A} (m : Method R) (run : M A) (pk : Z) (w : World)
  : Prop :=
  ∀ a w', run w = (inr a, w') →
    objects m (db w') !! pk = None
    ∧ ∃ dels, deletions (queries w') = (deletions (queries w) ++ dels)%list
              ∧ (table m, pk) ∈ dels.

(** When the method [run] returns from [w] it has counted the record with
    key [pk] once, as skipped for the level DEBUG and as deleted for the
    level INFO: of the lines it logged, one and only one is about the
    record, at [level]; the lines at DEBUG are as many as the skipped
    counter it returns, those at INFO as many as the deleted counter. *)
Definition counted (level : Z) (run : M (nat * nat)) (pk : Z) (w : World)
  : Prop :=
  ∀ skipped deleted w', run w = (inr (skipped, deleted), w') →
    ∃ new, logged w' = (logged w ++ new)%list
           ∧ levels_about pk new = [level]
           ∧ lines_at DEBUG new = skipped
           ∧ lines_at INFO new = deleted.

(** The runs of the command whose cutoff, when they get to one, is the
    cutoff of [self]. *)
Definition runs_with (self : Command) (options : gmap string pyval) (now : Z)
  : Prop :=
  ∀ cut,
    compute_cutoff now (py_int (options_get options "days" (VInt 90))) = inr cut →
    cut = cutoff self.

(** The record [r] with key [pk] is skipped all the way: its turn of the
    loop of [m] counts it as skipped and deletes nothing; and when it is
    in the table, the method [run] spares it and counts it as skipped,
    and every run of the command with the cutoff of [self], whatever its
    options, keeps it. *)
Definition skipped_by {R} (self : Command) (m : Method R) (run : M (nat * nat))
  (pk : Z) (r : R) (w : World) : Prop :=
  skips self m pk r w
  ∧ (objects m (db w) !! pk = Some r →
     spares m run pk r w
     ∧ counted DEBUG run pk w
     ∧ ∀ options now, runs_with self options now →
         keeps m (handle_noargs options now) pk r w).

(** The record [r] with key [pk] of category [name] is deleted all the
    way: its turn of the loop of [m] counts it as deleted and, unless the
    run is a dry run, deletes it; and when it is in the table, the method
    [run] counts it as deleted, spares it in a dry run and removes it
    otherwise, and after every run of the command with the cutoff of
    [self] that goes through the category, is not a dry run and returns,
    the record is gone. *)
Definition deleted_by {R} (self : Command) (m : Method R) (name : string)
  (run : M (nat * nat)) (pk : Z) (r : R) (w : World) : Prop :=
  deletes self m pk r w
  ∧ (objects m (db w) !! pk = Some r →
     counted INFO run pk w
     ∧ (if dry_run self then spares m run pk r w else removes m run pk w)
     ∧ ∀ options now, runs_with self options now →
         name ∈ chosen options →
         py_bool (options_get options "dry_run" (VBool false)) = false →
         gone m (handle_noargs options now) pk w).

(** No record of [st] was created at or after [cut] and before [cut']. *)
Definition none_between (cut cut' : Z) (st : Store) : Prop :=
  (∀ pk r, jobs st !! pk = Some r → ¬ (cut ≤ created r < cut'))
  ∧ (∀ pk r, ad_hoc_commands st !! pk = Some r → ¬ (cut ≤ created r < cut'))
  ∧ (∀ pk r, project_updates st !! pk = Some r →
             ¬ (cut ≤ pu_created r < cut'))
  ∧ (∀ pk r, inventory_updates st !! pk = Some r →
             ¬ (cut ≤ iu_created r < cut'))
  ∧ (∀ pk r, system_jobs st !! pk = Some r → ¬ (cut ≤ created r < cut'))
  ∧ (∀ pk r, workflow_jobs st !! pk = Some r → ¬ (cut ≤ created r < cut'))
  ∧ (∀ pk r, notifications st !! pk = Some r → ¬ (cut ≤ created r < cut')).


(** * Proofs *)

(** ** The loop *)

Ltac monad_unfold :=
  unfold mbind, mret, M_bind, M_ret, raise, query, read, write, log,
         delete_instance in *.

Lemma deletions_app qs qs' :
  deletions (qs ++ qs') = (deletions qs ++ deletions qs')%list.
Proof. apply omap_app. Qed.

Lemma selects_app qs qs' : selects (qs ++ qs') = (selects qs ++ selects qs')%list.
Proof. apply omap_app. Qed.

Lemma summaries_app l l' :
  summaries (l ++ l') = (summaries l ++ summaries l')%list.
Proof. apply omap_app. Qed.

Lemma continues_intro w w' st dels qs ls :
  queries w' = (queries w ++ qs)%list →
  logged w' = (logged w ++ ls)%list →
  db w' = st →
  deletions qs = dels →
  selects qs = [] →
  summaries ls = [] →
  continues w w' st dels.
Proof.
  intros Hq Hlog Hdb <- Hs Hl. unfold continues.
  by rw Hq Hlog deletions_app selects_app summaries_app Hs Hl !app_nil_r.
Qed.

Lemma continues_refl w : continues w w (db w) [].
Proof. unfold continues. by rw app_nil_r. Qed.

Lemma continues_trans w w' w'' st' st'' dels dels' :
  continues w w' st' dels → continues w' w'' st'' dels' →
  continues w w'' st'' (dels ++ dels').
Proof.
  intros (_ & Hd & Hs & Hl) (Hdb & Hd' & Hs' & Hl'). unfold continues.
  by rw Hd' Hd Hs' Hs Hl' Hl app_assoc.
Qed.

Section loop.
Context {R : Type} (self : Command) (m : Method R) (Hok : method_ok m).

Lemma bump_sum c counters :
  ((bump c counters).1 + (bump c counters).2 = S (counters.1 + counters.2))%nat.
Proof. destruct c; simpl; lia. Qed.

Lemma tally_ext st st' (rows : list (Z * R)) counters :
  (∀ row, row ∈ rows → verdict m st' row.1 row.2 = verdict m st row.1 row.2) →
  tally m st' rows counters = tally m st rows counters.
Proof.
  revert counters. induction rows as [|row rows IH]; intros counters H; [done|].
  simpl. rw (H row); [by left|].
  destruct (verdict m st row.1 row.2); [done|].
  apply IH. intros row' Hin. apply H. by right.
Qed.

Lemma doomed_ext st st' (rows : list (Z * R)) :
  (∀ row, row ∈ rows → verdict m st' row.1 row.2 = verdict m st row.1 row.2) →
  doomed m st' rows = doomed m st rows.
Proof.
  unfold doomed. intros H. f_equal.
  induction rows as [|row rows IH]; [done|].
  rw !filter_cons. rw (H row); [by left|].
  rw IH; [|done]. intros row' Hin. apply H. by right.
Qed.

Lemma tally_sum st (rows : list (Z * R)) counters counters' :
  tally m st rows counters = inr counters' →
  (counters'.1 + counters'.2 = counters.1 + counters.2 + length rows)%nat.
Proof.
  revert counters. induction rows as [|row rows IH]; intros counters; simpl.
  - intros [= <-]. lia.
  - destruct (verdict m st row.1 row.2) as [e|c]; [done|].
    intros H. apply IH in H. pose proof (bump_sum c counters). lia.
Qed.

(** One turn, when the chain answers [c]. *)
Lemma visit_answer row counters w c :
  verdict m (db w) row.1 row.2 = inr c →
  ∃ w', visit self m row counters w = (inr (bump c counters), w')
        ∧ continues w w'
            (if decide (c = Eligible ∧ dry_run self = false)
             then del m row.1 (db w) else db w)
            (if decide (c = Eligible ∧ dry_run self = false)
             then [(table m, row.1)] else []).
Proof.
  intros Hv. destruct (ok_reads m Hok row.1 row.2 w) as (qs & Hc & Hd & Hs).
  rw Hv in Hc. unfold visit. monad_unfold. rw Hc.
  destruct counters as [skipped deleted].
  unfold branch. destruct c, (dry_run self); monad_unfold; simpl;
    (eexists; split; [reflexivity|]);
    first
      [ by eapply (continues_intro _ _ _ _ qs); simpl; rw -?app_assoc
      | eapply (continues_intro _ _ _ _ (qs ++ [Delete (table m) row.1]));
        simpl; rw -?app_assoc; try done;
        [by rw deletions_app Hd | by rw selects_app Hs] ].
Qed.

(** One turn, when the chain raises. *)
Lemma visit_raise row counters w e :
  verdict m (db w) row.1 row.2 = inl e →
  ∃ w', visit self m row counters w = (inl e, w') ∧ continues w w' (db w) [].
Proof.
  intros Hv. destruct (ok_reads m Hok row.1 row.2 w) as (qs & Hc & Hd & Hs).
  rw Hv in Hc. unfold visit. monad_unfold. rw Hc.
  eexists; split; [reflexivity|].
  by eapply (continues_intro _ _ _ _ qs []); simpl; rw ?app_nil_r.
Qed.

(** Deleting a row that is not among [rows] leaves the rows of [rows]
    in the table, and what the chain says of them. *)
Lemma present_after_del k st (rows : list (Z * R)) :
  k ∉ rows.*1 →
  (∀ row, row ∈ rows → is_Some (objects m st !! row.1)) →
  ∀ row, row ∈ rows → is_Some (objects m (del m k st) !! row.1).
Proof.
  intros Hnotin Hpres row Hin. rw (ok_objects m Hok) lookup_delete_ne.
  - intros ->. apply Hnotin. by apply list_elem_of_fmap_2.
  - by apply Hpres.
Qed.

Lemma verdict_after_del k st (rows : list (Z * R)) :
  k ∉ rows.*1 → is_Some (objects m st !! k) →
  ∀ row, row ∈ rows →
  verdict m (del m k st) row.1 row.2 = verdict m st row.1 row.2.
Proof.
  intros Hnotin Hk row Hin. apply (ok_stable m Hok); [|done].
  intros Heq. apply Hnotin. rw Heq. by apply list_elem_of_fmap_2.
Qed.

(** The loop over a snapshot with distinct keys, all in the table, when
    every row gets an answer: the counters are those of [tally], and the
    store is untouched in a dry run, purged otherwise. *)
Lemma for_each_answer (rows : list (Z * R)) :
  NoDup rows.*1 → ∀ counters counters' w,
  (∀ row, row ∈ rows → is_Some (objects m (db w) !! row.1)) →
  tally m (db w) rows counters = inr counters' →
  ∃ w', for_each (visit self m) rows counters w = (inr counters', w')
        ∧ continues w w'
            (if dry_run self then db w else purge m (db w) rows)
            (if dry_run self then []
             else (λ pk, (table m, pk)) <$> doomed m (db w) rows).
Proof.
  induction rows as [|row rows IH]; intros Hnd counters counters' w Hpres Ht.
  - simpl in Ht. injection Ht as <-. exists w. split; [done|].
    unfold purge, doomed. simpl. destruct (dry_run self); apply continues_refl.
  - apply NoDup_cons in Hnd as [Hnotin Hnd]. simpl in Ht.
    destruct (verdict m (db w) row.1 row.2) as [e|c] eqn:Hv; [done|].
    destruct (visit_answer row counters w c Hv) as (w1 & Hvis & Hcont).
    assert (is_Some (objects m (db w) !! row.1)) as Hrow
      by (apply Hpres; by left).
    assert (∀ row', row' ∈ rows → is_Some (objects m (db w) !! row'.1))
      as Hpres' by (intros row' Hin; apply Hpres; by right).
    pose proof (verdict_after_del row.1 (db w) rows Hnotin Hrow) as Hrest.
    simpl. monad_unfold. rw Hvis. revert Hcont.
    destruct (decide (c = Eligible ∧ dry_run self = false)) as [[-> Hdry]|Hno];
      intros Hcont.
    + destruct Hcont as (Hdb & Hcont).
      destruct (IH Hnd (bump Eligible counters) counters' w1) as (w2 & Hloop & Hc2).
      { rw Hdb. by apply present_after_del. }
      { rw Hdb. by rw (tally_ext (db w)). }
      exists w2. split; [done|].
      rw Hdry. rw Hdry in Hc2. rw Hdb in Hc2.
      rw /purge (doomed_ext (db w)) in Hc2; [done|].
      rw /purge /doomed filter_cons_True; [done|]. simpl.
      eapply continues_trans in Hc2; [|split; [reflexivity|exact Hcont]].
      exact Hc2.
    + destruct Hcont as (Hdb & Hcont).
      destruct (IH Hnd (bump c counters) counters' w1) as (w2 & Hloop & Hc2).
      { by rw Hdb. }
      { by rw Hdb. }
      exists w2. split; [done|].
      eapply continues_trans in Hc2; [|split; [reflexivity|exact Hcont]].
      rw Hdb in Hc2. simpl in Hc2.
      destruct (dry_run self) eqn:Hdry; [done|].
      assert (c ≠ Eligible) as Hc by (intros ->; by apply Hno).
      rw /purge /doomed filter_cons_False; [by rw Hv; intros [= ?]|].
      exact Hc2.
Qed.

(** The same loop when some row makes the chain raise: the loop ends
    in that exception. *)
Lemma for_each_raise (rows : list (Z * R)) :
  NoDup rows.*1 → ∀ counters e w,
  (∀ row, row ∈ rows → is_Some (objects m (db w) !! row.1)) →
  tally m (db w) rows counters = inl e →
  ∃ w', for_each (visit self m) rows counters w = (inl e, w')
        ∧ selects (queries w') = selects (queries w)
        ∧ summaries (logged w') = summaries (logged w)
        ∧ (dry_run self = true →
           db w' = db w ∧ deletions (queries w') = deletions (queries w)).
Proof.
  induction rows as [|row rows IH]; intros Hnd counters e w Hpres Ht; [done|].
  apply NoDup_cons in Hnd as [Hnotin Hnd]. simpl in Ht.
  destruct (verdict m (db w) row.1 row.2) as [e'|c] eqn:Hv.
  - injection Ht as ->.
    destruct (visit_raise row counters w e Hv) as (w1 & Hvis & Hdb & Hd & Hs & Hl).
    exists w1. simpl. monad_unfold. rw Hvis. rw app_nil_r in Hd. done.
  - destruct (visit_answer row counters w c Hv) as (w1 & Hvis & Hdb & Hd & Hs & Hl).
    assert (is_Some (objects m (db w) !! row.1)) as Hrow
      by (apply Hpres; by left).
    assert (∀ row', row' ∈ rows → is_Some (objects m (db w) !! row'.1))
      as Hpres' by (intros row' Hin; apply Hpres; by right).
    pose proof (verdict_after_del row.1 (db w) rows Hnotin Hrow) as Hrest.
    destruct (IH Hnd (bump c counters) e w1) as (w2 & Hloop & Hs2 & Hl2 & Hdry).
    { rw Hdb. case_decide; [by apply present_after_del|done]. }
    { rw Hdb. case_decide; [by rw (tally_ext (db w))|done]. }
    exists w2. simpl. monad_unfold. rw Hvis. split; [done|].
    rw Hs2 Hs Hl2 Hl. do 2 (split; [done|]).
    intros Hd'. destruct (Hdry Hd') as [-> ->]. rw Hdb Hd.
    rw !decide_False; [by rw Hd'; intros [_ ?]..|]. by rw app_nil_r.
Qed.

(** The counters of the loop are those of [tally], whatever the mode. *)
Lemma for_each_tally (rows : list (Z * R)) counters w :
  NoDup rows.*1 →
  (∀ row, row ∈ rows → is_Some (objects m (db w) !! row.1)) →
  (for_each (visit self m) rows counters w).1 = tally m (db w) rows counters.
Proof.
  intros Hnd Hpres. destruct (tally m (db w) rows counters) as [e|c] eqn:Ht.
  - destruct (for_each_raise rows Hnd counters e w Hpres Ht) as (w' & -> & _).
    done.
  - destruct (for_each_answer rows Hnd counters c w Hpres Ht) as (w' & -> & _).
    done.
Qed.

(** *** The counters of a snapshot *)

Lemma tally_doomed st (rows : list (Z * R)) counters counters' :
  tally m st rows counters = inr counters' →
  (counters'.2 = counters.2 + length (doomed m st rows))%nat.
Proof.
  revert counters. induction rows as [|row rows IH]; intros counters; simpl.
  - intros [= <-]. unfold doomed. simpl. lia.
  - destruct (verdict m st row.1 row.2) as [e|c] eqn:Hv; [done|].
    intros H. apply IH in H. rw H. unfold doomed in *. rw filter_cons.
    rw Hv. destruct c; case_decide; try done; rw !length_fmap /=; lia.
Qed.

Lemma tally_all_skipped st (rows : list (Z * R)) counters :
  (∀ row, row ∈ rows →
     ∃ c, verdict m st row.1 row.2 = inr c ∧ c ≠ Eligible) →
  tally m st rows counters
  = inr ((counters.1 + length rows)%nat, counters.2)
  ∧ doomed m st rows = [].
Proof.
  revert counters. induction rows as [|row rows IH]; intros counters H; simpl.
  - destruct counters. by rw Nat.add_0_r.
  - destruct (H row) as (c & Hv & Hc); [by left|]. rw Hv.
    destruct (IH (bump c counters)) as [-> Hd].
    { intros row' Hin. apply H. by right. }
    rw /doomed filter_cons_False; [by rw Hv; intros [= ?]|].
    split; [|done]. destruct c; simpl; try done; f_equal; f_equal; lia.
Qed.

Lemma tally_answers st (rows : list (Z * R)) counters :
  (∀ row, row ∈ rows → ∃ c, verdict m st row.1 row.2 = inr c) →
  ∃ counters', tally m st rows counters = inr counters'.
Proof.
  revert counters. induction rows as [|row rows IH]; intros counters H; simpl.
  - by eexists.
  - destruct (H row) as (c & ->); [by left|].
    apply IH. intros row' Hin. apply H. by right.
Qed.

Lemma tally_raises st (rows : list (Z * R)) counters e :
  tally m st rows counters = inl e → ∃ t k, e = DoesNotExist t k.
Proof.
  revert counters. induction rows as [|row rows IH]; intros counters; [done|].
  simpl. destruct (verdict m st row.1 row.2) as [e'|c] eqn:Hv; [|by apply IH].
  intros [= <-]. by eapply (ok_raises m Hok).
Qed.

Lemma elem_of_doomed st (rows : list (Z * R)) pk :
  pk ∈ doomed m st rows ↔
  ∃ r, (pk, r) ∈ rows ∧ verdict m st pk r = inr Eligible.
Proof.
  unfold doomed. rw list_elem_of_fmap. split.
  - intros ([k r] & -> & [Hv Hin]%list_elem_of_filter). by exists r.
  - intros (r & Hin & Hv). exists (pk, r). split; [done|].
    by apply list_elem_of_filter.
Qed.

Lemma NoDup_doomed st (rows : list (Z * R)) :
  NoDup rows.*1 → NoDup (doomed m st rows).
Proof.
  induction rows as [|row rows IH]; [done|].
  rw fmap_cons. intros [Hnotin Hnd]%NoDup_cons.
  rw /doomed filter_cons. case_decide; [|by apply IH].
  rw fmap_cons. apply NoDup_cons. split; [|by apply IH].
  intros ([k r] & Hk & [_ Hin]%list_elem_of_filter)%list_elem_of_fmap.
  apply Hnotin. apply list_elem_of_fmap. by exists (k, r).
Qed.

Lemma NoDup_snapshot st : NoDup (snapshot m st).*1.
Proof. apply NoDup_fst_map_to_list. Qed.

Lemma elem_of_snapshot st pk r :
  (pk, r) ∈ snapshot m st ↔ objects m st !! pk = Some r.
Proof. apply elem_of_map_to_list. Qed.

Lemma length_snapshot st : length (snapshot m st) = size (objects m st).
Proof. apply length_map_to_list. Qed.

Lemma snapshot_present st row :
  row ∈ snapshot m st → is_Some (objects m st !! row.1).
Proof. destruct row as [pk r]. intros ?%elem_of_snapshot. by exists r. Qed.

(** The two counters of a method add up to the size of its table. *)
Lemma counts_total st counters :
  counts m st = inr counters →
  (counters.1 + counters.2 = size (objects m st))%nat.
Proof.
  intros H%tally_sum. simpl in H. by rw -length_snapshot.
Qed.

(** With integrity every row gets an answer. *)
Lemma counts_answers st :
  integrity st → ∃ counters, counts m st = inr counters.
Proof.
  intros Hi. apply tally_answers. intros [pk r] Hin%elem_of_snapshot.
  by apply (ok_answers m Hok).
Qed.

(** *** The method as a whole *)

Lemma cleanup_answer w counters :
  counts m (db w) = inr counters →
  ∃ w', cleanup self m w = (inr counters, w')
        ∧ db w' = (if dry_run self then db w else swept m (db w))
        ∧ deletions (queries w')
          = (deletions (queries w)
             ++ (if dry_run self then []
                 else (λ pk, (table m, pk))
                        <$> doomed m (db w) (snapshot m (db w))))%list
        ∧ selects (queries w') = (selects (queries w) ++ [table m])%list
        ∧ summaries (logged w') = summaries (logged w).
Proof.
  intros Hc. unfold cleanup, objects_all. monad_unfold. simpl.
  destruct (for_each_answer (snapshot m (db w)) (NoDup_snapshot _)
              (0%nat, 0%nat) counters
              (mkWorld (db w) (queries w ++ [Select (table m)]) (logged w))
              (snapshot_present _) Hc)
    as (w' & Hloop & Hdb & Hd & Hs & Hl).
  exists w'. split; [exact Hloop|]. simpl in *.
  rw Hdb Hd Hs Hl deletions_app selects_app /= app_nil_r. done.
Qed.

Lemma cleanup_raise w e :
  counts m (db w) = inl e →
  ∃ w', cleanup self m w = (inl e, w')
        ∧ selects (queries w') = (selects (queries w) ++ [table m])%list
        ∧ summaries (logged w') = summaries (logged w)
        ∧ (dry_run self = true →
           db w' = db w ∧ deletions (queries w') = deletions (queries w)).
Proof.
  intros Hc. unfold cleanup, objects_all. monad_unfold. simpl.
  destruct (for_each_raise (snapshot m (db w)) (NoDup_snapshot _)
              (0%nat, 0%nat) e
              (mkWorld (db w) (queries w ++ [Select (table m)]) (logged w))
              (snapshot_present _) Hc)
    as (w' & Hloop & Hs & Hl & Hdry).
  exists w'. split; [exact Hloop|]. simpl in *.
  rw Hs Hl selects_app /=. do 2 (split; [done|]).
  intros Hd. destruct (Hdry Hd) as [-> ->].
  by rw deletions_app /= app_nil_r.
Qed.

(** The counters a method returns are [counts] of the store it starts
    from, in a dry run and in a run that deletes alike. *)
Lemma cleanup_counts w : (cleanup self m w).1 = counts m (db w).
Proof.
  destruct (counts m (db w)) as [e|c] eqn:Hc.
  - by destruct (cleanup_raise w e Hc) as (w' & -> & _).
  - by destruct (cleanup_answer w c Hc) as (w' & -> & _).
Qed.

(** *** The store a run that deletes leaves behind *)

Lemma tally_inr_inv st (rows : list (Z * R)) counters counters' :
  tally m st rows counters = inr counters' →
  ∀ row, row ∈ rows → ∃ c, verdict m st row.1 row.2 = inr c.
Proof.
  revert counters. induction rows as [|row rows IH]; intros counters Ht row' Hin.
  - by apply elem_of_nil in Hin.
  - simpl in Ht. destruct (verdict m st row.1 row.2) as [e|c] eqn:Hv; [done|].
    apply elem_of_cons in Hin as [->|Hin]; [by exists c|]. by eapply IH.
Qed.

Lemma objects_foldl_del st ks :
  objects m (foldl (λ s pk, del m pk s) st ks)
  = foldl (λ t k, delete k t) (objects m st) ks.
Proof.
  revert st. induction ks as [|k ks IH]; intros st; [done|].
  simpl. by rw IH (ok_objects m Hok).
Qed.

Lemma lookup_foldl_delete (t : gmap Z R) ks i :
  foldl (λ t k, delete k t) t ks !! i
  = if decide (i ∈ ks) then None else t !! i.
Proof.
  revert t. induction ks as [|k ks IH]; intros t; simpl; [done|].
  rw IH. destruct (decide (i ∈ k :: ks)) as [Hin|Hnotin].
  - apply elem_of_cons in Hin as [->|Hin].
    + rw lookup_delete_eq. by case_decide.
    + by rw decide_True.
  - rw decide_False; [by intros ?; apply Hnotin; right|].
    apply lookup_delete_ne. intros ->. apply Hnotin. by left.
Qed.

Lemma size_foldl_delete (t : gmap Z R) ks :
  NoDup ks → (∀ k, k ∈ ks → is_Some (t !! k)) →
  size (foldl (λ t k, delete k t) t ks) = (size t - length ks)%nat.
Proof.
  revert t. induction ks as [|k ks IH]; intros t Hnd Hin; simpl; [lia|].
  apply NoDup_cons in Hnd as [Hnotin Hnd].
  rw IH; [done| |].
  - intros k' Hk'. rw lookup_delete_ne; [by intros ->|]. apply Hin. by right.
  - rw map_size_delete_Some; [apply Hin; by left|]. lia.
Qed.

Lemma verdict_foldl_del st ks pk r :
  NoDup ks → (∀ k, k ∈ ks → is_Some (objects m st !! k)) →
  pk ∉ ks → verdict m (foldl (λ s k, del m k s) st ks) pk r = verdict m st pk r.
Proof.
  revert st. induction ks as [|k ks IH]; intros st Hnd Hpres Hnotin; [done|].
  apply NoDup_cons in Hnd as [Hk Hnd].
  simpl. rw IH; [done| |by intros ?; apply Hnotin; right|].
  - intros k' Hk'. rw (ok_objects m Hok) lookup_delete_ne; [by intros ->|].
    apply Hpres. by right.
  - apply (ok_stable m Hok); [|apply Hpres; by left].
    intros ->. apply Hnotin. by left.
Qed.

Lemma integrity_foldl_del st ks :
  integrity st → integrity (foldl (λ s k, del m k s) st ks).
Proof.
  revert st. induction ks as [|k ks IH]; intros st Hi; [done|].
  simpl. apply IH. by apply (ok_integrity m Hok).
Qed.

Lemma integrity_swept st : integrity st → integrity (swept m st).
Proof. apply integrity_foldl_del. Qed.

(** A row that is left was there before and was not eligible. *)
Lemma lookup_swept st pk r :
  objects m (swept m st) !! pk = Some r →
  objects m st !! pk = Some r ∧ verdict m st pk r ≠ inr Eligible
  ∧ verdict m (swept m st) pk r = verdict m st pk r.
Proof.
  rw /swept /purge objects_foldl_del lookup_foldl_delete.
  case_decide as Hd; [done|]. intros Hl. split; [done|]. split.
  - intros Hv. apply Hd. apply elem_of_doomed. exists r.
    by rw elem_of_snapshot.
  - apply verdict_foldl_del; [apply NoDup_doomed, NoDup_snapshot| |done].
    intros k (r' & Hin%elem_of_snapshot & _)%elem_of_doomed. by exists r'.
Qed.

Lemma size_swept st counters :
  counts m st = inr counters → size (objects m (swept m st)) = counters.1.
Proof.
  intros Hc. rw /swept /purge objects_foldl_del size_foldl_delete.
  - apply NoDup_doomed, NoDup_snapshot.
  - intros k (r & Hin%elem_of_snapshot & _)%elem_of_doomed. by exists r.
  - pose proof (counts_total _ _ Hc). pose proof (tally_doomed _ _ _ _ Hc).
    simpl in *. lia.
Qed.

(** Sweeping a swept store: every row is skipped, as many as the first
    sweep skipped, and there is nothing left to delete. *)
Lemma counts_swept st counters :
  counts m st = inr counters →
  counts m (swept m st) = inr (counters.1, 0%nat)
  ∧ doomed m (swept m st) (snapshot m (swept m st)) = [].
Proof.
  intros Hc.
  destruct (tally_all_skipped (swept m st) (snapshot m (swept m st))
              (0%nat, 0%nat)) as [Ht Hd].
  { intros [pk r] (Hl & Hne & Hsame)%elem_of_snapshot%lookup_swept. simpl.
    destruct (tally_inr_inv _ _ _ _ Hc (pk, r)) as (c & Hv).
    { by apply elem_of_snapshot. }
    simpl in Hv. exists c. rw Hsame. split; [done|].
    intros ->. by apply Hne. }
  split; [|done]. rw /counts Ht /= length_snapshot. by erewrite size_swept.
Qed.

Lemma swept_swept st counters :
  counts m st = inr counters → swept m (swept m st) = swept m st.
Proof.
  intros [_ Hd]%counts_swept. by rw {1}/swept /purge Hd.
Qed.

(** What the deletions of a method leave alone, a sweep leaves alone. *)
Lemma swept_frame {X} (f : Store → X) st :
  (∀ k s, f (del m k s) = f s) → f (swept m st) = f st.
Proof.
  intros Hf. unfold swept, purge.
  generalize (doomed m st (snapshot m st)). intros ks. revert st.
  induction ks as [|k ks IH]; intros st; [done|]. simpl. by rw IH.
Qed.

End loop.

(** ** The seven methods *)

Lemma world_eta w : mkWorld (db w) (queries w ++ []) (logged w) = w.
Proof. destruct w. simpl. by rw app_nil_r. Qed.

(** A method whose chain reads the row alone and whose deletion touches
    its own table alone. *)
Lemma simple_method_ok (table noun : string) (objects : Store → gmap Z Row)
  (f : Row → Classification) (del : Z → Store → Store) :
  (∀ k st, objects (del k st) = delete k (objects st)) →
  (∀ k st, project_updates (del k st) = project_updates st) →
  (∀ k st, projects (del k st) = projects st) →
  (∀ k st, inventory_updates (del k st) = inventory_updates st) →
  (∀ k st, inventory_sources (del k st) = inventory_sources st) →
  method_ok (mkMethod table noun objects status (λ _ r, mret (f r)) del).
Proof.
  intros Hobj Hpu Hp Hiu Hs. split; simpl.
  - intros pk r w. exists []. by rw world_eta.
  - done.
  - done.
  - intros k st (H1 & H2 & H3 & H4). repeat split.
    + intros pk pu. rw Hpu Hp. apply H1.
    + intros pk iu. rw Hiu Hs. apply H2.
    + rw Hpu. rw Hp in H. by apply (H3 _ _ H).
    + rw Hpu. rw Hp in H. by apply (H3 _ _ H).
    + rw Hiu. rw Hs in H. by apply (H4 _ _ H).
    + rw Hiu. rw Hs in H. by apply (H4 _ _ H).
  - intros st pk r _ _. by eexists.
  - done.
Qed.

Lemma verdict_simple (table noun : string) (objects : Store → gmap Z Row)
  (f : Row → Classification) (del : Z → Store → Store) st pk r :
  verdict (mkMethod table noun objects status (λ _ r, mret (f r)) del) st pk r
  = inr (f r).
Proof. reflexivity. Qed.

Lemma jobs_method_ok self : method_ok (jobs_method self).
Proof. by apply simple_method_ok. Qed.

Lemma ad_hoc_commands_method_ok self : method_ok (ad_hoc_commands_method self).
Proof. by apply simple_method_ok. Qed.

Lemma management_jobs_method_ok self : method_ok (management_jobs_method self).
Proof. by apply simple_method_ok. Qed.

Lemma workflow_jobs_method_ok self : method_ok (workflow_jobs_method self).
Proof. by apply simple_method_ok. Qed.

Lemma notifications_method_ok self : method_ok (notifications_method self).
Proof. by apply simple_method_ok. Qed.

Lemma forget_other k k' ptr :
  k ≠ k' → bool_decide (forget k ptr = Some k') = bool_decide (ptr = Some k').
Proof.
  intros Hne. unfold forget. apply bool_decide_ext.
  case_decide as H; [|done]. subst ptr. split; [done|]. by intros [= ?].
Qed.

(** *** Computations that only read *)

Lemma reads_only_ret {A} (a : A) : reads_only (mret a).
Proof. intros w. exists []. by rw world_eta. Qed.

Lemma reads_only_raise {A} e : reads_only (raise (A := A) e).
Proof. intros w. exists []. by rw world_eta. Qed.

Lemma reads_only_bind {A B} (c : M A) (f : A → M B) :
  reads_only c → (∀ a, reads_only (f a)) → reads_only (c ≫= f).
Proof.
  intros Hc Hf w. monad_unfold.
  destruct (Hc w) as (qs & -> & Hd & Hs).
  destruct (Hc (mkWorld (db w) [] [])) as (qs0 & -> & _). simpl.
  destruct (c (mkWorld (db w) [] [])) as [[e|a] w0]; simpl.
  - by exists qs.
  - destruct (Hf a (mkWorld (db w) (queries w ++ qs) (logged w)))
      as (qs' & -> & Hd' & Hs').
    destruct (Hf a (mkWorld (db w) qs0 [])) as (qs0' & -> & _). simpl.
    exists (qs ++ qs')%list. rw app_assoc deletions_app selects_app Hd Hd' Hs Hs'.
    done.
Qed.

Lemma reads_only_fetch {R} (table : string) (t : Store → gmap Z R) pk :
  reads_only (fetch table t pk).
Proof.
  intros w. exists [Get table pk]. unfold fetch. monad_unfold. simpl.
  by destruct (t (db w) !! pk).
Qed.

Lemma reads_only_follow {R} (table : string) (t : Store → gmap Z R) ptr :
  reads_only (follow table t ptr).
Proof.
  unfold follow. destruct ptr as [k|]; [|apply reads_only_ret].
  apply reads_only_bind; [apply reads_only_fetch|].
  intros _. apply reads_only_ret.
Qed.

Lemma reads_only_classify_project_update self pk pu :
  reads_only (classify_project_update self pk pu).
Proof.
  unfold classify_project_update. case_bool_decide; [apply reads_only_ret|].
  apply reads_only_bind; [apply reads_only_fetch|]. intros project.
  apply reads_only_bind; [apply reads_only_follow|]. intros current_update.
  apply reads_only_bind; [apply reads_only_follow|]. intros last_update.
  repeat case_match; apply reads_only_ret.
Qed.

Lemma reads_only_classify_inventory_update self pk iu :
  reads_only (classify_inventory_update self pk iu).
Proof.
  unfold classify_inventory_update. case_bool_decide; [apply reads_only_ret|].
  apply reads_only_bind; [apply reads_only_fetch|]. intros inventory_source.
  apply reads_only_bind; [apply reads_only_follow|]. intros current_update.
  apply reads_only_bind; [apply reads_only_follow|]. intros last_update.
  repeat case_match; apply reads_only_ret.
Qed.

(** The answer of two reading steps in a row, for a store. *)
Lemma answer_bind {A B} (c : M A) (f : A → M B) st :
  reads_only c → (∀ a, reads_only (f a)) →
  ((c ≫= f) (mkWorld st [] [])).1
  = match (c (mkWorld st [] [])).1 with
    | inl e => inl e
    | inr a => (f a (mkWorld st [] [])).1
    end.
Proof.
  intros Hc Hf. monad_unfold.
  destruct (Hc (mkWorld st [] [])) as (qs & Heq & _). simpl in Heq.
  destruct (c (mkWorld st [] [])) as [[e|a] w1]; [done|].
  simpl in *. injection Heq as ->.
  by destruct (Hf a (mkWorld st qs [])) as (qs' & -> & _).
Qed.

(** *** Following a pointer *)

Lemma follow_answer {R} (table : string) (t : Store → gmap Z R) ptr w :
  (follow table t ptr w).1
  = match dangling (t (db w)) ptr with
    | Some k => inl (DoesNotExist table k)
    | None => inr ptr
    end
  ∧ db (follow table t ptr w).2 = db w.
Proof.
  unfold follow, fetch, dangling. destruct ptr as [k|]; [|done].
  monad_unfold. simpl. by destruct (t (db w) !! k).
Qed.

Lemma fetch_answer {R} (table : string) (t : Store → gmap Z R) pk w :
  (fetch table t pk w).1
  = match t (db w) !! pk with
    | Some r => inr r
    | None => inl (DoesNotExist table pk)
    end
  ∧ db (fetch table t pk w).2 = db w.
Proof.
  unfold fetch. monad_unfold. simpl. by destruct (t (db w) !! pk).
Qed.

Lemma dangling_resolves {R} (t : gmap Z R) ptr :
  dangling t ptr = None ↔ resolves t ptr.
Proof.
  unfold dangling, resolves. destruct ptr as [k|]; [|done].
  destruct (t !! k); split; (done || by intros []).
Qed.

Lemma dangling_Some {R} (t : gmap Z R) ptr k :
  dangling t ptr = Some k ↔ ptr = Some k ∧ t !! k = None.
Proof.
  unfold dangling. destruct ptr as [k'|]; [|by split; [|intros []]].
  destruct (t !! k') eqn:Hl.
  - split; [done|]. intros [[= ->] ?]. congruence.
  - split; [by intros [= ->]|]. by intros [[= ->] _].
Qed.

(** Deleting a row of the table and nulling the pointers to it leaves
    the other pointers as they were. *)
Lemma dangling_forget {R} (t : gmap Z R) k ptr :
  is_Some (t !! k) → dangling (delete k t) (forget k ptr) = dangling t ptr.
Proof.
  intros [r Hk]. unfold forget. case_decide as H.
  - subst ptr. simpl. by rw Hk.
  - unfold dangling. destruct ptr as [k'|]; [|done].
    rw lookup_delete_ne; [by intros ->|done].
Qed.

Lemma resolves_forget {R} (t : gmap Z R) k ptr :
  resolves t ptr → resolves (delete k t) (forget k ptr).
Proof.
  unfold forget. case_decide as H; [done|].
  destruct ptr as [k'|]; [|done]. simpl.
  rw lookup_delete_ne; [by intros ->|done].
Qed.

(** *** The two methods that look at the parent *)

Lemma classify_project_update_active self pk pu w :
  pu_status pu ∈ ["pending"; "waiting"; "running"] →
  classify_project_update self pk pu w = (inr SkipActive, w).
Proof. intros Hs. unfold classify_project_update. by rw bool_decide_true. Qed.

Lemma classify_inventory_update_active self pk iu w :
  iu_status iu ∈ ["pending"; "waiting"; "running"] →
  classify_inventory_update self pk iu w = (inr SkipActive, w).
Proof. intros Hs. unfold classify_inventory_update. by rw bool_decide_true. Qed.

(** What the chain of [cleanup_project_updates] says of an update, read
    off the store. *)
Lemma verdict_project_update self st pk pu :
  verdict (project_updates_method self) st pk pu
  = if bool_decide (pu_status pu ∈ ["pending"; "waiting"; "running"])
    then inr SkipActive
    else
      match projects st !! pu_project pu with
      | None => inl (DoesNotExist "Project" (pu_project pu))
      | Some project =>
          match dangling (project_updates st) (p_current_update project) with
          | Some k => inl (DoesNotExist "ProjectUpdate" k)
          | None =>
              match dangling (project_updates st) (p_last_update project) with
              | Some k => inl (DoesNotExist "ProjectUpdate" k)
              | None =>
                  inr (if (bool_decide (p_current_update project = Some pk)
                           || bool_decide (p_last_update project = Some pk))
                          && str_truthy (scm_type project)
                       then SkipProtected
                       else if pu_created pu >=? cutoff self then SkipRecent
                       else Eligible)
              end
          end
      end.
Proof.
  unfold verdict. simpl. unfold classify_project_update.
  case_bool_decide; [done|].
  rw answer_bind; [apply reads_only_fetch| |].
  { intros project.
    apply reads_only_bind; [apply reads_only_follow|]. intros current_update.
    apply reads_only_bind; [apply reads_only_follow|]. intros last_update.
    repeat case_match; apply reads_only_ret. }
  rw (proj1 (fetch_answer _ _ _ _)). simpl.
  destruct (projects st !! pu_project pu) as [p|]; [|done].
  rw answer_bind; [apply reads_only_follow| |].
  { intros current_update.
    apply reads_only_bind; [apply reads_only_follow|]. intros last_update.
    repeat case_match; apply reads_only_ret. }
  rw (proj1 (follow_answer _ _ _ _)). simpl.
  destruct (dangling (project_updates st) (p_current_update p)); [done|].
  rw answer_bind; [apply reads_only_follow| |].
  { intros last_update. repeat case_match; apply reads_only_ret. }
  rw (proj1 (follow_answer _ _ _ _)). simpl.
  destruct (dangling (project_updates st) (p_last_update p)); [done|].
  by repeat case_match.
Qed.

Lemma verdict_inventory_update self st pk iu :
  verdict (inventory_updates_method self) st pk iu
  = if bool_decide (iu_status iu ∈ ["pending"; "waiting"; "running"])
    then inr SkipActive
    else
      match inventory_sources st !! iu_inventory_source iu with
      | None => inl (DoesNotExist "InventorySource" (iu_inventory_source iu))
      | Some inventory_source =>
          match dangling (inventory_updates st)
                         (s_current_update inventory_source) with
          | Some k => inl (DoesNotExist "InventoryUpdate" k)
          | None =>
              match dangling (inventory_updates st)
                             (s_last_update inventory_source) with
              | Some k => inl (DoesNotExist "InventoryUpdate" k)
              | None =>
                  inr (if (bool_decide
                             (s_current_update inventory_source = Some pk)
                           || bool_decide
                                (s_last_update inventory_source = Some pk))
                          && str_truthy (source inventory_source)
                       then SkipProtected
                       else if iu_created iu >=? cutoff self then SkipRecent
                       else Eligible)
              end
          end
      end.
Proof.
  unfold verdict. simpl. unfold classify_inventory_update.
  case_bool_decide; [done|].
  rw answer_bind; [apply reads_only_fetch| |].
  { intros inventory_source.
    apply reads_only_bind; [apply reads_only_follow|]. intros current_update.
    apply reads_only_bind; [apply reads_only_follow|]. intros last_update.
    repeat case_match; apply reads_only_ret. }
  rw (proj1 (fetch_answer _ _ _ _)). simpl.
  destruct (inventory_sources st !! iu_inventory_source iu) as [p|]; [|done].
  rw answer_bind; [apply reads_only_follow| |].
  { intros current_update.
    apply reads_only_bind; [apply reads_only_follow|]. intros last_update.
    repeat case_match; apply reads_only_ret. }
  rw (proj1 (follow_answer _ _ _ _)). simpl.
  destruct (dangling (inventory_updates st) (s_current_update p)); [done|].
  rw answer_bind; [apply reads_only_follow| |].
  { intros last_update. repeat case_match; apply reads_only_ret. }
  rw (proj1 (follow_answer _ _ _ _)). simpl.
  destruct (dangling (inventory_updates st) (s_last_update p)); [done|].
  by repeat case_match.
Qed.

Lemma project_updates_method_ok self : method_ok (project_updates_method self).
Proof.
  split; simpl.
  - intros pk pu w. apply reads_only_classify_project_update.
  - intros k k' pu st Hne Hk. rw !verdict_project_update.
    case_bool_decide; [done|]. simpl.
    rw lookup_fmap. destruct (projects st !! pu_project pu) as [p|]; [|done].
    cbn. rw !dangling_forget; [done..|]. rw !forget_other; [done..|]. done.
  - done.
  - intros k st (H1 & H2 & H3 & H4). simpl.
    split; [|split; [done|split; [|done]]]; simpl.
    + intros pk pu Hl. rw lookup_fmap. apply fmap_is_Some.
      destruct (decide (pk = k)) as [->|Hne].
      * by rw lookup_delete_eq in Hl.
      * rw lookup_delete_ne in Hl; [done|]. by eapply H1.
    + intros k' p. rw lookup_fmap. intros (p' & Hp' & ->)%fmap_Some. simpl.
      destruct (H3 _ _ Hp'). by split; apply resolves_forget.
  - intros st pk pu (H1 & _ & H3 & _) Hl. rw verdict_project_update.
    destruct (H1 pk pu Hl) as [p Hp]. rw Hp.
    destruct (H3 _ _ Hp) as [Hc%dangling_resolves Hla%dangling_resolves].
    rw Hc Hla. case_bool_decide; by eexists.
  - intros st pk pu e. rw verdict_project_update.
    repeat case_match; try done; intros [= <-]; by eexists _, _.
Qed.

Lemma inventory_updates_method_ok self :
  method_ok (inventory_updates_method self).
Proof.
  split; simpl.
  - intros pk iu w. apply reads_only_classify_inventory_update.
  - intros k k' iu st Hne Hk. rw !verdict_inventory_update.
    case_bool_decide; [done|]. simpl.
    rw lookup_fmap.
    destruct (inventory_sources st !! iu_inventory_source iu) as [p|]; [|done].
    cbn. rw !dangling_forget; [done..|]. rw !forget_other; [done..|]. done.
  - done.
  - intros k st (H1 & H2 & H3 & H4). simpl.
    split; [done|split; [|split; [done|]]]; simpl.
    + intros pk iu Hl. rw lookup_fmap. apply fmap_is_Some.
      destruct (decide (pk = k)) as [->|Hne].
      * by rw lookup_delete_eq in Hl.
      * rw lookup_delete_ne in Hl; [done|]. by eapply H2.
    + intros k' p. rw lookup_fmap. intros (p' & Hp' & ->)%fmap_Some. simpl.
      destruct (H4 _ _ Hp'). by split; apply resolves_forget.
  - intros st pk iu (_ & H2 & _ & H4) Hl. rw verdict_inventory_update.
    destruct (H2 pk iu Hl) as [p Hp]. rw Hp.
    destruct (H4 _ _ Hp) as [Hc%dangling_resolves Hla%dangling_resolves].
    rw Hc Hla. case_bool_decide; by eexists.
  - intros st pk iu e. rw verdict_inventory_update.
    repeat case_match; try done; intros [= <-]; by eexists _, _.
Qed.

(** ** The methods by name *)

Ltac each_model H :=
  unfold model_names in H;
  repeat (apply elem_of_cons in H as [->|H]);
  [..|by apply elem_of_nil in H].

(** Every model name has its method, which is well behaved and is what
    [getattr] finds. *)
Lemma policy_spec self name :
  name ∈ model_names →
  ∃ a, policy self name = Some a ∧ any_ok a
       ∧ call_method self ("cleanup_" +:+ name)
         = match a with Any m => cleanup self m end
       ∧ ∀ st, record_count name st
               = match a with Any m => size (objects m st) end.
Proof.
  intros H. each_model H; eexists; (split; [reflexivity|]);
    (split; [|by split]); simpl.
  - apply jobs_method_ok.
  - apply ad_hoc_commands_method_ok.
  - apply project_updates_method_ok.
  - apply inventory_updates_method_ok.
  - apply management_jobs_method_ok.
  - apply workflow_jobs_method_ok.
  - apply notifications_method_ok.
Qed.

(** The deletions of one category are invisible to every other. *)
Lemma sweep_frame self name name' st :
  name ∈ model_names → name' ∈ model_names → name ≠ name' →
  same_for self name st (swept_of self name' st).
Proof.
  intros H H' Hne. each_model H; each_model H'; try done.
  all: cbv [same_for swept_of policy policies assoc String.eqb Ascii.eqb
              Bool.eqb].
  all: (split;
     [ apply (swept_frame _ (λ s, objects _ s)); intros k s; reflexivity
     | intros pk r; apply (swept_frame _ (λ s, verdict _ s pk r));
       intros k s;
       rw ?verdict_project_update ?verdict_inventory_update; reflexivity ]).
Qed.

Lemma same_for_refl self name st : same_for self name st st.
Proof. unfold same_for. by repeat case_match. Qed.

Lemma same_for_trans self name st1 st2 st3 :
  same_for self name st1 st2 → same_for self name st2 st3 →
  same_for self name st1 st3.
Proof.
  unfold same_for. repeat case_match; [|done].
  intros [-> H1] [-> H2]. split; [done|]. intros pk r. by rw H2.
Qed.

Lemma same_for_snapshot {R} (m : Method R) st st' :
  objects m st' = objects m st → snapshot m st' = snapshot m st.
Proof. unfold snapshot. by intros ->. Qed.

Lemma same_for_counts self name st st' :
  same_for self name st st' → counts_of self name st' = counts_of self name st.
Proof.
  unfold same_for, counts_of. repeat case_match; [|done].
  intros [Ho Hv]. unfold counts. rw (same_for_snapshot _ _ _ Ho).
  apply tally_ext. intros row _. apply Hv.
Qed.

(** Once a category is swept, it stays swept in every store that looks
    the same to it. *)
Lemma swept_stays self name st st1 counters :
  name ∈ model_names →
  counts_of self name st = inr counters →
  same_for self name (swept_of self name st) st1 →
  counts_of self name st1 = inr (counters.1, 0%nat)
  ∧ swept_of self name st1 = st1.
Proof.
  intros Hin Hc Hsame. split.
  - rw (same_for_counts _ _ _ _ Hsame).
    destruct (policy_spec self name Hin) as (a & Hp & Hok & _).
    revert Hc. unfold counts_of, swept_of. rw Hp. destruct a as [R m].
    intros Hc. by apply counts_swept.
  - destruct (policy_spec self name Hin) as (a & Hp & Hok & _).
    revert Hc Hsame. unfold counts_of, swept_of, same_for. rw Hp.
    destruct a as [R m]. intros Hc [Ho Hv].
    destruct (counts_swept m Hok st counters Hc) as [_ Hd].
    rw {1}/swept /purge (same_for_snapshot _ _ _ Ho).
    rw (doomed_ext m (swept m st)); [by intros row _; apply Hv|].
    by rw Hd.
Qed.

(** ** The loop over the model names *)

Lemma stage_skip self (selected : gset string) name w :
  name ∉ selected → stage self selected name tt w = (inr tt, w).
Proof. intros H. unfold stage. by rw decide_False. Qed.

(** A selected category: its method runs, then its summary is logged. *)
Lemma stage_answer self (selected : gset string) name w skipped deleted :
  name ∈ model_names → name ∈ selected →
  counts_of self name (db w) = inr (skipped, deleted) →
  ∃ w', stage self selected name tt w = (inr tt, w')
        ∧ db w' = (if dry_run self then db w else swept_of self name (db w))
        ∧ summaries (logged w')
          = (summaries (logged w)
             ++ [(replace "_"%char " "%char name, deleted, skipped)])%list
        ∧ selects (queries w')
          = (selects (queries w) ++ [table_of self name])%list
        ∧ (dry_run self = true →
           deletions (queries w') = deletions (queries w)).
Proof.
  intros Hin Hsel. unfold stage, counts_of, swept_of, table_of.
  rw decide_True; [done|].
  destruct (policy_spec self name Hin) as (a & -> & Hok & -> & _).
  destruct a as [R m]. simpl in Hok. intros Hc.
  destruct (cleanup_answer self m Hok w _ Hc) as (w1 & Hrun & Hdb & Hd & Hs & Hl).
  monad_unfold. rw Hrun.
  destruct (dry_run self) eqn:Hdry; simpl;
    (eexists; split; [reflexivity|]); simpl;
    rw summaries_app Hl Hs Hdb Hd /= ?app_nil_r; done.
Qed.

Lemma stage_raise self (selected : gset string) name w e :
  name ∈ model_names → name ∈ selected →
  counts_of self name (db w) = inl e →
  ∃ w', stage self selected name tt w = (inl e, w')
        ∧ (dry_run self = true →
           db w' = db w ∧ deletions (queries w') = deletions (queries w)).
Proof.
  intros Hin Hsel. unfold stage, counts_of.
  rw decide_True; [done|].
  destruct (policy_spec self name Hin) as (a & -> & Hok & -> & _).
  destruct a as [R m]. simpl in Hok. intros Hc.
  destruct (cleanup_raise self m Hok w _ Hc) as (w1 & Hrun & _ & _ & Hdry).
  monad_unfold. rw Hrun. by exists w1.
Qed.

(** The loop is [stages] of the store it starts from. *)
Lemma run_stages self (selected : gset string) (names : list string) :
  Forall (λ name, name ∈ model_names) names → ∀ w,
  match stages self selected names (db w) with
  | inr (reports, st') =>
      ∃ w', for_each (stage self selected) names tt w = (inr tt, w')
            ∧ db w' = st'
            ∧ summaries (logged w') = (summaries (logged w) ++ reports)%list
            ∧ selects (queries w')
              = (selects (queries w)
                 ++ (table_of self <$> filter (λ name, name ∈ selected) names))%list
            ∧ (dry_run self = true →
               deletions (queries w') = deletions (queries w))
  | inl e =>
      ∃ w', for_each (stage self selected) names tt w = (inl e, w')
            ∧ (dry_run self = true →
               db w' = db w ∧ deletions (queries w') = deletions (queries w))
  end.
Proof.
  induction 1 as [|name names Hin Hall IH]; intros w; simpl.
  - exists w. by rw !app_nil_r.
  - rw filter_cons. destruct (decide (name ∈ selected)) as [Hsel|Hsel].
    + destruct (counts_of self name (db w)) as [e|[skipped deleted]] eqn:Hc.
      * destruct (stage_raise self selected name w e Hin Hsel Hc)
          as (w1 & Hrun & Hdry).
        exists w1. monad_unfold. by rw Hrun.
      * destruct (stage_answer self selected name w _ _ Hin Hsel Hc)
          as (w1 & Hrun & Hdb & Hl & Hs & Hd).
        specialize (IH w1). rw Hdb in IH. monad_unfold. rw Hrun.
        destruct (stages self selected names _) as [e|[reports st']].
        -- destruct IH as (w2 & Hrest & Hdry). exists w2. split; [done|].
           intros Hd'. destruct (Hdry Hd') as [-> ->].
           rw Hd' (Hd Hd'). done.
        -- destruct IH as (w2 & Hrest & Hdb2 & Hl2 & Hs2 & Hd2).
           exists w2. split; [done|]. split; [done|].
           rw Hl2 Hl Hs2 Hs -!app_assoc /=. do 2 (split; [done|]).
           intros Hd'. by rw (Hd2 Hd') (Hd Hd').
    + monad_unfold. rw stage_skip; [done|]. apply IH.
Qed.

(** A dry run ends in the store it began with. *)
Lemma stages_dry self (selected : gset string) names st reports st' :
  dry_run self = true →
  stages self selected names st = inr (reports, st') → st' = st.
Proof.
  intros Hdry. revert reports.
  induction names as [|name names IH]; intros reports; simpl.
  - intros H. by simplify_eq.
  - rw Hdry. repeat case_match; try done; intros ?; simplify_eq; by eapply IH.
Qed.

(** ** [handle_noargs] *)

Lemma compute_cutoff_raises now days e :
  compute_cutoff now days = inl e → e = OverflowError.
Proof.
  unfold compute_cutoff, datetime.timedelta, datetime.sub.
  repeat case_match; naive_solver.
Qed.

Lemma compute_cutoff_returns now days cut :
  compute_cutoff now days = inr cut →
  cut = now - days * datetime.us_per_day ∧ datetime.representable cut.
Proof.
  unfold compute_cutoff, datetime.timedelta, datetime.sub, datetime.representable.
  destruct (Z.abs days <=? _); [|done].
  destruct (_ && _) eqn:Hb; [|done]. intros [= <-].
  apply andb_true_iff in Hb as [H1 H2]. lia.
Qed.

(** When the cutoff cannot be computed the command raises its error and
    the world is as it was. *)
Lemma handle_noargs_overflow options now w e :
  compute_cutoff now (py_int (options_get options "days" (VInt 90))) = inl e →
  handle_noargs options now w = (inl (CommandError too_large), w).
Proof.
  intros H. unfold handle_noargs, handle_noargs_body, atomic.
  rw H (compute_cutoff_raises _ _ _ H). by destruct w.
Qed.

Lemma handle_noargs_cutoff options now w cut :
  compute_cutoff now (py_int (options_get options "days" (VInt 90))) = inr cut →
  handle_noargs options now w
  = atomic (for_each
              (stage (mkCommand cut
                        (py_bool (options_get options "dry_run" (VBool false))))
                     (models_to_cleanup options))
              model_names tt) w.
Proof.
  intros H. unfold handle_noargs, handle_noargs_body, atomic. by rw H.
Qed.

Lemma elem_of_added options (l : list string) (s0 : gset string) m :
  m ∈ foldl (λ (s : gset string) m, if flagged options m then s ∪ {[m]} else s)
            s0 l
  ↔ m ∈ s0 ∨ (m ∈ l ∧ flagged options m = true).
Proof.
  revert s0. induction l as [|x l IH]; intros s0; simpl.
  - rw elem_of_nil. tauto.
  - rw IH elem_of_cons. destruct (flagged options x) eqn:Hx.
    + rw elem_of_union elem_of_singleton. split.
      * intros [[?|Heq]|[? ?]]; subst; tauto.
      * intros [?|[[Heq|?] ?]]; subst; tauto.
    + split; (intros [?|[Hm ?]]; [by left|right]).
      * split; [by right|done].
      * destruct Hm as [->|?]; [congruence|done].
Qed.

(** A model name is selected when it is flagged, or when none is. *)
Lemma elem_of_models_to_cleanup options m :
  m ∈ model_names →
  m ∈ models_to_cleanup options
  ↔ flagged options m = true ∨ existsb (flagged options) model_names = false.
Proof.
  intros Hin. unfold models_to_cleanup. cbv zeta.
  destruct (existsb (flagged options) model_names) eqn:He.
  - apply existsb_exists in He as (x & Hx%list_elem_of_In & Hfx).
    rw decide_False.
    { intros Hempty. apply (not_elem_of_empty (C := gset string) x).
      rw -Hempty. apply elem_of_added. by right. }
    rw elem_of_added elem_of_empty. split.
    + intros [[]|[_ ?]]. by left.
    + intros [?|?]; [by right|done].
  - rw decide_True.
    { apply set_eq. intros x. rw elem_of_added elem_of_empty.
      split; [|done]. intros [?|[Hx%list_elem_of_In Hfx]]; [done|].
      assert (existsb (flagged options) model_names = true) as He'
        by (apply existsb_exists; eauto).
      congruence. }
    rw elem_of_union elem_of_list_to_set. split; [by right|by right].
Qed.

(** The selected names, in order, are the flagged ones, or all of them
    when none is flagged. *)
Lemma selected_chosen options :
  filter (λ name, name ∈ models_to_cleanup options) model_names = chosen options.
Proof.
  unfold chosen. pose proof (elem_of_models_to_cleanup options) as Hsel.
  destruct (existsb (flagged options) model_names).
  - assert (∀ l : list string, (∀ x, x ∈ l → x ∈ model_names) →
              filter (λ name, name ∈ models_to_cleanup options) l
              = List.filter (flagged options) l) as Hgen.
    { induction l as [|x l IH]; intros Hl; [done|].
      rw filter_cons IH; [by intros y Hy; apply Hl; right|].
      destruct (Hsel x) as [H1 H2]; [by apply Hl; left|].
      change (List.filter (flagged options) (x :: l))
        with (if flagged options x then x :: List.filter (flagged options) l
              else List.filter (flagged options) l).
      destruct (flagged options x); case_decide as Hd; try done.
      - exfalso. apply Hd, H2. by left.
      - by destruct (H1 Hd). }
    by apply Hgen.
  - assert (∀ l : list string, (∀ x, x ∈ l → x ∈ model_names) →
              filter (λ name, name ∈ models_to_cleanup options) l = l) as Hgen.
    { induction l as [|x l IH]; intros Hl; [done|].
      rw filter_cons IH; [by intros y Hy; apply Hl; right|].
      rw decide_True; [|done]. apply Hsel; [by apply Hl; left|by right]. }
    by apply Hgen.
Qed.

Lemma model_names_NoDup : NoDup model_names.
Proof. apply (bool_decide_unpack _). by vm_compute. Qed.

Lemma model_names_Forall : Forall (λ name, name ∈ model_names) model_names.
Proof. by apply Forall_forall. Qed.

(** ** Runs as functions of the store *)

Lemma counts_of_answers self name st :
  name ∈ model_names → integrity st →
  ∃ counters, counts_of self name st = inr counters.
Proof.
  intros Hin Hi. unfold counts_of.
  destruct (policy_spec self name Hin) as (a & -> & Hok & _).
  destruct a as [R m]. by apply counts_answers.
Qed.

Lemma integrity_swept_of self name st :
  name ∈ model_names → integrity st → integrity (swept_of self name st).
Proof.
  intros Hin Hi. unfold swept_of.
  destruct (policy_spec self name Hin) as (a & -> & Hok & _).
  destruct a as [R m]. by apply integrity_swept.
Qed.

Lemma counts_of_total self name st counters :
  name ∈ model_names → counts_of self name st = inr counters →
  (counters.1 + counters.2 = record_count name st)%nat.
Proof.
  intros Hin. unfold counts_of.
  destruct (policy_spec self name Hin) as (a & -> & Hok & _ & ->).
  destruct a as [R m]. by apply counts_total.
Qed.

(** With integrity every stage gets its counters. *)
Lemma stages_answers self (selected : gset string) names :
  Forall (λ name, name ∈ model_names) names → ∀ st, integrity st →
  ∃ reports st', stages self selected names st = inr (reports, st')
                 ∧ integrity st'.
Proof.
  induction 1 as [|name names Hin Hall IH]; intros st Hi; simpl.
  - by exists [], st.
  - case_decide; [|by apply IH].
    destruct (counts_of_answers self name st Hin Hi) as ([skipped deleted] & ->).
    destruct (IH (if dry_run self then st else swept_of self name st))
      as (reports & st' & -> & Hi').
    { destruct (dry_run self); [done|]. by apply integrity_swept_of. }
    by eexists _, _.
Qed.

(** A category that is not among the stages sees the same store after
    them. *)
Lemma stages_frame self (selected : gset string) name names :
  name ∈ model_names → name ∉ names →
  Forall (λ name, name ∈ model_names) names → ∀ st reports st',
  stages self selected names st = inr (reports, st') →
  same_for self name st st'.
Proof.
  intros Hin Hnotin Hall. induction Hall as [|name' names Hin' Hall IH];
    intros st reports st'; simpl.
  - intros ?; simplify_eq. apply same_for_refl.
  - apply not_elem_of_cons in Hnotin as [Hne Hnotin].
    specialize (IH Hnotin). case_decide; [|by apply IH].
    destruct (counts_of self name' st) as [e|[skipped deleted]]; [done|].
    destruct (stages self selected names _) as [e|[reports' st'']] eqn:Hs; [done|].
    intros ?; simplify_eq. apply IH in Hs.
    eapply same_for_trans; [|exact Hs].
    destruct (dry_run self); [apply same_for_refl|]. by apply sweep_frame.
Qed.

(** The summaries of a run: one per selected category, in order, with
    the counters of the category for the store the run began with. *)
Lemma stages_reports self (selected : gset string) names :
  NoDup names → Forall (λ name, name ∈ model_names) names → ∀ st0 st reports st',
  (∀ name, name ∈ names → same_for self name st0 st) →
  stages self selected names st = inr (reports, st') →
  Forall2 (λ name report,
             report.1.1 = replace "_"%char " "%char name
             ∧ counts_of self name st0 = inr (report.2, report.1.2))
          (filter (λ name, name ∈ selected) names) reports.
Proof.
  intros Hnd Hall. induction Hall as [|name names Hin Hall IH];
    intros st0 st reports st' Hsame; simpl.
  - intros ?; simplify_eq. constructor.
  - apply NoDup_cons in Hnd as [Hnotin Hnd]. specialize (IH Hnd).
    rw filter_cons. case_decide.
    + destruct (counts_of self name st) as [e|[skipped deleted]] eqn:Hc; [done|].
      destruct (stages self selected names _) as [e|[reports' st'']] eqn:Hs; [done|].
      intros ?; simplify_eq. constructor.
      * simpl. split; [done|]. rw -Hc. symmetry. apply same_for_counts.
        apply Hsame. by left.
      * eapply IH; [|exact Hs]. intros name' Hin'.
        eapply same_for_trans; [apply Hsame; by right|].
        destruct (dry_run self); [apply same_for_refl|].
        apply sweep_frame; [by apply (proj1 (Forall_forall _ _) Hall)|done|].
        intros ->. by apply Hnotin.
    + intros Hs. eapply IH; [|exact Hs]. intros name' Hin'. apply Hsame. by right.
Qed.

(** After a run that deletes, the same run over the store it left
    deletes nothing and skips what the first one skipped. *)
Lemma stages_again self (selected : gset string) names :
  dry_run self = false →
  NoDup names → Forall (λ name, name ∈ model_names) names → ∀ st reports st',
  stages self selected names st = inr (reports, st') →
  stages self selected names st'
  = inr ((λ report, (report.1.1, 0%nat, report.2)) <$> reports, st').
Proof.
  intros Hdry Hnd Hall. induction Hall as [|name names Hin Hall IH];
    intros st reports st'; simpl.
  - intros ?; by simplify_eq.
  - apply NoDup_cons in Hnd as [Hnotin Hnd]. specialize (IH Hnd).
    case_decide; [|by apply IH].
    destruct (counts_of self name st) as [e|[skipped deleted]] eqn:Hc; [done|].
    rw Hdry.
    destruct (stages self selected names _) as [e|[reports' st'']] eqn:Hs; [done|].
    intros ?; simplify_eq.
    destruct (swept_stays self name st st' _ Hin Hc) as [Hc' Hsw].
    { by eapply stages_frame. }
    rw Hc' Hsw (IH _ _ _ Hs). done.
Qed.

(** With a cutoff, [handle_noargs] is [stages] of the store it starts
    from. *)
Lemma handle_noargs_stages options now w cut :
  compute_cutoff now (py_int (options_get options "days" (VInt 90))) = inr cut →
  let self :=
    mkCommand cut (py_bool (options_get options "dry_run" (VBool false))) in
  match stages self (models_to_cleanup options) model_names (db w) with
  | inr (reports, st') =>
      ∃ w', handle_noargs options now w = (inr tt, w')
            ∧ db w' = st'
            ∧ summaries (logged w') = (summaries (logged w) ++ reports)%list
            ∧ selects (queries w')
              = (selects (queries w) ++ (table_of self <$> chosen options))%list
            ∧ (dry_run self = true →
               deletions (queries w') = deletions (queries w))
  | inl e =>
      ∃ w', handle_noargs options now w = (inl e, w')
            ∧ db w' = db w
            ∧ (dry_run self = true →
               deletions (queries w') = deletions (queries w))
  end.
Proof.
  intros Hcut self. rw (handle_noargs_cutoff _ _ _ _ Hcut). fold self.
  pose proof (run_stages self (models_to_cleanup options) model_names
                model_names_Forall w) as Hrun.
  unfold atomic.
  destruct (stages self (models_to_cleanup options) model_names (db w))
    as [e|[reports st']].
  - destruct Hrun as (w' & -> & Hdry). eexists. split; [reflexivity|].
    split; [done|]. intros Hd. by destruct (Hdry Hd).
  - destruct Hrun as (w' & -> & Hdb & Hl & Hs & Hd). exists w'.
    by rw -selected_chosen.
Qed.

(** With integrity and a cutoff the run returns. *)
Lemma handle_noargs_returns options now w cut :
  compute_cutoff now (py_int (options_get options "days" (VInt 90))) = inr cut →
  integrity (db w) →
  ∃ w', handle_noargs options now w = (inr tt, w') ∧ integrity (db w').
Proof.
  intros Hcut Hi. pose proof (handle_noargs_stages options now w cut Hcut) as H.
  cbv zeta in H.
  destruct (stages_answers
              (mkCommand cut (py_bool (options_get options "dry_run" (VBool false))))
              (models_to_cleanup options) model_names model_names_Forall
              (db w) Hi) as (reports & st' & Hs & Hi').
  rw Hs in H. destruct H as (w' & Hrun & Hdb & _). exists w'. by rw Hdb.
Qed.

(** ** Dry runs *)

(** The methods read [self.dry_run] in their branches only: the chains,
    and so the methods by name, are the same in both modes. *)
Lemma policies_mode cut dry dry' :
  policies (mkCommand cut dry) = policies (mkCommand cut dry').
Proof. reflexivity. Qed.

Lemma counts_of_mode cut dry dry' name st :
  counts_of (mkCommand cut dry) name st = counts_of (mkCommand cut dry') name st.
Proof. unfold counts_of, policy. by rw (policies_mode cut dry dry'). Qed.

Lemma same_for_mode cut dry dry' name st st' :
  same_for (mkCommand cut dry) name st st' →
  same_for (mkCommand cut dry') name st st'.
Proof. unfold same_for, policy. by rw (policies_mode cut dry dry'). Qed.

(** A method in a dry run: the store stays, nothing is deleted. *)
Lemma call_method_dry self name w :
  name ∈ model_names → dry_run self = true →
  db (call_method self ("cleanup_" +:+ name) w).2 = db w
  ∧ deletions (queries (call_method self ("cleanup_" +:+ name) w).2)
    = deletions (queries w).
Proof.
  intros Hin Hdry.
  destruct (policy_spec self name Hin) as (a & _ & Hok & -> & _).
  destruct a as [R m]. simpl in Hok.
  destruct (counts m (db w)) as [e|c] eqn:Hc.
  - destruct (cleanup_raise self m Hok w e Hc) as (w' & -> & _ & _ & H).
    by apply H.
  - destruct (cleanup_answer self m Hok w c Hc) as (w' & -> & Hdb & Hd & _).
    simpl. by rw Hdb Hd Hdry app_nil_r.
Qed.

(** A method returns the counters of the store it starts from. *)
Lemma call_method_counts self name w :
  name ∈ model_names →
  (call_method self ("cleanup_" +:+ name) w).1 = counts_of self name (db w).
Proof.
  intros Hin. unfold counts_of.
  destruct (policy_spec self name Hin) as (a & -> & Hok & -> & _).
  destruct a as [R m]. by apply cleanup_counts.
Qed.

(** The summaries of a dry run and of a run that deletes, from stores
    that look the same to every category still to come. *)
Lemma stages_mode cut (selected : gset string) names :
  NoDup names → Forall (λ name, name ∈ model_names) names → ∀ st_dry st_wet,
  (∀ name, name ∈ names → same_for (mkCommand cut false) name st_dry st_wet) →
  sum_map id fst (stages (mkCommand cut true) selected names st_dry)
  = sum_map id fst (stages (mkCommand cut false) selected names st_wet).
Proof.
  intros Hnd Hall. induction Hall as [|name names Hin Hall IH];
    intros st_dry st_wet Hsame; [done|].
  apply NoDup_cons in Hnd as [Hnotin Hnd]. specialize (IH Hnd). simpl.
  case_decide.
  - rw (counts_of_mode cut true false).
    rw -(same_for_counts _ _ _ _ (Hsame name ltac:(by left))).
    destruct (counts_of _ name st_wet) as [e|[skipped deleted]]; [done|].
    assert (∀ name', name' ∈ names →
              same_for (mkCommand cut false) name' st_dry
                       (swept_of (mkCommand cut false) name st_wet)) as Hrest.
    { intros name' Hin'.
      eapply same_for_trans; [apply Hsame; by right|].
      apply sweep_frame; [by apply (proj1 (Forall_forall _ _) Hall)|done|].
      intros ->. by apply Hnotin. }
    specialize (IH st_dry _ Hrest).
    destruct (stages (mkCommand cut true) _ _ _) as [e|[reports st']],
      (stages (mkCommand cut false) _ _ _) as [e'|[reports' st'']];
      simpl in *; by simplify_eq.
  - apply IH. intros name' Hin'. apply Hsame. by right.
Qed.

Lemma options_get_insert_ne options key key' v default :
  key ≠ key' →
  options_get (<[key := v]> options) key' default = options_get options key' default.
Proof. intros Hne. unfold options_get. by rw lookup_insert_ne. Qed.

Lemma options_get_insert options key v default :
  options_get (<[key := v]> options) key default = v.
Proof. unfold options_get. by rw lookup_insert_eq. Qed.

Lemma flagged_insert_dry_run options v m :
  flagged (<["dry_run" := v]> options) m = flagged options m.
Proof. unfold flagged. by rw options_get_insert_ne. Qed.

Lemma models_to_cleanup_insert_dry_run options v :
  models_to_cleanup (<["dry_run" := v]> options) = models_to_cleanup options.
Proof.
  unfold models_to_cleanup, model_names. simpl.
  by rw !flagged_insert_dry_run.
Qed.

(** ** One record *)

Lemma verdict_skips {R} self (m : Method R) pk r w c :
  method_ok m → verdict m (db w) pk r = inr c → c ≠ Eligible →
  skips self m pk r w.
Proof.
  intros Hok Hv Hc skipped deleted.
  destruct (visit_answer self m Hok (pk, r) (skipped, deleted) w c Hv)
    as (w' & Hvis & Hdb & Hd & _).
  exists w'. revert Hdb Hd. case_decide as Hx; [by destruct Hx|].
  rw app_nil_r. intros Hdb Hd. split; [|done]. rw Hvis. by destruct c.
Qed.

Lemma verdict_deletes {R} self (m : Method R) pk r w :
  method_ok m → verdict m (db w) pk r = inr Eligible →
  deletes self m pk r w.
Proof.
  intros Hok Hv skipped deleted.
  destruct (visit_answer self m Hok (pk, r) (skipped, deleted) w _ Hv)
    as (w' & Hvis & Hdb & Hd & _).
  exists w'. split; [done|]. revert Hdb Hd. simpl.
  destruct (dry_run self); case_decide as Hx; try done.
  - by destruct Hx.
  - by exfalso; apply Hx.
Qed.

Lemma active_job self s t :
  s ∈ ["pending"; "waiting"; "running"] →
  classify_job self (mkRow s t) = SkipActive.
Proof. intros Hs. unfold classify_job. simpl. by rw bool_decide_true. Qed.

(** ** What is left of a table *)

Section swept_rows.
Context {R : Type} (m : Method R) (Hok : method_ok m).

(** A row is left by a sweep exactly when it was there and was not
    eligible. *)
Lemma lookup_swept_iff st pk r :
  objects m (swept m st) !! pk = Some r
  ↔ objects m st !! pk = Some r ∧ verdict m st pk r ≠ inr Eligible.
Proof.
  split.
  - intros H. by destruct (lookup_swept m Hok st pk r H) as (? & ? & _).
  - intros [Hl Hv]. rw /swept /purge (objects_foldl_del m Hok).
    rw lookup_foldl_delete. rw decide_False; [|done].
    intros (r' & Hin%elem_of_snapshot & Hv')%elem_of_doomed.
    rw Hl in Hin. injection Hin as <-. done.
Qed.

End swept_rows.

Lemma remains_same self name st :
  remains self name st st false.
Proof.
  unfold remains. destruct (policy self name) as [[R m]|]; [|done].
  intros pk r. split; [by split|by intros [? _]].
Qed.

Lemma remains_swept self name st :
  name ∈ model_names → remains self name st (swept_of self name st) true.
Proof.
  intros Hin. unfold remains, swept_of.
  destruct (policy_spec self name Hin) as (a & -> & Hok & _).
  destruct a as [R m]. intros pk r. rw (lookup_swept_iff m Hok).
  split; intros [? H]; (split; [done|]); [by intros _|by apply H].
Qed.

Lemma remains_before self name st st1 st' swept :
  same_for self name st st1 → remains self name st1 st' swept →
  remains self name st st' swept.
Proof.
  unfold same_for, remains. destruct (policy self name) as [[R m]|]; [|done].
  intros [Ho Hv] H pk r. rw H Ho. by rw Hv.
Qed.

Lemma remains_after self name st st1 st' swept :
  remains self name st st1 swept → remains self name st1 st' false →
  remains self name st st' swept.
Proof.
  unfold remains. destruct (policy self name) as [[R m]|]; [|done].
  intros H1 H2 pk r. rw H2 H1. split; [by intros [? _]|by split].
Qed.

(** The tables after the stages of a run that deletes: every category
    among the selected stages has lost its eligible rows and no other;
    the other categories have lost nothing. *)
Lemma stages_remains self (selected : gset string) names :
  dry_run self = false →
  NoDup names → Forall (λ name, name ∈ model_names) names → ∀ st reports st',
  stages self selected names st = inr (reports, st') →
  ∀ name, name ∈ model_names →
  remains self name st st' (bool_decide (name ∈ names ∧ name ∈ selected)).
Proof.
  intros Hdry Hnd Hall. induction Hall as [|n names Hin Hall IH];
    intros st reports st'; simpl.
  - intros ? name Hname; simplify_eq. apply remains_same.
  - apply NoDup_cons in Hnd as [Hnotin Hnd]. specialize (IH Hnd).
    destruct (decide (n ∈ selected)) as [Hsel|Hsel].
    + destruct (counts_of self n st) as [e|[skipped deleted]]; [done|].
      rw Hdry.
      destruct (stages self selected names _) as [e|[reports' st'']] eqn:Hs;
        [done|].
      intros ? name Hname; simplify_eq. specialize (IH _ _ _ Hs name Hname).
      destruct (decide (name = n)) as [->|Hne].
      * rw bool_decide_true; [by split; [left|]|].
        rw bool_decide_false in IH; [by intros [? _]|].
        eapply remains_after; [by apply remains_swept|exact IH].
      * eapply remains_before; [by apply (sweep_frame self name n)|].
        erewrite bool_decide_ext; [exact IH|].
        rw elem_of_cons. split; [|by intros [? ?]; split; [right|]].
        intros [[->|?] ?]; [done|by split].
    + intros Hs name Hname. specialize (IH _ _ _ Hs name Hname).
      erewrite bool_decide_ext; [exact IH|].
      rw elem_of_cons. split; [|by intros [? ?]; split; [right|]].
      intros [[->|?] ?]; [done|by split].
Qed.

Lemma Forall2_elem_of_l {A B} (P : A → B → Prop) l k x :
  Forall2 P l k → x ∈ l → ∃ y, y ∈ k ∧ P x y.
Proof.
  induction 1 as [|x' y l k Hxy Hlk IH]; [by intros ?%elem_of_nil|].
  intros [->|Hin]%elem_of_cons.
  - exists y. by split; [left|].
  - destruct (IH Hin) as (y' & ? & ?). exists y'. by split; [right|].
Qed.

(** When the stages return, every selected category got its counters
    for the store the stages began with. *)
Lemma stages_counts self (selected : gset string) names st reports st' :
  NoDup names → Forall (λ name, name ∈ model_names) names →
  stages self selected names st = inr (reports, st') →
  ∀ name, name ∈ names → name ∈ selected →
  ∃ counters, counts_of self name st = inr counters.
Proof.
  intros Hnd Hall Hs name Hin Hsel.
  pose proof (stages_reports self selected names Hnd Hall st st reports st'
                (λ name' _, same_for_refl self name' st) Hs) as Hrep.
  destruct (Forall2_elem_of_l _ _ _ name Hrep) as (report & _ & _ & Hc).
  { by apply list_elem_of_filter. }
  by eexists.
Qed.

(** Whatever a run ends in, its store is either the one it began with or,
    for a run that deletes and returns, the one in which exactly the
    eligible rows of the selected categories are gone; every selected
    category then got its counters. *)
Lemma run_store options now w r w' :
  handle_noargs options now w = (r, w') →
  (db w' = db w
   ∧ (r = inr tt →
      py_bool (options_get options "dry_run" (VBool false)) = true))
  ∨ ∃ cut,
      compute_cutoff now (py_int (options_get options "days" (VInt 90)))
      = inr cut
      ∧ py_bool (options_get options "dry_run" (VBool false)) = false
      ∧ r = inr tt
      ∧ (∀ name, name ∈ model_names →
           remains (mkCommand cut false) name (db w) (db w')
                   (bool_decide (name ∈ models_to_cleanup options)))
      ∧ (∀ name, name ∈ model_names → name ∈ models_to_cleanup options →
           ∃ counters,
             counts_of (mkCommand cut false) name (db w) = inr counters).
Proof.
  intros Hrun.
  destruct (compute_cutoff now (py_int (options_get options "days" (VInt 90))))
    as [e|cut] eqn:Hcut.
  { rw (handle_noargs_overflow _ _ _ _ Hcut) in Hrun. left. by simplify_eq. }
  pose proof (handle_noargs_stages options now w cut Hcut) as H.
  cbv zeta in H.
  destruct (py_bool (options_get options "dry_run" (VBool false))) eqn:Hdry.
  - left.
    destruct (stages _ (models_to_cleanup options) model_names (db w))
      as [e|[reports st']] eqn:Hs.
    + destruct H as (w1 & Hrun' & Hdb & _). rw Hrun in Hrun'. by simplify_eq.
    + destruct H as (w1 & Hrun' & Hdb & _). rw Hrun in Hrun'. simplify_eq.
      split; [|done].
      exact (stages_dry (mkCommand cut true) _ _ _ _ _ eq_refl Hs).
  - destruct (stages _ (models_to_cleanup options) model_names (db w))
      as [e|[reports st']] eqn:Hs.
    + left. destruct H as (w1 & Hrun' & Hdb & _). rw Hrun in Hrun'.
      by simplify_eq.
    + right. exists cut. destruct H as (w1 & Hrun' & Hdb & _).
      rw Hrun in Hrun'. simplify_eq. do 3 (split; [done|]). split.
      * intros name Hname.
        pose proof (stages_remains (mkCommand cut false) _ model_names eq_refl
                      model_names_NoDup model_names_Forall _ _ _ Hs name Hname)
          as Hrem.
        erewrite bool_decide_ext; [exact Hrem|].
        by split; [intros ?; split|intros [_ ?]].
      * intros name Hname Hsel.
        by eapply (stages_counts (mkCommand cut false)), Hsel;
          [apply model_names_NoDup|apply model_names_Forall|exact Hs|].
Qed.

(** *** When a chain ends in its final [else] *)

Lemma classify_job_eligible self r :
  classify_job self r = Eligible
  ↔ eligible_row self ["pending"; "waiting"; "running"] r.
Proof.
  unfold classify_job, eligible_row.
  case_bool_decide as Hs; [by split; [|intros [? _]]|].
  destruct (Z.geb_spec (created r) (cutoff self)).
  - split; [done|]. intros [_ ?]. lia.
  - split; [by split|done].
Qed.

Lemma classify_notification_eligible self r :
  classify_notification self r = Eligible ↔ eligible_row self ["pending"] r.
Proof.
  unfold classify_notification, eligible_row.
  case_bool_decide as Hs; [by split; [|intros [? _]]|].
  destruct (Z.geb_spec (created r) (cutoff self)).
  - split; [done|]. intros [_ ?]. lia.
  - split; [by split|done].
Qed.

Lemma protects_spec (current last : option Z) (src : string) pk :
  (bool_decide (current = Some pk) || bool_decide (last = Some pk))
  && str_truthy src = true
  ↔ (current = Some pk ∨ last = Some pk) ∧ src ≠ "".
Proof.
  rw andb_true_iff orb_true_iff !bool_decide_eq_true.
  by destruct src; split; intros [? ?].
Qed.

Lemma verdict_project_update_eligible self st pk pu c :
  verdict (project_updates_method self) st pk pu = inr c →
  c = Eligible ↔ eligible_project_update self st pk pu.
Proof.
  rw verdict_project_update. unfold eligible_project_update.
  case_bool_decide as Hs; [by intros [= <-]; split; [|intros [? _]]|].
  destruct (projects st !! pu_project pu) as [p|]; [|done].
  destruct (dangling _ (p_current_update p)); [done|].
  destruct (dangling _ (p_last_update p)); [done|].
  pose proof (protects_spec (p_current_update p) (p_last_update p)
                (scm_type p) pk) as Hp.
  destruct (_ && _).
  - intros [= <-]. split; [done|]. intros (_ & _ & p' & [= <-] & Hno).
    by destruct Hno, Hp as [Hp _]; apply Hp.
  - destruct (Z.geb_spec (pu_created pu) (cutoff self)); intros [= <-].
    + split; [done|]. intros (_ & ? & _). lia.
    + split; [|done]. intros _. split; [done|]. split; [done|].
      exists p. split; [done|]. intros Hyes%Hp. done.
Qed.

Lemma verdict_inventory_update_eligible self st pk iu c :
  verdict (inventory_updates_method self) st pk iu = inr c →
  c = Eligible ↔ eligible_inventory_update self st pk iu.
Proof.
  rw verdict_inventory_update. unfold eligible_inventory_update.
  case_bool_decide as Hs; [by intros [= <-]; split; [|intros [? _]]|].
  destruct (inventory_sources st !! iu_inventory_source iu) as [p|]; [|done].
  destruct (dangling _ (s_current_update p)); [done|].
  destruct (dangling _ (s_last_update p)); [done|].
  pose proof (protects_spec (s_current_update p) (s_last_update p)
                (source p) pk) as Hp.
  destruct (_ && _).
  - intros [= <-]. split; [done|]. intros (_ & _ & p' & [= <-] & Hno).
    by destruct Hno, Hp as [Hp _]; apply Hp.
  - destruct (Z.geb_spec (iu_created iu) (cutoff self)); intros [= <-].
    + split; [done|]. intros (_ & ? & _). lia.
    + split; [|done]. intros _. split; [done|]. split; [done|].
      exists p. split; [done|]. intros Hyes%Hp. done.
Qed.

Lemma elem_of_chosen options name :
  name ∈ model_names →
  name ∈ chosen options ↔ name ∈ models_to_cleanup options.
Proof.
  intros Hin. rw -selected_chosen list_elem_of_filter. by split; [intros []|].
Qed.

(** The counters of a category say that every row of its table got an
    answer. *)
Lemma counts_inr_verdict {R} (m : Method R) st counters pk r :
  counts m st = inr counters → objects m st !! pk = Some r →
  ∃ c, verdict m st pk r = inr c.
Proof.
  intros Hc Hl. apply (tally_inr_inv m _ _ _ _ Hc (pk, r)).
  by apply elem_of_map_to_list.
Qed.

Lemma remains_tables self st st' (selected : gset string) (P : string → Prop) :
  (∀ name, name ∈ model_names → P name ↔ name ∈ selected) →
  (∀ name, name ∈ model_names →
     remains self name st st' (bool_decide (name ∈ selected))) →
  (∀ name, name ∈ model_names → name ∈ selected →
     ∃ counters, counts_of self name st = inr counters) →
  tables_without self st st' P.
Proof.
  intros HP H Hans.
  assert (∀ name, name ∈ model_names →
            ∀ Q : Prop, (bool_decide (name ∈ selected) = true → ¬ Q)
                        ↔ ¬ (P name ∧ Q)) as Hflag.
  { intros name Hin Q. rw bool_decide_eq_true (HP name Hin). tauto. }
  assert (∀ c : Classification, inr (A := exn) c ≠ inr Eligible ↔ c ≠ Eligible)
    as Hinr.
  { intros c. split; intros Hc Heq; apply Hc; congruence. }
  unfold tables_without.
  repeat match goal with
         | |- _ ∧ _ => split
         end.
  - assert ("jobs" ∈ model_names) as Hin
      by (apply (bool_decide_unpack _); by vm_compute).
    intros pk r. rw -(Hflag _ Hin) -classify_job_eligible -Hinr.
    apply (H _ Hin).
  - assert ("ad_hoc_commands" ∈ model_names) as Hin
      by (apply (bool_decide_unpack _); by vm_compute).
    intros pk r. rw -(Hflag _ Hin) -classify_job_eligible -Hinr.
    apply (H _ Hin).
  - assert ("project_updates" ∈ model_names) as Hin
      by (apply (bool_decide_unpack _); by vm_compute).
    intros pk r. specialize (H _ Hin pk r). specialize (Hans _ Hin).
    specialize (HP _ Hin). simpl in H. rw H.
    split; intros [Hl Hv]; (split; [done|]).
    + intros [Hsel He]. apply HP in Hsel.
      destruct (Hans Hsel) as (counters & Hc).
      destruct (counts_inr_verdict _ _ _ _ _ Hc Hl) as (c & Hc').
      apply Hv; [by apply bool_decide_eq_true|].
      rw Hc'. f_equal. by apply (verdict_project_update_eligible _ _ _ _ _ Hc').
    + intros Hsel%bool_decide_eq_true Heq. apply Hv. split; [by apply HP|].
      by apply (verdict_project_update_eligible _ _ _ _ _ Heq).
  - assert ("inventory_updates" ∈ model_names) as Hin
      by (apply (bool_decide_unpack _); by vm_compute).
    intros pk r. specialize (H _ Hin pk r). specialize (Hans _ Hin).
    specialize (HP _ Hin). simpl in H. rw H.
    split; intros [Hl Hv]; (split; [done|]).
    + intros [Hsel He]. apply HP in Hsel.
      destruct (Hans Hsel) as (counters & Hc).
      destruct (counts_inr_verdict _ _ _ _ _ Hc Hl) as (c & Hc').
      apply Hv; [by apply bool_decide_eq_true|].
      rw Hc'. f_equal. by apply (verdict_inventory_update_eligible _ _ _ _ _ Hc').
    + intros Hsel%bool_decide_eq_true Heq. apply Hv. split; [by apply HP|].
      by apply (verdict_inventory_update_eligible _ _ _ _ _ Heq).
  - assert ("management_jobs" ∈ model_names) as Hin
      by (apply (bool_decide_unpack _); by vm_compute).
    intros pk r. rw -(Hflag _ Hin) -classify_job_eligible -Hinr.
    apply (H _ Hin).
  - assert ("workflow_jobs" ∈ model_names) as Hin
      by (apply (bool_decide_unpack _); by vm_compute).
    intros pk r. rw -(Hflag _ Hin) -classify_job_eligible -Hinr.
    apply (H _ Hin).
  - assert ("notifications" ∈ model_names) as Hin
      by (apply (bool_decide_unpack _); by vm_compute).
    intros pk r. rw -(Hflag _ Hin) -classify_notification_eligible -Hinr.
    apply (H _ Hin).
Qed.

(** ** The lines of a method *)

Section lines.
Context {R : Type} (self : Command) (m : Method R) (Hok : method_ok m).

(** A turn of the loop that returns has logged one line about its row:
    at level DEBUG when it counted the row as skipped, at level INFO
    when it counted it as deleted. *)
Lemma visit_line row counters w counters' w' :
  visit self m row counters w = (inr counters', w') →
  ∃ r, logged w' = (logged w ++ [r])%list
       ∧ subject r = Some row.1
       ∧ ((levelno r = DEBUG ∧ counters' = (S counters.1, counters.2))
          ∨ (levelno r = INFO ∧ counters' = (counters.1, S counters.2))).
Proof.
  unfold visit. monad_unfold.
  destruct (ok_reads m Hok row.1 row.2 w) as (qs & -> & _).
  destruct (verdict m (db w) row.1 row.2) as [e|c]; [done|].
  unfold branch. monad_unfold. destruct counters as [skipped deleted].
  destruct c, (dry_run self); simpl; intros [= <- <-]; simpl;
    eexists; (split; [reflexivity|]); (split; [reflexivity|]); auto.
Qed.

Lemma lines_at_app level l l' :
  lines_at level (l ++ l') = (lines_at level l + lines_at level l')%nat.
Proof. unfold lines_at. by rw filter_app length_app. Qed.

Lemma for_each_lines (rows : list (Z * R)) counters w counters' w' :
  for_each (visit self m) rows counters w = (inr counters', w') →
  ∃ new, logged w' = (logged w ++ new)%list
         ∧ omap subject new = rows.*1
         ∧ length new = length rows
         ∧ (lines_at DEBUG new + counters.1 = counters'.1)%nat
         ∧ (lines_at INFO new + counters.2 = counters'.2)%nat.
Proof.
  revert counters w. induction rows as [|row rows IH]; intros counters w; simpl.
  - intros [= <- <-]. exists []. by rw app_nil_r.
  - monad_unfold.
    destruct (visit self m row counters w) as [[e|c1] w1] eqn:Hvis; [done|].
    intros Hrest.
    destruct (visit_line _ _ _ _ _ Hvis) as (r & Hl & Hsub & Hlev).
    destruct (IH _ _ Hrest) as (new & Hl' & Hsubs & Hlen & Hd & Hi).
    exists (r :: new). rw Hl' Hl -app_assoc. split; [done|].
    split. { simpl. rw Hsub. f_equal. exact Hsubs. }
    split. { simpl. by rw Hlen. }
    change (r :: new) with ([r] ++ new)%list. rw !lines_at_app.
    unfold lines_at at 1 3. rw !filter_cons !filter_nil.
    destruct Hlev as [[Hlev ->]|[Hlev ->]]; rw Hlev; simpl in *;
      repeat case_decide; try done; simpl; lia.
Qed.

Lemma cleanup_lines w counters w' :
  cleanup self m w = (inr counters, w') →
  ∃ new, logged w' = (logged w ++ new)%list
         ∧ omap subject new = (snapshot m (db w)).*1
         ∧ length new = length (snapshot m (db w))
         ∧ lines_at DEBUG new = counters.1
         ∧ lines_at INFO new = counters.2.
Proof.
  unfold cleanup, objects_all. monad_unfold. simpl. intros Hrun.
  destruct (for_each_lines _ _ _ _ _ Hrun) as (new & Hl & Hs & Hlen & Hd & Hi).
  exists new. simpl in *. rw !Nat.add_0_r in Hd, Hi. done.
Qed.

End lines.

Lemma record_keys_snapshot self name :
  name ∈ model_names →
  ∃ a, policy self name = Some a
       ∧ ∀ st, record_keys name st
               = match a with Any m => (snapshot m st).*1 end.
Proof. intros H. each_model H; by eexists. Qed.

(** ** One record in a method and in a run *)

Section record.
Context {R : Type} (self : Command) (m : Method R) (Hok : method_ok m).

(** Whatever the loop ends in, what it has deleted are rows that were
    eligible when it began, none in a dry run. *)
Lemma for_each_spares (rows : list (Z * R)) :
  NoDup rows.*1 → ∀ counters w,
  (∀ row, row ∈ rows → is_Some (objects m (db w) !! row.1)) →
  ∃ ks, (∀ k, k ∈ ks → k ∈ doomed m (db w) rows)
        ∧ (dry_run self = true → ks = [])
        ∧ objects m (db (for_each (visit self m) rows counters w).2)
          = foldl (λ t k, delete k t) (objects m (db w)) ks
        ∧ deletions (queries (for_each (visit self m) rows counters w).2)
          = (deletions (queries w) ++ ((λ pk, (table m, pk)) <$> ks))%list.
Proof.
  induction rows as [|row rows IH]; intros Hnd counters w Hpres.
  - exists []. simpl. by rw app_nil_r.
  - apply NoDup_cons in Hnd as [Hnotin Hnd].
    assert (is_Some (objects m (db w) !! row.1)) as Hrow
      by (apply Hpres; by left).
    assert (∀ row', row' ∈ rows → is_Some (objects m (db w) !! row'.1))
      as Hpres' by (intros row' Hin; apply Hpres; by right).
    assert (∀ k, k ∈ doomed m (db w) rows → k ∈ doomed m (db w) (row :: rows))
      as Hsub.
    { intros k (r & Hin & Hv)%elem_of_doomed. apply elem_of_doomed.
      exists r. by split; [right|]. }
    simpl. monad_unfold.
    destruct (verdict m (db w) row.1 row.2) as [e|c] eqn:Hv.
    + destruct (visit_raise self m Hok row counters w e Hv)
        as (w1 & -> & Hdb & Hd & _).
      exists []. simpl. rw Hdb Hd.
      split; [by intros k ?%elem_of_nil|done].
    + destruct (visit_answer self m Hok row counters w c Hv)
        as (w1 & -> & Hdb & Hd & _).
      specialize (IH Hnd (bump c counters) w1). revert Hdb Hd IH.
      destruct (decide (c = Eligible ∧ dry_run self = false)) as [[-> Hdry]|Hno];
        intros Hdb Hd IH.
      * destruct IH as (ks & Hks & _ & Hobj & Hdel).
        { rw Hdb. by apply (present_after_del m Hok). }
        exists (row.1 :: ks). split.
        { intros k [->|Hk]%elem_of_cons.
          - rw /doomed filter_cons_True; [done|]. by left.
          - apply Hsub. apply Hks in Hk. revert Hk. rw Hdb.
            rw (doomed_ext m (db w) _ rows); [|done].
            by apply (verdict_after_del m Hok). }
        split; [by rw Hdry|]. split.
        { rw Hobj Hdb (ok_objects m Hok). done. }
        rw Hdel Hd -app_assoc. done.
      * destruct IH as (ks & Hks & Hdry & Hobj & Hdel); [by rw Hdb|].
        exists ks. split; [by intros k Hk; apply Hsub; rw -Hdb; apply Hks|].
        split; [done|]. split; [by rw Hobj Hdb|].
        by rw Hdel Hd app_nil_r.
Qed.

(** A method spares every row that is not eligible when it begins. *)
Lemma cleanup_spares pk r w :
  objects m (db w) !! pk = Some r → verdict m (db w) pk r ≠ inr Eligible →
  spares m (cleanup self m) pk r w.
Proof.
  intros Hl Hv. unfold spares, keeps, cleanup, objects_all. monad_unfold. simpl.
  destruct (for_each_spares (snapshot m (db w)) (NoDup_snapshot m _)
              (0%nat, 0%nat)
              (mkWorld (db w) (queries w ++ [Select (table m)]) (logged w))
              (snapshot_present m _))
    as (ks & Hks & _ & Hobj & Hdel).
  simpl in *.
  assert (pk ∉ ks) as Hnotin.
  { intros (r' & Hin%elem_of_snapshot & Hv')%Hks%elem_of_doomed.
    rw Hl in Hin. by simplify_eq. }
  split.
  - by rw Hobj lookup_foldl_delete decide_False.
  - exists ((λ pk, (table m, pk)) <$> ks). split.
    + by rw Hdel deletions_app /= app_nil_r.
    + by intros (k & [= <-] & Hk)%list_elem_of_fmap.
Qed.

(** In a dry run a method spares every row. *)
Lemma cleanup_dry_spares pk r w :
  dry_run self = true → objects m (db w) !! pk = Some r →
  spares m (cleanup self m) pk r w.
Proof.
  intros Hdry Hl. unfold spares, keeps, cleanup, objects_all. monad_unfold.
  simpl.
  destruct (for_each_spares (snapshot m (db w)) (NoDup_snapshot m _)
              (0%nat, 0%nat)
              (mkWorld (db w) (queries w ++ [Select (table m)]) (logged w))
              (snapshot_present m _))
    as (ks & _ & Hnone & Hobj & Hdel).
  simpl in *. rw (Hnone Hdry) in Hobj. rw (Hnone Hdry) in Hdel. split.
  - by rw Hobj.
  - exists []. split; [|by intros ?%elem_of_nil].
    by rw Hdel deletions_app /= !app_nil_r.
Qed.

(** A method that returns in a run that deletes has removed every row
    that was eligible when it began. *)
Lemma cleanup_removes pk r w :
  dry_run self = false →
  objects m (db w) !! pk = Some r → verdict m (db w) pk r = inr Eligible →
  removes m (cleanup self m) pk w.
Proof.
  intros Hdry Hl Hv counters w' Hrun.
  pose proof (cleanup_counts self m Hok w) as Hc. rw Hrun in Hc. simpl in Hc.
  destruct (cleanup_answer self m Hok w counters (eq_sym Hc))
    as (w1 & Hrun' & Hdb & Hd & _).
  rw Hrun in Hrun'. injection Hrun' as <-. rw Hdry in Hdb. rw Hdry in Hd.
  split.
  - rw Hdb. destruct (objects m (swept m (db w)) !! pk) as [r'|] eqn:Hl';
      [|done].
    apply (lookup_swept m Hok) in Hl' as (Hl' & Hne & _).
    rw Hl in Hl'. by simplify_eq.
  - eexists. split; [exact Hd|]. apply list_elem_of_fmap. exists pk.
    split; [done|]. apply elem_of_doomed. exists r.
    by split; [apply elem_of_snapshot|].
Qed.

(** A turn of the loop logs one line about its row, at the level of the
    answer of the chain. *)
Lemma visit_level row counters w c :
  verdict m (db w) row.1 row.2 = inr c →
  ∃ line, logged (visit self m row counters w).2 = (logged w ++ [line])%list
          ∧ subject line = Some row.1
          ∧ levelno line = level_of c.
Proof.
  intros Hv. unfold visit. monad_unfold.
  destruct (ok_reads m Hok row.1 row.2 w) as (qs & -> & _). rw Hv.
  unfold branch. monad_unfold. destruct counters as [skipped deleted].
  destruct c, (dry_run self); simpl; eexists; by repeat split.
Qed.

(** The lines of a loop that returns, row by row. *)
Lemma for_each_levels (rows : list (Z * R)) :
  NoDup rows.*1 → ∀ st counters counters' w w',
  (∀ row, row ∈ rows → is_Some (objects m (db w) !! row.1)) →
  (∀ row, row ∈ rows →
     verdict m (db w) row.1 row.2 = verdict m st row.1 row.2) →
  for_each (visit self m) rows counters w = (inr counters', w') →
  ∃ new, logged w' = (logged w ++ new)%list
         ∧ Forall2 (λ row line,
                      subject line = Some row.1
                      ∧ ∃ c, verdict m st row.1 row.2 = inr c
                             ∧ levelno line = level_of c)
                   rows new.
Proof.
  induction rows as [|row rows IH];
    intros Hnd st counters counters' w w' Hpres Hsame.
  - simpl. intros [= <- <-]. exists []. by rw app_nil_r.
  - apply NoDup_cons in Hnd as [Hnotin Hnd].
    assert (is_Some (objects m (db w) !! row.1)) as Hrow
      by (apply Hpres; by left).
    assert (∀ row', row' ∈ rows → is_Some (objects m (db w) !! row'.1))
      as Hpres' by (intros row' Hin; apply Hpres; by right).
    simpl. monad_unfold.
    destruct (verdict m (db w) row.1 row.2) as [e|c] eqn:Hv.
    { by destruct (visit_raise self m Hok row counters w e Hv) as (w1 & -> & _). }
    destruct (visit_level row counters w c Hv) as (line & Hlog & Hsub & Hlev).
    destruct (visit_answer self m Hok row counters w c Hv)
      as (w1 & Hvis & Hdb & _).
    rw Hvis in Hlog. rw Hvis. simpl in Hlog. intros Hrest.
    destruct (IH Hnd st (bump c counters) counters' w1 w')
      as (new & Hl & Hall); [| |exact Hrest|].
    { rw Hdb. case_decide; [|done]. by apply (present_after_del m Hok). }
    { intros row' Hin. rw -Hsame; [by right|]. rw Hdb.
      case_decide; [|done]. by apply (verdict_after_del m Hok _ _ rows). }
    exists (line :: new). split; [by rw Hl Hlog -app_assoc|].
    constructor; [|done]. split; [done|]. exists c.
    split; [|done]. rw -Hsame; [by left|done].
Qed.

(** Of lines that go row by row, those about a row whose key is not
    there are none, and the one about a row that is there is at the
    level of its answer. *)
Lemma levels_about_none st (rows : list (Z * R)) new pk :
  pk ∉ rows.*1 →
  Forall2 (λ row line,
             subject line = Some row.1
             ∧ ∃ c, verdict m st row.1 row.2 = inr c
                    ∧ levelno line = level_of c)
          rows new →
  levels_about pk new = [].
Proof.
  intros Hnotin Hall. unfold levels_about.
  induction Hall as [|row line rows new [Hsub _] Hall IH]; [done|].
  rw fmap_cons in Hnotin. apply not_elem_of_cons in Hnotin as [Hne Hnotin].
  rw filter_cons_False; [by rw Hsub; intros [= ?]|]. by apply IH.
Qed.

Lemma levels_about_row st (rows : list (Z * R)) new pk r :
  NoDup rows.*1 → (pk, r) ∈ rows →
  Forall2 (λ row line,
             subject line = Some row.1
             ∧ ∃ c, verdict m st row.1 row.2 = inr c
                    ∧ levelno line = level_of c)
          rows new →
  ∃ c, verdict m st pk r = inr c ∧ levels_about pk new = [level_of c].
Proof.
  intros Hnd Hin Hall.
  induction Hall as [|row line rows new (Hsub & c & Hv & Hlev) Hall IH];
    [by apply elem_of_nil in Hin|].
  rw fmap_cons in Hnd. apply NoDup_cons in Hnd as [Hnotin Hnd].
  apply elem_of_cons in Hin as [<-|Hin].
  - exists c. split; [done|]. unfold levels_about.
    rw filter_cons_True; [done|]. rw fmap_cons Hlev. f_equal.
    by apply (levels_about_none st rows).
  - destruct (IH Hnd Hin) as (c' & Hv' & Hlines). exists c'. split; [done|].
    unfold levels_about. rw filter_cons_False; [|done].
    rw Hsub. intros [= Heq]. apply Hnotin. rw Heq.
    by apply (list_elem_of_fmap_2 fst _ (pk, r)).
Qed.

(** A method that returns has counted every row of its table once, at
    the level of the answer of the chain when the method began. *)
Lemma cleanup_counted pk r w c :
  objects m (db w) !! pk = Some r → verdict m (db w) pk r = inr c →
  counted (level_of c) (cleanup self m) pk w.
Proof.
  intros Hl Hv skipped deleted w' Hrun.
  destruct (cleanup_lines self m Hok _ _ _ Hrun)
    as (new & Hlog & _ & _ & Hd & Hi).
  exists new. split; [done|]. split; [|done].
  revert Hrun. unfold cleanup, objects_all. monad_unfold. simpl. intros Hrun.
  destruct (for_each_levels (snapshot m (db w)) (NoDup_snapshot m _) (db w)
              (0%nat, 0%nat) (skipped, deleted)
              (mkWorld (db w) (queries w ++ [Select (table m)]) (logged w)) w'
              (snapshot_present m _) (λ _ _, eq_refl) Hrun)
    as (new' & Hlog' & Hall).
  simpl in Hlog'. rw Hlog in Hlog'. apply app_inv_head in Hlog' as <-.
  destruct (levels_about_row (db w) _ _ pk r (NoDup_snapshot m _)
              (proj2 (elem_of_snapshot m _ _ _) Hl) Hall) as (c' & Hv' & Hlines).
  rw Hv in Hv'. by simplify_eq.
Qed.

End record.

(** A record that the chain of its method does not find eligible is
    skipped all the way. *)
Lemma verdict_skipped_by {R} self (m : Method R) name pk r w c :
  name ∈ model_names → policy self name = Some (Any m) →
  verdict m (db w) pk r = inr c → c ≠ Eligible →
  skipped_by self m (cleanup self m) pk r w.
Proof.
  intros Hin Hpol Hv Hc.
  destruct (policy_spec self name Hin) as (a & Hp & Hok & _).
  rw Hpol in Hp. injection Hp as <-. simpl in Hok.
  split; [by eapply verdict_skips|]. intros Hl. split.
  { apply (cleanup_spares self m Hok); [done|]. rw Hv. by intros [= ->]. }
  split.
  { pose proof (cleanup_counted self m Hok pk r w c Hl Hv) as Hcount.
    by destruct c. }
  intros options now Hruns. unfold keeps.
  destruct (handle_noargs options now w) as [res w'] eqn:Hrun. simpl.
  destruct (run_store _ _ _ _ _ Hrun)
    as [[-> _]|(cut & Hcut & _ & _ & Hrem & _)]; [done|].
  specialize (Hrem name Hin). apply Hruns in Hcut. subst cut.
  change (remains self name (db w) (db w')
                  (bool_decide (name ∈ models_to_cleanup options))) in Hrem.
  unfold remains in Hrem. rw Hpol in Hrem. apply Hrem. split; [done|].
  intros _. rw Hv. by intros [= ->].
Qed.

(** A record that the chain of its method finds eligible is deleted all
    the way. *)
Lemma verdict_deleted_by {R} self (m : Method R) name pk r w :
  name ∈ model_names → policy self name = Some (Any m) →
  verdict m (db w) pk r = inr Eligible →
  deleted_by self m name (cleanup self m) pk r w.
Proof.
  intros Hin Hpol Hv.
  destruct (policy_spec self name Hin) as (a & Hp & Hok & _).
  rw Hpol in Hp. injection Hp as <-. simpl in Hok.
  split; [by eapply verdict_deletes|]. intros Hl. split.
  { apply (cleanup_counted self m Hok pk r w Eligible Hl Hv). }
  split.
  { destruct (dry_run self) eqn:Hdry.
    - by apply (cleanup_dry_spares self m Hok).
    - by apply (cleanup_removes self m Hok pk r). }
  intros options now Hruns Hsel Hdry [] w' Hrun.
  destruct (run_store _ _ _ _ _ Hrun)
    as [[_ Hd]|(cut & Hcut & _ & _ & Hrem & _)].
  { rw (Hd eq_refl) in Hdry. done. }
  specialize (Hrem name Hin). apply Hruns in Hcut. subst cut.
  change (remains self name (db w) (db w')
                  (bool_decide (name ∈ models_to_cleanup options))) in Hrem.
  unfold remains in Hrem. rw Hpol in Hrem.
  destruct (objects m (db w') !! pk) as [r'|] eqn:Hl'; [|done].
  apply Hrem in Hl' as [Hl' Hne]. rw Hl in Hl'. simplify_eq.
  exfalso. apply Hne; [|done]. apply bool_decide_eq_true.
  by apply elem_of_chosen.
Qed.

(** ** Properties of the condition chains *)

Ltac in_list := apply (bool_decide_unpack _); by vm_compute.

Lemma passes_status_job self s t :
  s ∉ ["pending"; "waiting"; "running"] →
  classify_job self (mkRow s t)
  = if cutoff self <=? t then SkipRecent else Eligible.
Proof.
  intros Hs. unfold classify_job. simpl. rw bool_decide_false; [done|].
  destruct (Z.geb_spec t (cutoff self)), (Z.leb_spec (cutoff self) t);
    try done; lia.
Qed.

Lemma passes_status_notification self s t :
  s ≠ "pending" →
  classify_notification self (mkRow s t)
  = if cutoff self <=? t then SkipRecent else Eligible.
Proof.
  intros Hs. unfold classify_notification. simpl.
  rw bool_decide_false; [by intros ->%list_elem_of_singleton|].
  destruct (Z.geb_spec t (cutoff self)), (Z.leb_spec (cutoff self) t);
    try done; lia.
Qed.

Lemma active_project_update self s t pk parent st :
  s ∈ ["pending"; "waiting"; "running"] →
  verdict (project_updates_method self) st pk (mkProjectUpdate s t parent)
  = inr SkipActive.
Proof. intros Hs. rw verdict_project_update. simpl. by rw bool_decide_true. Qed.

Lemma active_inventory_update self s t pk parent st :
  s ∈ ["pending"; "waiting"; "running"] →
  verdict (inventory_updates_method self) st pk (mkInventoryUpdate s t parent)
  = inr SkipActive.
Proof. intros Hs. rw verdict_inventory_update. simpl. by rw bool_decide_true. Qed.

Lemma protected_project_update self s t pk parent current last src st :
  s ∉ ["pending"; "waiting"; "running"] →
  current = Some pk ∨ last = Some pk → src ≠ "" →
  projects st !! parent = Some (mkProject current last src) →
  resolves (project_updates st) current → resolves (project_updates st) last →
  verdict (project_updates_method self) st pk (mkProjectUpdate s t parent)
  = inr SkipProtected.
Proof.
  intros Hs Hptr Hsrc Hp Hc%dangling_resolves Hl%dangling_resolves.
  rw verdict_project_update. simpl.
  rw bool_decide_false; [done|]. rw Hp. simpl. rw Hc Hl.
  assert (bool_decide (current = Some pk) || bool_decide (last = Some pk) = true)
    as ->.
  { apply orb_true_iff. destruct Hptr; [left|right]; by apply bool_decide_eq_true. }
  by destruct src.
Qed.

Lemma protected_inventory_update self s t pk parent current last src st :
  s ∉ ["pending"; "waiting"; "running"] →
  current = Some pk ∨ last = Some pk → src ≠ "" →
  inventory_sources st !! parent = Some (mkInventorySource current last src) →
  resolves (inventory_updates st) current →
  resolves (inventory_updates st) last →
  verdict (inventory_updates_method self) st pk (mkInventoryUpdate s t parent)
  = inr SkipProtected.
Proof.
  intros Hs Hptr Hsrc Hp Hc%dangling_resolves Hl%dangling_resolves.
  rw verdict_inventory_update. simpl.
  rw bool_decide_false; [done|]. rw Hp. simpl. rw Hc Hl.
  assert (bool_decide (current = Some pk) || bool_decide (last = Some pk) = true)
    as ->.
  { apply orb_true_iff. destruct Hptr; [left|right]; by apply bool_decide_eq_true. }
  by destruct src.
Qed.

Lemma unprotected_project_update self s t pk parent current last src st :
  s ∉ ["pending"; "waiting"; "running"] →
  ¬ ((current = Some pk ∨ last = Some pk) ∧ src ≠ "") →
  projects st !! parent = Some (mkProject current last src) →
  resolves (project_updates st) current → resolves (project_updates st) last →
  verdict (project_updates_method self) st pk (mkProjectUpdate s t parent)
  = inr (if cutoff self <=? t then SkipRecent else Eligible).
Proof.
  intros Hs Hptr Hp Hc%dangling_resolves Hl%dangling_resolves.
  rw verdict_project_update. simpl.
  rw bool_decide_false; [done|]. rw Hp. simpl. rw Hc Hl. f_equal.
  assert ((bool_decide (current = Some pk) || bool_decide (last = Some pk))
          && str_truthy src = false) as ->.
  { apply not_true_is_false. by intros ?%protects_spec. }
  destruct (Z.geb_spec t (cutoff self)), (Z.leb_spec (cutoff self) t);
    try done; lia.
Qed.

Lemma unprotected_inventory_update self s t pk parent current last src st :
  s ∉ ["pending"; "waiting"; "running"] →
  ¬ ((current = Some pk ∨ last = Some pk) ∧ src ≠ "") →
  inventory_sources st !! parent = Some (mkInventorySource current last src) →
  resolves (inventory_updates st) current →
  resolves (inventory_updates st) last →
  verdict (inventory_updates_method self) st pk (mkInventoryUpdate s t parent)
  = inr (if cutoff self <=? t then SkipRecent else Eligible).
Proof.
  intros Hs Hptr Hp Hc%dangling_resolves Hl%dangling_resolves.
  rw verdict_inventory_update. simpl.
  rw bool_decide_false; [done|]. rw Hp. simpl. rw Hc Hl. f_equal.
  assert ((bool_decide (current = Some pk) || bool_decide (last = Some pk))
          && str_truthy src = false) as ->.
  { apply not_true_is_false. by intros ?%protects_spec. }
  destruct (Z.geb_spec t (cutoff self)), (Z.leb_spec (cutoff self) t);
    try done; lia.
Qed.

(** A chain reads: its answer is the verdict for the store it runs on. *)
Lemma classify_verdict {R} (m : Method R) pk r w :
  method_ok m → (classify m pk r w).1 = verdict m (db w) pk r.
Proof.
  intros Hok. by destruct (ok_reads m Hok pk r w) as (qs & -> & _).
Qed.

(** The methods whose chain reads the record alone always return. *)
Lemma simple_cleanup_returns self (table noun : string)
  (objects : Store → gmap Z Row) (f : Row → Classification)
  (del : Z → Store → Store) w :
  method_ok (mkMethod table noun objects status (λ _ r, mret (f r)) del) →
  ∃ skipped deleted w',
    cleanup self (mkMethod table noun objects status (λ _ r, mret (f r)) del) w
    = (inr (skipped, deleted), w').
Proof.
  intros Hok.
  destruct (tally_answers
              (mkMethod table noun objects status (λ _ r, mret (f r)) del) (db w)
              (snapshot (mkMethod table noun objects status (λ _ r, mret (f r))
                                  del) (db w))
              (0%nat, 0%nat)) as ([skipped deleted] & Hc).
  { intros row _. by eexists. }
  destruct (cleanup_answer self _ Hok w _ Hc) as (w' & Hrun & _).
  by exists skipped, deleted, w'.
Qed.

(** C1: a record whose status is in the set of active statuses of its
    category (pending, waiting and running for jobs, ad hoc commands,
    project updates, inventory updates, management jobs and workflow
    jobs; pending for notifications) is classified SkipActive, whatever
    its age, the cutoff and what its parent points at. It is skipped all
    the way: its turn of the loop counts it as skipped and deletes
    nothing; the method of its category spares it and counts it as
    skipped; and no run of the command takes it from its table. *)
Theorem active_status_is_skipped (self : Command) (s : string)
  (t pk parent : Z) (w : World) :
  s ∈ ["pending"; "waiting"; "running"] →
  classify_job self (mkRow s t) = SkipActive
  ∧ classify_ad_hoc_command self (mkRow s t) = SkipActive
  ∧ classify_project_update self pk (mkProjectUpdate s t parent) w
    = (inr SkipActive, w)
  ∧ classify_inventory_update self pk (mkInventoryUpdate s t parent) w
    = (inr SkipActive, w)
  ∧ classify_management_job self (mkRow s t) = SkipActive
  ∧ classify_workflow_job self (mkRow s t) = SkipActive
  ∧ classify_notification self (mkRow "pending" t) = SkipActive
  ∧ skipped_by self (jobs_method self) (cleanup_jobs self) pk (mkRow s t) w
  ∧ skipped_by self (ad_hoc_commands_method self)
               (cleanup_ad_hoc_commands self) pk (mkRow s t) w
  ∧ skipped_by self (project_updates_method self)
               (cleanup_project_updates self) pk
               (mkProjectUpdate s t parent) w
  ∧ skipped_by self (inventory_updates_method self)
               (cleanup_inventory_updates self) pk
               (mkInventoryUpdate s t parent) w
  ∧ skipped_by self (management_jobs_method self)
               (cleanup_management_jobs self) pk (mkRow s t) w
  ∧ skipped_by self (workflow_jobs_method self)
               (cleanup_workflow_jobs self) pk (mkRow s t) w
  ∧ skipped_by self (notifications_method self)
               (cleanup_notifications self) pk (mkRow "pending" t) w.
Proof.
  intros Hs.
  assert (∀ f : Row → Classification,
            (f = classify_job self ∨ f = classify_ad_hoc_command self
             ∨ f = classify_management_job self
             ∨ f = classify_workflow_job self) →
            f (mkRow s t) = SkipActive) as Hrow.
  { intros f [-> | [-> | [-> | ->]]];
      unfold classify_job, classify_ad_hoc_command, classify_management_job,
        classify_workflow_job; simpl; by rw bool_decide_true. }
  split; [apply Hrow; tauto|]. split; [apply Hrow; tauto|].
  split; [by apply classify_project_update_active|].
  split; [by apply classify_inventory_update_active|].
  split; [apply Hrow; tauto|]. split; [apply Hrow; tauto|].
  split; [done|].
  split.
  { apply (verdict_skipped_by self (jobs_method self) "jobs" _ _ _ SkipActive);
      [in_list|done| |done]. apply (f_equal inr), Hrow. tauto. }
  split.
  { apply (verdict_skipped_by self (ad_hoc_commands_method self)
             "ad_hoc_commands" _ _ _ SkipActive); [in_list|done| |done].
    apply (f_equal inr), Hrow. tauto. }
  split.
  { apply (verdict_skipped_by self (project_updates_method self)
             "project_updates" _ _ _ SkipActive); [in_list|done| |done].
    by apply active_project_update. }
  split.
  { apply (verdict_skipped_by self (inventory_updates_method self)
             "inventory_updates" _ _ _ SkipActive); [in_list|done| |done].
    by apply active_inventory_update. }
  split.
  { apply (verdict_skipped_by self (management_jobs_method self)
             "management_jobs" _ _ _ SkipActive); [in_list|done| |done].
    apply (f_equal inr), Hrow. tauto. }
  split.
  { apply (verdict_skipped_by self (workflow_jobs_method self)
             "workflow_jobs" _ _ _ SkipActive); [in_list|done| |done].
    apply (f_equal inr), Hrow. tauto. }
  by apply (verdict_skipped_by self (notifications_method self)
              "notifications" _ _ _ SkipActive); [in_list|..].
Qed.

(** The running job 2 of the example store, a hundred days old at a
    cutoff of day 100: the method for jobs leaves it in its table. *)
Lemma active_status_is_skipped_witness :
  "running" ∈ ["pending"; "waiting"; "running"]
  ∧ classify_job (mkCommand 100 false) (mkRow "running" 1) = SkipActive
  ∧ jobs (db (cleanup_jobs (mkCommand 100 false) example_world).2) !! 2
    = Some (mkRow "running" 1).
Proof.
  assert ("running" ∈ ["pending"; "waiting"; "running"]) as Hs.
  { apply (bool_decide_unpack _). vm_compute. exact I. }
  destruct (active_status_is_skipped (mkCommand 100 false) "running" 1 2 1
              example_world Hs)
    as (Hc & _ & _ & _ & _ & _ & _ & [_ Hm] & _).
  split; [exact Hs|]. split; [exact Hc|].
  destruct Hm as ([Hkeep _] & _).
  - vm_compute. reflexivity.
  - exact Hkeep.
Defined.

(** C2: a project update (an inventory update) whose status is not
    pending, waiting or running and which is the current or the last
    update of its project (inventory source), the parent having a
    non-empty scm type (source) and its two pointers referring to
    updates that are there, is classified SkipProtected whatever its age
    and the cutoff. It is skipped all the way: by its turn of the loop,
    by the method, which spares it and counts it as skipped, and by
    every run of the command. With an active status the same record is
    SkipActive: the status test comes first. *)
Theorem protected_update_is_skipped (self : Command) (s s' : string)
  (t pk parent : Z) (current last : option Z) (src : string) (w : World) :
  s ∉ ["pending"; "waiting"; "running"] →
  s' ∈ ["pending"; "waiting"; "running"] →
  current = Some pk ∨ last = Some pk →
  src ≠ "" →
  (projects (db w) !! parent = Some (mkProject current last src) →
   resolves (project_updates (db w)) current →
   resolves (project_updates (db w)) last →
   (classify_project_update self pk (mkProjectUpdate s t parent) w).1
   = inr SkipProtected
   ∧ skipped_by self (project_updates_method self)
                (cleanup_project_updates self) pk
                (mkProjectUpdate s t parent) w)
  ∧ (inventory_sources (db w) !! parent
     = Some (mkInventorySource current last src) →
     resolves (inventory_updates (db w)) current →
     resolves (inventory_updates (db w)) last →
     (classify_inventory_update self pk (mkInventoryUpdate s t parent) w).1
     = inr SkipProtected
     ∧ skipped_by self (inventory_updates_method self)
                  (cleanup_inventory_updates self) pk
                  (mkInventoryUpdate s t parent) w)
  ∧ (classify_project_update self pk (mkProjectUpdate s' t parent) w).1
    = inr SkipActive
  ∧ (classify_inventory_update self pk (mkInventoryUpdate s' t parent) w).1
    = inr SkipActive.
Proof.
  intros Hs Hs' Hptr Hsrc.
  split; [|split; [|split]].
  - intros Hp Hc Hl.
    pose proof (protected_project_update self s t pk parent current last src
                  (db w) Hs Hptr Hsrc Hp Hc Hl) as Hv.
    split.
    + by rw (classify_verdict (project_updates_method self));
        [apply project_updates_method_ok|].
    + by apply (verdict_skipped_by self (project_updates_method self)
                  "project_updates" _ _ _ SkipProtected); [in_list|..].
  - intros Hp Hc Hl.
    pose proof (protected_inventory_update self s t pk parent current last src
                  (db w) Hs Hptr Hsrc Hp Hc Hl) as Hv.
    split.
    + by rw (classify_verdict (inventory_updates_method self));
        [apply inventory_updates_method_ok|].
    + by apply (verdict_skipped_by self (inventory_updates_method self)
                  "inventory_updates" _ _ _ SkipProtected); [in_list|..].
  - by rw classify_project_update_active.
  - by rw classify_inventory_update_active.
Qed.

(** Update 7 of the example store, created on day 3, is the current
    update of project 1, whose scm type is git, and inventory update 4,
    created on day 2, is the last update of inventory source 1, whose
    source is ec2: with a cutoff of day 100 both are protected, and
    their methods keep them. *)
Lemma protected_update_is_skipped_witness :
  (classify_project_update (mkCommand 100 false) 7
     (mkProjectUpdate "successful" 3 1) example_world).1
  = inr SkipProtected
  ∧ project_updates
      (db (cleanup_project_updates (mkCommand 100 false) example_world).2) !! 7
    = Some (mkProjectUpdate "successful" 3 1)
  ∧ (classify_inventory_update (mkCommand 100 false) 4
       (mkInventoryUpdate "failed" 2 1) example_world).1
    = inr SkipProtected
  ∧ inventory_updates
      (db (cleanup_inventory_updates (mkCommand 100 false) example_world).2)
      !! 4
    = Some (mkInventoryUpdate "failed" 2 1).
Proof.
  assert ("successful" ∉ ["pending"; "waiting"; "running"]) as Hs.
  { apply (bool_decide_unpack _). vm_compute. exact I. }
  assert ("failed" ∉ ["pending"; "waiting"; "running"]) as Hf.
  { apply (bool_decide_unpack _). vm_compute. exact I. }
  assert ("running" ∈ ["pending"; "waiting"; "running"]) as Hs'.
  { apply (bool_decide_unpack _). vm_compute. exact I. }
  destruct (protected_update_is_skipped (mkCommand 100 false)
              "successful" "running" 3 7 1 (Some 7) None "git"
              example_world Hs Hs' (or_introl eq_refl) ltac:(discriminate))
    as (Hp & _).
  destruct (protected_update_is_skipped (mkCommand 100 false)
              "failed" "running" 2 4 1 None (Some 4) "ec2"
              example_world Hf Hs' (or_intror eq_refl) ltac:(discriminate))
    as (_ & Hi & _).
  destruct Hp as (Hc & _ & Hm).
  { vm_compute. reflexivity. }
  { vm_compute. eexists. reflexivity. }
  { exact I. }
  destruct Hi as (Hc' & _ & Hm').
  { vm_compute. reflexivity. }
  { exact I. }
  { vm_compute. eexists. reflexivity. }
  split; [exact Hc|]. split.
  { destruct Hm as ([Hkeep _] & _); [vm_compute; reflexivity|exact Hkeep]. }
  split; [exact Hc'|].
  destruct Hm' as ([Hkeep _] & _); [vm_compute; reflexivity|exact Hkeep].
Defined.

(** C3: a record that is through the status test and, for an update,
    through the pointer test, is classified SkipRecent when its created
    time is at or after the cutoff and Eligible only when it is strictly
    before. A SkipRecent record is skipped all the way: by its turn of
    the loop, by the method, which spares it and counts it as skipped,
    and by every run of the command with that cutoff. [s] is a status
    outside the set of the six methods, [n] a status of a notification
    other than pending; for an update the parent is there, does not
    protect it, and its two pointers refer to updates that are there. *)
Theorem recent_record_is_skipped (self : Command) (s n : string)
  (t pk parent : Z) (current last : option Z) (src : string) (w : World) :
  s ∉ ["pending"; "waiting"; "running"] →
  n ≠ "pending" →
  ¬ ((current = Some pk ∨ last = Some pk) ∧ src ≠ "") →
  let c := if cutoff self <=? t then SkipRecent else Eligible in
  (classify_job self (mkRow s t) = c
   ∧ classify_ad_hoc_command self (mkRow s t) = c
   ∧ classify_management_job self (mkRow s t) = c
   ∧ classify_workflow_job self (mkRow s t) = c
   ∧ classify_notification self (mkRow n t) = c)
  ∧ (projects (db w) !! parent = Some (mkProject current last src) →
     resolves (project_updates (db w)) current →
     resolves (project_updates (db w)) last →
     (classify_project_update self pk (mkProjectUpdate s t parent) w).1 = inr c
     ∧ (cutoff self ≤ t →
        skipped_by self (project_updates_method self)
                   (cleanup_project_updates self) pk
                   (mkProjectUpdate s t parent) w))
  ∧ (inventory_sources (db w) !! parent
     = Some (mkInventorySource current last src) →
     resolves (inventory_updates (db w)) current →
     resolves (inventory_updates (db w)) last →
     (classify_inventory_update self pk (mkInventoryUpdate s t parent) w).1
     = inr c
     ∧ (cutoff self ≤ t →
        skipped_by self (inventory_updates_method self)
                   (cleanup_inventory_updates self) pk
                   (mkInventoryUpdate s t parent) w))
  ∧ (cutoff self ≤ t →
     skipped_by self (jobs_method self) (cleanup_jobs self) pk (mkRow s t) w
     ∧ skipped_by self (ad_hoc_commands_method self)
                  (cleanup_ad_hoc_commands self) pk (mkRow s t) w
     ∧ skipped_by self (management_jobs_method self)
                  (cleanup_management_jobs self) pk (mkRow s t) w
     ∧ skipped_by self (workflow_jobs_method self)
                  (cleanup_workflow_jobs self) pk (mkRow s t) w
     ∧ skipped_by self (notifications_method self)
                  (cleanup_notifications self) pk (mkRow n t) w).
Proof.
  intros Hs Hn Hptr c.
  pose proof (passes_status_job self s t Hs) as Hj.
  pose proof (passes_status_notification self n t Hn) as Hnot.
  fold c in Hj, Hnot.
  assert (cutoff self ≤ t → c = SkipRecent) as Hrecent.
  { intros Hle. unfold c. by rw (proj2 (Z.leb_le _ _) Hle). }
  split; [done|]. split; [|split].
  - intros Hp Hc Hl.
    pose proof (unprotected_project_update self s t pk parent current last src
                  (db w) Hs Hptr Hp Hc Hl) as Hv.
    fold c in Hv. split.
    + by rw (classify_verdict (project_updates_method self));
        [apply project_updates_method_ok|].
    + intros Hle. rw (Hrecent Hle) in Hv.
      by apply (verdict_skipped_by self (project_updates_method self)
                  "project_updates" _ _ _ SkipRecent); [in_list|..].
  - intros Hp Hc Hl.
    pose proof (unprotected_inventory_update self s t pk parent current last src
                  (db w) Hs Hptr Hp Hc Hl) as Hv.
    fold c in Hv. split.
    + by rw (classify_verdict (inventory_updates_method self));
        [apply inventory_updates_method_ok|].
    + intros Hle. rw (Hrecent Hle) in Hv.
      by apply (verdict_skipped_by self (inventory_updates_method self)
                  "inventory_updates" _ _ _ SkipRecent); [in_list|..].
  - intros Hle. rw (Hrecent Hle) in Hj. rw (Hrecent Hle) in Hnot.
    split; [|split; [|split; [|split]]].
    + apply (verdict_skipped_by self (jobs_method self) "jobs" _ _ _ SkipRecent);
        [in_list|done| |done]. apply (f_equal inr), Hj.
    + apply (verdict_skipped_by self (ad_hoc_commands_method self)
               "ad_hoc_commands" _ _ _ SkipRecent); [in_list|done| |done].
      apply (f_equal inr), Hj.
    + apply (verdict_skipped_by self (management_jobs_method self)
               "management_jobs" _ _ _ SkipRecent); [in_list|done| |done].
      apply (f_equal inr), Hj.
    + apply (verdict_skipped_by self (workflow_jobs_method self)
               "workflow_jobs" _ _ _ SkipRecent); [in_list|done| |done].
      apply (f_equal inr), Hj.
    + apply (verdict_skipped_by self (notifications_method self)
               "notifications" _ _ _ SkipRecent); [in_list|done| |done].
      apply (f_equal inr), Hnot.
Qed.

(** At the boundary, created equal to the cutoff: job 3 of the example
    store, created on day 100, is skipped with a cutoff of day 100 and
    the method for jobs keeps it; a running notification of that day is
    skipped as recent too. *)
Lemma recent_record_is_skipped_witness :
  classify_job (mkCommand 100 false) (mkRow "failed" 100) = SkipRecent
  ∧ classify_notification (mkCommand 100 false) (mkRow "running" 100)
    = SkipRecent
  ∧ jobs (db (cleanup_jobs (mkCommand 100 false) example_world).2) !! 3
    = Some (mkRow "failed" 100).
Proof.
  assert ("failed" ∉ ["pending"; "waiting"; "running"]) as Hs.
  { apply (bool_decide_unpack _). vm_compute. exact I. }
  assert (¬ ((Some 7 = Some 3 ∨ None = Some 3) ∧ "git" ≠ "")) as Hptr.
  { intros [[H|H] _]; discriminate H. }
  destruct (recent_record_is_skipped (mkCommand 100 false)
              "failed" "running" 100 3 1 (Some 7) None "git"
              example_world Hs ltac:(discriminate) Hptr)
    as ((Hj & _ & _ & _ & Hn) & _ & _ & Hskip).
  split; [exact Hj|]. split; [exact Hn|].
  assert (cutoff (mkCommand 100 false) ≤ 100) as Hle by (simpl; lia).
  destruct (Hskip Hle) as ([_ Hm] & _).
  destruct Hm as ([Hkeep _] & _).
  - vm_compute. reflexivity.
  - exact Hkeep.
Defined.

(** C8: for a notification pending is the only active status: a
    notification is classified SkipActive exactly when its status is
    pending, and a pending one is skipped all the way. With any other
    status, waiting and running among them, and a created time strictly
    before the cutoff it is classified Eligible and deleted all the way:
    its turn of the loop counts it as deleted and, unless the run is a
    dry run, deletes it; the method, which always returns, counts it as
    deleted and removes it from the table; and it is gone after every
    run of the command that goes through the notifications, is not a dry
    run and returns. In the six other categories a record whose status
    is waiting or running is SkipActive. *)
Theorem notification_skips_pending_only (self : Command) (s a : string)
  (t pk parent : Z) (w : World) :
  (classify_notification self (mkRow s t) = SkipActive ↔ s = "pending")
  ∧ skipped_by self (notifications_method self) (cleanup_notifications self)
               pk (mkRow "pending" t) w
  ∧ (s ≠ "pending" → t < cutoff self →
     classify_notification self (mkRow s t) = Eligible
     ∧ deleted_by self (notifications_method self) "notifications"
                  (cleanup_notifications self) pk (mkRow s t) w)
  ∧ (∃ skipped deleted w',
       cleanup_notifications self w = (inr (skipped, deleted), w'))
  ∧ (a ∈ ["waiting"; "running"] →
     classify_job self (mkRow a t) = SkipActive
     ∧ classify_ad_hoc_command self (mkRow a t) = SkipActive
     ∧ classify_project_update self pk (mkProjectUpdate a t parent) w
       = (inr SkipActive, w)
     ∧ classify_inventory_update self pk (mkInventoryUpdate a t parent) w
       = (inr SkipActive, w)
     ∧ classify_management_job self (mkRow a t) = SkipActive
     ∧ classify_workflow_job self (mkRow a t) = SkipActive).
Proof.
  split; [|split; [|split; [|split]]].
  - split; [|by intros ->].
    destruct (decide (s = "pending")) as [->|Hs]; [done|].
    rw passes_status_notification; [done|]. by case_match.
  - by apply (verdict_skipped_by self (notifications_method self)
                "notifications" _ _ _ SkipActive); [in_list|..].
  - intros Hs Ht.
    assert (classify_notification self (mkRow s t) = Eligible) as Hc.
    { rw passes_status_notification; [done|].
      destruct (Z.leb_spec (cutoff self) t); [lia|done]. }
    split; [done|].
    apply (verdict_deleted_by self (notifications_method self) "notifications");
      [in_list|done|]. apply (f_equal inr), Hc.
  - apply simple_cleanup_returns, notifications_method_ok.
  - intros Ha.
    assert (a ∈ ["pending"; "waiting"; "running"]) as Ha' by by right.
    split; [by apply active_job|].
    split; [by apply (active_job self a t)|].
    split; [by apply classify_project_update_active|].
    split; [by apply classify_inventory_update_active|].
    split; by apply (active_job self a t).
Qed.

(** The running notification 5 of the example store, created on day 1,
    with a cutoff of day 100: eligible, and gone from the table when the
    method for notifications has run. *)
Lemma notification_skips_pending_only_witness :
  classify_notification (mkCommand 100 false) (mkRow "running" 1) = Eligible
  ∧ notifications
      (db (cleanup_notifications (mkCommand 100 false) example_world).2) !! 5
    = None.
Proof.
  assert (1 < cutoff (mkCommand 100 false)) as Ht by (simpl; lia).
  destruct (notification_skips_pending_only (mkCommand 100 false) "running"
              "running" 1 5 1 example_world) as (_ & _ & Hdel & _).
  destruct (Hdel ltac:(discriminate) Ht) as (Hc & _ & Hm).
  split; [exact Hc|].
  destruct Hm as (_ & Hrem & _).
  - vm_compute. reflexivity.
  - simpl in Hrem.
    apply (Hrem (0%nat, 1%nat)
                (cleanup_notifications (mkCommand 100 false) example_world).2).
    vm_compute. reflexivity.
Defined.

(** A turn of the loop that returns has added one to exactly one of the
    two counters. *)
Lemma visit_bumps {R} self (m : Method R) row counters counters' w w' :
  visit self m row counters w = (inr counters', w') →
  counters' = (S counters.1, counters.2)
  ∨ counters' = (counters.1, S counters.2).
Proof.
  unfold visit. monad_unfold.
  destruct (classify m row.1 row.2 w) as [[e|c] w1]; [done|].
  unfold branch. monad_unfold. destruct counters as [skipped deleted].
  destruct c, (dry_run self); simpl; intros [= <- _]; auto.
Qed.

(** C5: every turn of a loop adds one to exactly one of the two
    counters; the two counters a method returns add up to the number of
    records of its category in the store it starts from; and with
    integrity the method does return its counters. *)
Theorem every_record_counted_once (self : Command) (name : string) (w : World) :
  name ∈ model_names →
  (∀ R (m : Method R) row counters counters' w1 w1',
     visit self m row counters w1 = (inr counters', w1') →
     counters' = (S counters.1, counters.2)
     ∨ counters' = (counters.1, S counters.2))
  ∧ (∀ skipped deleted w',
       call_method self ("cleanup_" +:+ name) w = (inr (skipped, deleted), w') →
       (skipped + deleted)%nat = record_count name (db w))
  ∧ (integrity (db w) →
     ∃ skipped deleted w',
       call_method self ("cleanup_" +:+ name) w = (inr (skipped, deleted), w')).
Proof.
  intros Hin. pose proof (call_method_counts self name w Hin) as Hc.
  split; [intros R m row counters counters' w1 w1'; apply visit_bumps|]. split.
  - intros skipped deleted w' Hrun. rw Hrun in Hc. simpl in Hc.
    symmetry in Hc. by apply counts_of_total in Hc.
  - intros Hi. destruct (counts_of_answers self name (db w) Hin Hi)
      as ([skipped deleted] & Hcounts).
    rw Hcounts in Hc.
    destruct (call_method self ("cleanup_" +:+ name) w) as [r w'].
    simpl in Hc. subst r. by exists skipped, deleted, w'.
Qed.

Lemma every_record_counted_once_witness :
  (call_method (mkCommand 50 false) "cleanup_jobs" example_world).1
  = inr (2%nat, 1%nat)
  ∧ record_count "jobs" example_store = 3%nat.
Proof.
  assert ("jobs" ∈ model_names) as Hin.
  { apply (bool_decide_unpack _). vm_compute. exact I. }
  destruct (every_record_counted_once (mkCommand 50 false) "jobs"
              example_world Hin) as (_ & Hsum & _).
  split; [vm_compute; reflexivity|].
  symmetry. apply (Hsum 2%nat 1%nat
                     (call_method (mkCommand 50 false) "cleanup_jobs"
                                  example_world).2).
  vm_compute. reflexivity.
Defined.

(** ** Whole runs *)

(** C6: when the horizon is so large that the cutoff cannot be
    represented the command raises its configuration error and the world
    is as it was: no query was issued, nothing was logged, the store is
    untouched; so it is with 999999 days at any time before the year
    2738. When the cutoff can be represented it is [now] minus the days
    and the loops run with it. *)
Theorem overflow_raises_before_storage (options : gmap string pyval)
  (now : Z) (w : World) :
  let days := py_int (options_get options "days" (VInt 90)) in
  let dry := py_bool (options_get options "dry_run" (VBool false)) in
  (¬ (Z.abs days ≤ datetime.MAX_DELTA_DAYS
      ∧ datetime.representable (now - days * datetime.us_per_day)) →
   handle_noargs options now w = (inl (CommandError too_large), w))
  ∧ (days = 999999 → now < 999999 * datetime.us_per_day →
     handle_noargs options now w = (inl (CommandError too_large), w))
  ∧ (Z.abs days ≤ datetime.MAX_DELTA_DAYS →
     datetime.representable (now - days * datetime.us_per_day) →
     compute_cutoff now days = inr (now - days * datetime.us_per_day)
     ∧ handle_noargs options now w
       = atomic (for_each
                   (stage (mkCommand (now - days * datetime.us_per_day) dry)
                          (models_to_cleanup options))
                   model_names tt) w).
Proof.
  intros days dry.
  assert (¬ (Z.abs days ≤ datetime.MAX_DELTA_DAYS
             ∧ datetime.representable (now - days * datetime.us_per_day)) →
          handle_noargs options now w = (inl (CommandError too_large), w)) as H1.
  { intros Hno. destruct (compute_cutoff now days) as [e|cut] eqn:Hc.
    - by eapply handle_noargs_overflow.
    - exfalso. apply Hno. revert Hc.
      unfold compute_cutoff, datetime.timedelta, datetime.sub,
        datetime.representable.
      destruct (Z.leb_spec (Z.abs days) datetime.MAX_DELTA_DAYS); [|done].
      destruct (_ && _) eqn:Hb; [|done]. intros _.
      apply andb_true_iff in Hb as [?%Z.leb_le ?%Z.ltb_lt]. lia. }
  split; [exact H1|]. split.
  - intros Hd Hnow. apply H1. intros [_ [Hr _]]. rw Hd in Hr. lia.
  - intros Habs [Hr1 Hr2].
    assert (compute_cutoff now days = inr (now - days * datetime.us_per_day))
      as Hc.
    { unfold compute_cutoff, datetime.timedelta, datetime.sub.
      rw (proj2 (Z.leb_le _ _) Habs) (proj2 (Z.leb_le _ _) Hr1).
      by rw (proj2 (Z.ltb_lt _ _) Hr2). }
    split; [done|]. by apply handle_noargs_cutoff.
Qed.

(** 999999 days on 2016-01-01. *)
Lemma overflow_raises_before_storage_witness :
  handle_noargs {[ "days" := VInt 999999 ]} (735963 * datetime.us_per_day)
                example_world
  = (inl (CommandError too_large), example_world).
Proof.
  destruct (overflow_raises_before_storage {[ "days" := VInt 999999 ]}
              (735963 * datetime.us_per_day) example_world) as (_ & H & _).
  apply H.
  - vm_compute. reflexivity.
  - vm_compute. reflexivity.
Defined.

(** Integrity, as a property of the four tables it is about. *)
Lemma integrity_tables st :
  map_Forall (λ _ pu, is_Some (projects st !! pu_project pu))
             (project_updates st) →
  map_Forall (λ _ iu, is_Some (inventory_sources st !! iu_inventory_source iu))
             (inventory_updates st) →
  map_Forall (λ _ p, dangling (project_updates st) (p_current_update p) = None
                     ∧ dangling (project_updates st) (p_last_update p) = None)
             (projects st) →
  map_Forall (λ _ s, dangling (inventory_updates st) (s_current_update s) = None
                     ∧ dangling (inventory_updates st) (s_last_update s) = None)
             (inventory_sources st) →
  integrity st.
Proof.
  intros H1 H2 H3 H4. split; [exact H1|]. split; [exact H2|]. split.
  - intros k p Hl. rw -!dangling_resolves. by apply (H3 k).
  - intros k s Hl. rw -!dangling_resolves. by apply (H4 k).
Qed.

Lemma example_store_integrity : integrity example_store.
Proof.
  apply integrity_tables; apply (bool_decide_unpack _); vm_compute; exact I.
Qed.

(** C9: with a cutoff and integrity the run returns; the tables it
    selects from are those of the chosen categories, in the order of the
    model names: the flagged ones when some flag is set, all seven when
    none is; and it logs one summary per chosen category, under the
    category's display name, with the deleted and skipped counters of
    that category. *)
Theorem run_processes_selected (options : gmap string pyval) (now cut : Z)
  (st : Store) :
  compute_cutoff now (py_int (options_get options "days" (VInt 90))) = inr cut →
  integrity st →
  let self :=
    mkCommand cut (py_bool (options_get options "dry_run" (VBool false))) in
  ∃ w', handle_noargs options now (mkWorld st [] []) = (inr tt, w')
        ∧ selects (queries w') = table_of self <$> chosen options
        ∧ Forall2 (λ name report,
                     report.1.1 = replace "_"%char " "%char name
                     ∧ counts_of self name st = inr (report.2, report.1.2))
                  (chosen options) (summaries (logged w')).
Proof.
  intros Hcut Hi self.
  pose proof (handle_noargs_stages options now (mkWorld st [] []) cut Hcut) as H.
  cbv zeta in H. fold self in H.
  destruct (stages_answers self (models_to_cleanup options) model_names
              model_names_Forall st Hi) as (reports & st' & Hs & _).
  change (db (mkWorld st [] [])) with st in H. rw Hs in H.
  destruct H as (w' & Hrun & _ & Hl & Hsel & _). exists w'.
  split; [done|]. split; [done|]. rw Hl. simpl. rw -selected_chosen.
  eapply stages_reports;
    [apply model_names_NoDup|apply model_names_Forall| |exact Hs].
  intros name _. apply same_for_refl.
Qed.

(** Only the flag for jobs set, ten days, on 2016-01-01: one table read,
    one summary. *)
Lemma run_processes_selected_witness :
  ∃ w', handle_noargs {[ "only_jobs" := VBool true; "days" := VInt 10 ]}
                      (735963 * datetime.us_per_day)
                      (mkWorld example_store [] []) = (inr tt, w')
        ∧ selects (queries w') = ["Job"]
        ∧ summaries (logged w') = [("jobs", 2%nat, 1%nat)].
Proof.
  pose proof example_store_integrity as Hi.
  assert (compute_cutoff (735963 * datetime.us_per_day)
            (py_int (options_get
                       {[ "only_jobs" := VBool true; "days" := VInt 10 ]}
                       "days" (VInt 90)))
          = inr (735953 * datetime.us_per_day)) as Hcut.
  { vm_compute. reflexivity. }
  destruct (run_processes_selected
              {[ "only_jobs" := VBool true; "days" := VInt 10 ]}
              (735963 * datetime.us_per_day) (735953 * datetime.us_per_day)
              example_store Hcut Hi) as (w' & Hrun & Hsel & _).
  exists w'. split; [exact Hrun|]. split.
  - rw Hsel. vm_compute. reflexivity.
  - apply (f_equal snd) in Hrun. simpl in Hrun. rw -Hrun.
    vm_compute. reflexivity.
Defined.

Lemma days_insert_dry_run options v :
  py_int (options_get (<["dry_run" := v]> options) "days" (VInt 90))
  = py_int (options_get options "days" (VInt 90)).
Proof. by rw options_get_insert_ne. Qed.

(** C4: a method returns the same counters, or raises the same
    exception, in a dry run and in a run that deletes, from the same
    world; in the dry run the store stays as it is and no deletion is
    issued. So it is for the whole command: the two runs end alike, log
    the same (name, deleted, skipped) summaries when they return, and
    the dry run leaves the store untouched and issues no deletion. *)
Theorem dry_run_counts_and_leaves_store (options : gmap string pyval)
  (now cut : Z) (name : string) (w : World) :
  name ∈ model_names →
  let dry := handle_noargs (<["dry_run" := VBool true]> options) now w in
  let wet := handle_noargs (<["dry_run" := VBool false]> options) now w in
  let dry_m := call_method (mkCommand cut true) ("cleanup_" +:+ name) w in
  let wet_m := call_method (mkCommand cut false) ("cleanup_" +:+ name) w in
  dry_m.1 = wet_m.1
  ∧ db dry_m.2 = db w
  ∧ deletions (queries dry_m.2) = deletions (queries w)
  ∧ dry.1 = wet.1
  ∧ (wet.1 = inr tt → summaries (logged dry.2) = summaries (logged wet.2))
  ∧ db dry.2 = db w
  ∧ deletions (queries dry.2) = deletions (queries w).
Proof.
  intros Hin dry wet dry_m wet_m.
  split.
  { unfold dry_m, wet_m. rw !call_method_counts; [done..|].
    apply counts_of_mode. }
  destruct (call_method_dry (mkCommand cut true) name w Hin eq_refl) as [Hdb Hd].
  split; [exact Hdb|]. split; [exact Hd|].
  unfold dry, wet.
  destruct (compute_cutoff now (py_int (options_get options "days" (VInt 90))))
    as [e|cut'] eqn:Hcut.
  - rw !(handle_noargs_overflow _ now w e); [by rw days_insert_dry_run..|].
    done.
  - pose proof (handle_noargs_stages (<["dry_run" := VBool true]> options)
                  now w cut') as Hdry.
    pose proof (handle_noargs_stages (<["dry_run" := VBool false]> options)
                  now w cut') as Hwet.
    rw days_insert_dry_run in Hdry. rw days_insert_dry_run in Hwet.
    specialize (Hdry Hcut). specialize (Hwet Hcut). cbv zeta in Hdry, Hwet.
    rw options_get_insert models_to_cleanup_insert_dry_run in Hdry.
    rw options_get_insert models_to_cleanup_insert_dry_run in Hwet.
    change (py_bool (VBool true)) with true in Hdry.
    change (py_bool (VBool false)) with false in Hwet.
    pose proof (stages_mode cut' (models_to_cleanup options) model_names
                  model_names_NoDup model_names_Forall (db w) (db w)
                  (λ name' _, same_for_refl _ name' (db w))) as Hmode.
    destruct (stages (mkCommand cut' true) _ _ _) as [e|[reports st']] eqn:Hsd,
      (stages (mkCommand cut' false) _ _ _) as [e'|[reports' st'']];
      simpl in Hmode; try done.
    + destruct Hdry as (wd & -> & Hdbd & Hdd).
      destruct Hwet as (ww & -> & _). simpl. simplify_eq.
      split; [done|]. split; [done|]. split; [done|]. by apply Hdd.
    + destruct Hdry as (wd & -> & Hdbd & Hld & _ & Hdd).
      destruct Hwet as (ww & -> & _ & Hlw & _). simpl. simplify_eq.
      split; [done|]. split; [by rw Hld Hlw|].
      split; [exact (stages_dry (mkCommand cut' true) _ _ _ _ _ eq_refl Hsd)|]. by apply Hdd.
Qed.

(** The jobs of the example store, cutoff 50: two skipped and one
    deleted in either mode, and the dry run keeps all three. *)
Lemma dry_run_counts_and_leaves_store_witness :
  (call_method (mkCommand 50 true) "cleanup_jobs" example_world).1
  = (call_method (mkCommand 50 false) "cleanup_jobs" example_world).1
  ∧ db (call_method (mkCommand 50 true) "cleanup_jobs" example_world).2
    = example_store.
Proof.
  assert ("jobs" ∈ model_names) as Hin.
  { apply (bool_decide_unpack _). vm_compute. exact I. }
  destruct (dry_run_counts_and_leaves_store ∅ 60 50 "jobs" example_world Hin)
    as (Hc & Hdb & _).
  split; [exact Hc|exact Hdb].
Defined.

(** ** The deletions of a run *)

(** A selected category issues as many deletions as it counts deleted,
    none in a dry run. *)
Lemma stage_deleted self (selected : gset string) name w skipped deleted :
  name ∈ model_names → name ∈ selected →
  counts_of self name (db w) = inr (skipped, deleted) →
  length (deletions (queries (stage self selected name tt w).2))
  = (length (deletions (queries w))
     + (if dry_run self then 0 else deleted))%nat.
Proof.
  intros Hin Hsel. unfold stage, counts_of. rw decide_True; [done|].
  destruct (policy_spec self name Hin) as (a & -> & Hok & -> & _).
  destruct a as [R m]. simpl in Hok. intros Hc.
  destruct (cleanup_answer self m Hok w _ Hc) as (w1 & Hrun & _ & Hd & _).
  pose proof (tally_doomed m _ _ _ _ Hc) as Hlen. simpl in Hlen.
  unfold doomed in Hlen. rw length_fmap in Hlen.
  monad_unfold. rw Hrun. revert Hd.
  destruct (dry_run self); simpl; intros ->; rw length_app ?length_fmap /=;
    lia.
Qed.

(** The stages that return have issued as many deletions as their
    summaries count deleted, none in a dry run. *)
Lemma run_deleted self (selected : gset string) names :
  Forall (λ name, name ∈ model_names) names → ∀ w reports st',
  stages self selected names (db w) = inr (reports, st') →
  length (deletions (queries (for_each (stage self selected) names tt w).2))
  = (length (deletions (queries w))
     + (if dry_run self then 0
        else sum_list ((λ report, report.1.2) <$> reports)))%nat.
Proof.
  induction 1 as [|name names Hin Hall IH]; intros w reports st'; simpl.
  - intros [= <- _]. simpl. by destruct (dry_run self); rw Nat.add_0_r.
  - destruct (decide (name ∈ selected)) as [Hsel|Hsel].
    + destruct (counts_of self name (db w)) as [e|[skipped deleted]] eqn:Hc;
        [done|].
      pose proof (stage_deleted self selected name w _ _ Hin Hsel Hc) as Hd.
      destruct (stage_answer self selected name w _ _ Hin Hsel Hc)
        as (w1 & Hrun & Hdb & _).
      rw Hrun in Hd. simpl in Hd. monad_unfold. rw Hrun.
      specialize (IH w1). rw Hdb in IH.
      destruct (stages self selected names _) as [e|[reports' st'']]; [done|].
      intros [= <- <-]. rw (IH _ _ eq_refl) Hd. simpl.
      destruct (dry_run self); [lia|]. by rw Nat.add_assoc.
    + monad_unfold. rw stage_skip; [done|]. apply IH.
Qed.

Lemma handle_noargs_deleted options now w cut w' reports st' :
  compute_cutoff now (py_int (options_get options "days" (VInt 90))) = inr cut →
  let self :=
    mkCommand cut (py_bool (options_get options "dry_run" (VBool false))) in
  handle_noargs options now w = (inr tt, w') →
  stages self (models_to_cleanup options) model_names (db w)
  = inr (reports, st') →
  length (deletions (queries w'))
  = (length (deletions (queries w))
     + (if dry_run self then 0
        else sum_list ((λ report, report.1.2) <$> reports)))%nat.
Proof.
  intros Hcut self Hrun Hs.
  pose proof (run_deleted self _ model_names model_names_Forall w _ _ Hs)
    as Hlen.
  rw (handle_noargs_cutoff _ _ _ _ Hcut) in Hrun. fold self in Hrun.
  unfold atomic in Hrun.
  destruct (for_each (stage self (models_to_cleanup options)) model_names tt w)
    as [[e|[]] w1]; [done|]. by injection Hrun as <-.
Qed.

(** ** A second run *)

(** A method that deleted nothing left the store as it was. *)
Lemma swept_idle {R} (m : Method R) st skipped :
  counts m st = inr (skipped, 0%nat) → swept m st = st.
Proof.
  intros Hc%tally_doomed. simpl in Hc.
  unfold swept, purge. symmetry in Hc. apply nil_length_inv in Hc.
  by rw Hc.
Qed.

Lemma swept_of_idle self name st skipped :
  counts_of self name st = inr (skipped, 0%nat) → swept_of self name st = st.
Proof.
  unfold counts_of, swept_of. destruct (policy self name) as [[R m]|]; [|done].
  apply swept_idle.
Qed.

(** Two chains that agree on the rows that the first does not find
    eligible: when the first deletes nothing, so does the second, and
    they skip as many. *)
Lemma tally_idle_ext {R} (m m' : Method R) st (rows : list (Z * R))
  counters skipped :
  (∀ row c, row ∈ rows → verdict m st row.1 row.2 = inr c → c ≠ Eligible →
            verdict m' st row.1 row.2 = inr c) →
  tally m st rows counters = inr (skipped, counters.2) →
  tally m' st rows counters = inr (skipped, counters.2).
Proof.
  revert counters. induction rows as [|row rows IH]; intros counters Hsame;
    [done|].
  simpl. destruct (verdict m st row.1 row.2) as [e|c] eqn:Hv; [done|].
  intros Ht. pose proof (tally_doomed m _ _ _ _ Ht) as Hlen. simpl in Hlen.
  assert (c ≠ Eligible) as Hc.
  { intros ->. simpl in Hlen. lia. }
  rw (Hsame row c); [by left|done|done|].
  assert ((bump c counters).2 = counters.2) as Hb by by destruct c.
  rw -Hb. apply IH; [|by rw Hb].
  intros row' c' Hin. apply Hsame. by right.
Qed.

Lemma classify_job_settled self self' r c :
  ¬ (cutoff self ≤ created r < cutoff self') →
  classify_job self r = c → c ≠ Eligible → classify_job self' r = c.
Proof.
  unfold classify_job. intros Hno. case_bool_decide; [done|].
  destruct (Z.geb_spec (created r) (cutoff self)); [|by intros <-].
  intros <- _. destruct (Z.geb_spec (created r) (cutoff self')); [done|lia].
Qed.

Lemma classify_notification_settled self self' r c :
  ¬ (cutoff self ≤ created r < cutoff self') →
  classify_notification self r = c → c ≠ Eligible →
  classify_notification self' r = c.
Proof.
  unfold classify_notification. intros Hno. case_bool_decide; [done|].
  destruct (Z.geb_spec (created r) (cutoff self)); [|by intros <-].
  intros <- _. destruct (Z.geb_spec (created r) (cutoff self')); [done|lia].
Qed.

Lemma verdict_project_update_settled self self' st pk pu c :
  ¬ (cutoff self ≤ pu_created pu < cutoff self') →
  verdict (project_updates_method self) st pk pu = inr c → c ≠ Eligible →
  verdict (project_updates_method self') st pk pu = inr c.
Proof.
  rw !verdict_project_update. intros Hno. case_bool_decide; [done|].
  destruct (projects st !! pu_project pu) as [p|]; [|done].
  destruct (dangling _ (p_current_update p)); [done|].
  destruct (dangling _ (p_last_update p)); [done|].
  destruct (_ && _); [done|].
  destruct (Z.geb_spec (pu_created pu) (cutoff self)); [|by intros [= <-]].
  intros [= <-] _. f_equal.
  destruct (Z.geb_spec (pu_created pu) (cutoff self')); [done|lia].
Qed.

Lemma verdict_inventory_update_settled self self' st pk iu c :
  ¬ (cutoff self ≤ iu_created iu < cutoff self') →
  verdict (inventory_updates_method self) st pk iu = inr c → c ≠ Eligible →
  verdict (inventory_updates_method self') st pk iu = inr c.
Proof.
  rw !verdict_inventory_update. intros Hno. case_bool_decide; [done|].
  destruct (inventory_sources st !! iu_inventory_source iu) as [p|]; [|done].
  destruct (dangling _ (s_current_update p)); [done|].
  destruct (dangling _ (s_last_update p)); [done|].
  destruct (_ && _); [done|].
  destruct (Z.geb_spec (iu_created iu) (cutoff self)); [|by intros [= <-]].
  intros [= <-] _. f_equal.
  destruct (Z.geb_spec (iu_created iu) (cutoff self')); [done|lia].
Qed.

(** A category that deletes nothing with the cutoff of [self] deletes
    nothing with that of [self'] either, and skips as many, when no
    record of the store lies between the two cutoffs. *)
Lemma counts_of_settled self self' name st skipped :
  name ∈ model_names →
  none_between (cutoff self) (cutoff self') st →
  counts_of self name st = inr (skipped, 0%nat) →
  counts_of self' name st = inr (skipped, 0%nat).
Proof.
  intros Hin (Hj & Ha & Hp & Hi & Hm & Hw & Hn).
  each_model Hin;
    cbv [counts_of policy policies assoc String.eqb Ascii.eqb Bool.eqb];
    apply (tally_idle_ext _ _ _ _ (0%nat, 0%nat));
    intros [pk r] c Hrow%elem_of_map_to_list; simpl in *.
  - unfold jobs_method. rw !verdict_simple. intros [= Hc] Hne. f_equal.
    by eapply classify_job_settled; [eapply Hj|..].
  - unfold ad_hoc_commands_method. rw !verdict_simple. intros [= Hc] Hne.
    f_equal. by eapply (classify_job_settled self); [eapply Ha|..].
  - by eapply verdict_project_update_settled, Hp.
  - by eapply verdict_inventory_update_settled, Hi.
  - unfold management_jobs_method. rw !verdict_simple. intros [= Hc] Hne.
    f_equal. by eapply (classify_job_settled self); [eapply Hm|..].
  - unfold workflow_jobs_method. rw !verdict_simple. intros [= Hc] Hne.
    f_equal. by eapply (classify_job_settled self); [eapply Hw|..].
  - unfold notifications_method. rw !verdict_simple. intros [= Hc] Hne.
    f_equal. by eapply classify_notification_settled; [eapply Hn|..].
Qed.

(** Stages that delete nothing are the same for a command for which
    every selected category has the same counters. *)
Lemma stages_settled self self' (selected : gset string) names :
  dry_run self = false → dry_run self' = false →
  Forall (λ name, name ∈ model_names) names → ∀ st reports st',
  (∀ name, name ∈ names → name ∈ selected →
     ∃ skipped, counts_of self name st = inr (skipped, 0%nat)
                ∧ counts_of self' name st = inr (skipped, 0%nat)) →
  stages self selected names st = inr (reports, st') →
  stages self' selected names st = inr (reports, st').
Proof.
  intros Hdry Hdry' Hall. induction Hall as [|name names Hin Hall IH];
    intros st reports st' Hsame; [done|].
  simpl. case_decide as Hsel.
  - destruct (Hsame name) as (skipped & Hc & Hc'); [by left|done|].
    rw Hc Hc' Hdry Hdry' (swept_of_idle _ _ _ _ Hc) (swept_of_idle _ _ _ _ Hc').
    destruct (stages self selected names st) as [e|[reports' st'']] eqn:Hs;
      [done|].
    intros [= <- <-]. erewrite IH; [done| |exact Hs].
    intros name' Hin' Hsel'. apply Hsame; [by right|done].
  - apply IH. intros name' Hin' Hsel'. apply Hsame; [by right|done].
Qed.

(** [none_between], table by table. *)
Lemma none_between_tables cut cut' st :
  map_Forall (λ _ r, ¬ (cut ≤ created r < cut')) (jobs st) →
  map_Forall (λ _ r, ¬ (cut ≤ created r < cut')) (ad_hoc_commands st) →
  map_Forall (λ _ r, ¬ (cut ≤ pu_created r < cut')) (project_updates st) →
  map_Forall (λ _ r, ¬ (cut ≤ iu_created r < cut')) (inventory_updates st) →
  map_Forall (λ _ r, ¬ (cut ≤ created r < cut')) (system_jobs st) →
  map_Forall (λ _ r, ¬ (cut ≤ created r < cut')) (workflow_jobs st) →
  map_Forall (λ _ r, ¬ (cut ≤ created r < cut')) (notifications st) →
  none_between cut cut' st.
Proof. intros. by repeat split. Qed.

(** C7 as it stands fails: the command reads the clock in every run. A
    job created exactly at the cutoff of the first run is skipped by it,
    and deleted by the same run one microsecond later, over the store
    the first run left, with no record created in between. *)
Lemma second_run_can_delete :
  let options : gmap string pyval := {[ "days" := VInt 10 ]} in
  let st := mkStore {[ 1 := mkRow "successful" (735953 * datetime.us_per_day) ]}
                    ∅ ∅ ∅ ∅ ∅ ∅ ∅ ∅ in
  let first := handle_noargs options (735963 * datetime.us_per_day)
                             (mkWorld st [] []) in
  let second := handle_noargs options (735963 * datetime.us_per_day + 1)
                              (mkWorld (db first.2) [] []) in
  py_bool (options_get options "dry_run" (VBool false)) = false
  ∧ first.1 = inr tt
  ∧ db first.2 = st
  ∧ summaries (logged first.2) !! 0%nat = Some ("jobs", 0%nat, 1%nat)
  ∧ second.1 = inr tt
  ∧ summaries (logged second.2) !! 0%nat = Some ("jobs", 1%nat, 0%nat)
  ∧ deletions (queries second.2) = [("Job", 1)]
  ∧ jobs (db second.2) !! 1 = None.
Proof. vm_compute. done. Qed.

(** C7, amended: a run that deletes and returns has removed from the
    tables exactly the eligible rows of the categories it went through.
    The same run over the store it left, at a later or an earlier
    reading of the clock, returns too, logs for every category the
    summary of the first run with zero deleted and the same number
    skipped, and leaves the store as it found it, provided no record of
    that store was created at or after the first cutoff and before the
    second; there is no such record when the second cutoff is not after
    the first, as when the clock reads the same. *)
Theorem second_run_deletes_nothing (options : gmap string pyval)
  (now now' cut cut' : Z) (st : Store) (w1 : World) :
  let days := py_int (options_get options "days" (VInt 90)) in
  py_bool (options_get options "dry_run" (VBool false)) = false →
  compute_cutoff now days = inr cut →
  compute_cutoff now' days = inr cut' →
  handle_noargs options now (mkWorld st [] []) = (inr tt, w1) →
  none_between cut cut' (db w1) →
  tables_without (mkCommand cut false) st (db w1)
                 (λ name, name ∈ chosen options)
  ∧ ∃ w2, handle_noargs options now' (mkWorld (db w1) [] []) = (inr tt, w2)
          ∧ summaries (logged w2)
            = (λ report, (report.1.1, 0%nat, report.2))
                <$> summaries (logged w1)
          ∧ db w2 = db w1
          ∧ deletions (queries w2) = [].
Proof.
  intros days Hwet Hcut Hcut' Hrun Hnone.
  pose proof (handle_noargs_stages options now (mkWorld st [] []) cut Hcut)
    as H1.
  pose proof (handle_noargs_stages options now' (mkWorld (db w1) [] []) cut'
                Hcut') as H2.
  cbv zeta in H1, H2. rw Hwet in H1. rw Hwet in H2.
  change (db (mkWorld st [] [])) with st in H1.
  change (db (mkWorld (db w1) [] [])) with (db w1) in H2.
  destruct (stages (mkCommand cut false) (models_to_cleanup options)
              model_names st) as [e|[reports st']] eqn:Hs.
  { destruct H1 as (w' & Hrun' & _). rw Hrun in Hrun'. done. }
  destruct H1 as (w' & Hrun' & Hdb & Hl & _).
  rw Hrun in Hrun'. injection Hrun' as <-. simpl in Hl. subst st'.
  split.
  - destruct (run_store _ _ _ _ _ Hrun)
      as [[_ Hd]|(cut0 & Hcut0 & _ & _ & Hrem & Hans)].
    { rw (Hd eq_refl) in Hwet. done. }
    fold days in Hcut0. rw Hcut in Hcut0. injection Hcut0 as <-.
    by apply (remains_tables _ _ _ (models_to_cleanup options));
      [apply elem_of_chosen|..].
  - pose proof (stages_again (mkCommand cut false) (models_to_cleanup options)
                  model_names eq_refl model_names_NoDup model_names_Forall
                  _ _ _ Hs) as Hs2.
    assert (stages (mkCommand cut' false) (models_to_cleanup options)
                   model_names (db w1)
            = inr ((λ report, (report.1.1, 0%nat, report.2)) <$> reports,
                   db w1)) as Hs2'.
    { apply (stages_settled (mkCommand cut false) (mkCommand cut' false) _ _
               eq_refl eq_refl model_names_Forall); [|exact Hs2].
      intros name Hin Hsel.
      pose proof (stages_reports (mkCommand cut false) _ model_names
                    model_names_NoDup model_names_Forall (db w1) (db w1) _ _
                    (λ name' _, same_for_refl _ name' (db w1)) Hs2) as Hrep.
      destruct (Forall2_elem_of_l _ _ _ name Hrep) as (report & Hr & _ & Hc).
      { by apply list_elem_of_filter. }
      apply list_elem_of_fmap in Hr as (report' & -> & _). simpl in Hc.
      exists report'.2. split; [done|].
      by apply (counts_of_settled (mkCommand cut false) (mkCommand cut' false)). }
    rw Hs2' in H2.
    destruct H2 as (w2 & Hrun2 & Hdb2 & Hl2 & _). exists w2.
    split; [done|]. split; [by rw Hl2 Hl|]. split; [done|].
    pose proof (handle_noargs_deleted options now' (mkWorld (db w1) [] [])
                  cut' w2
                  ((λ report, (report.1.1, 0%nat, report.2)) <$> reports)
                  (db w1) Hcut' Hrun2) as Hdel.
    cbv zeta in Hdel. rw Hwet in Hdel. specialize (Hdel Hs2'). simpl in Hdel.
    apply nil_length_inv. rw Hdel. clear. induction reports as [|r rs IH];
      [done|]. exact IH.
Qed.

(** The example store, ten days, on 2016-01-01, then again a day later:
    the second run skips what the first left; no record of the example
    store is of the ten days before 2016. *)
Lemma second_run_deletes_nothing_witness :
  ∃ w1 w2,
    handle_noargs {[ "days" := VInt 10 ]} (735963 * datetime.us_per_day)
                  (mkWorld example_store [] []) = (inr tt, w1)
    ∧ handle_noargs {[ "days" := VInt 10 ]} (735964 * datetime.us_per_day)
                    (mkWorld (db w1) [] []) = (inr tt, w2)
    ∧ summaries (logged w2)
      = (λ report, (report.1.1, 0%nat, report.2)) <$> summaries (logged w1)
    ∧ jobs (db w1) !! 1 = None.
Proof.
  set (w1 := (handle_noargs {[ "days" := VInt 10 ]}
                (735963 * datetime.us_per_day)
                (mkWorld example_store [] [])).2).
  assert (none_between (735953 * datetime.us_per_day)
                       (735954 * datetime.us_per_day) (db w1)) as Hnone.
  { apply none_between_tables; apply (bool_decide_unpack _); vm_compute;
      exact I. }
  destruct (second_run_deletes_nothing {[ "days" := VInt 10 ]}
              (735963 * datetime.us_per_day) (735964 * datetime.us_per_day)
              (735953 * datetime.us_per_day) (735954 * datetime.us_per_day)
              example_store w1) as (_ & w2 & Hrun2 & Hl & _).
  - vm_compute. reflexivity.
  - vm_compute. reflexivity.
  - vm_compute. reflexivity.
  - vm_compute. reflexivity.
  - exact Hnone.
  - exists w1, w2. split; [vm_compute; reflexivity|].
    split; [exact Hrun2|]. split; [exact Hl|]. vm_compute. reflexivity.
Defined.

(** ** A horizon of zero or fewer days *)

Lemma counts_of_raises self name st e :
  name ∈ model_names → counts_of self name st = inl e →
  ∃ t k, e = DoesNotExist t k.
Proof.
  intros Hin. unfold counts_of.
  destruct (policy_spec self name Hin) as (a & -> & Hok & _).
  destruct a as [R m]. by apply tally_raises.
Qed.

Lemma stages_raises self (selected : gset string) names :
  Forall (λ name, name ∈ model_names) names → ∀ st e,
  stages self selected names st = inl e → ∃ t k, e = DoesNotExist t k.
Proof.
  induction 1 as [|name names Hin Hall IH]; intros st e; [done|]. simpl.
  case_decide; [|by apply IH].
  destruct (counts_of self name st) as [e'|[skipped deleted]] eqn:Hc.
  - intros [= <-]. by eapply counts_of_raises.
  - destruct (stages self selected names _) as [e'|[reports st']] eqn:Hs; [|done].
    intros [= <-]. by eapply IH.
Qed.

(** With a cutoff the command does not raise its configuration error. *)
Lemma handle_noargs_no_command_error options now w cut msg :
  compute_cutoff now (py_int (options_get options "days" (VInt 90))) = inr cut →
  (handle_noargs options now w).1 ≠ inl (CommandError msg).
Proof.
  intros Hcut. pose proof (handle_noargs_stages options now w cut Hcut) as H.
  cbv zeta in H.
  destruct (stages _ (models_to_cleanup options) model_names (db w))
    as [e|[reports st']] eqn:Hs.
  - destruct H as (w' & -> & _). simpl. intros [= ->].
    by destruct (stages_raises _ _ _ model_names_Forall _ _ Hs) as (t & k & ?).
  - by destruct H as (w' & -> & _).
Qed.

(** C10 as it stands fails: three million days into the future from
    2016-01-01 is past the year 9999, and the command raises its
    configuration error although the days are negative. *)
Lemma nonpositive_horizon_can_raise :
  py_int (options_get {[ "days" := VInt (-3000000) ]} "days" (VInt 90)) ≤ 0
  ∧ datetime.representable (735963 * datetime.us_per_day)
  ∧ handle_noargs {[ "days" := VInt (-3000000) ]}
                  (735963 * datetime.us_per_day) example_world
    = (inl (CommandError too_large), example_world).
Proof.
  split; [by vm_compute|]. split; [by vm_compute|]. vm_compute. reflexivity.
Qed.

(** With zero days the cutoff is the reading of the clock, and a record
    created at that very reading is at the cutoff, and skipped. *)
Remark created_now_is_recent now :
  datetime.representable now →
  compute_cutoff now 0 = inr now
  ∧ classify_job (mkCommand now false) (mkRow "successful" now) = SkipRecent.
Proof.
  intros [H1 H2]. split.
  - unfold compute_cutoff, datetime.timedelta, datetime.sub. simpl.
    rw Z.sub_0_r (proj2 (Z.leb_le _ _) H1) (proj2 (Z.ltb_lt _ _) H2). done.
  - rw passes_status_job; [by apply (bool_decide_unpack _)|].
    simpl. by rw Z.leb_refl.
Qed.

(** C10, amended: the days are not checked to be positive. For zero or
    fewer days whose cutoff is still representable the command does not
    raise its configuration error, and returns when the store has
    integrity; the cutoff is at or after the reading of the clock; and
    every record created strictly before the cutoff, so every record
    created before the run began, that is in a terminal status and is
    not protected by its parent is classified Eligible and deleted all
    the way: by its turn of the loop, by the method of its category, and
    by the run itself, which, when it is not a dry run and returns, has
    removed from the tables exactly the eligible rows of the categories
    it went through. For an update the parent is there and its two
    pointers refer to updates that are there. *)
Theorem nonpositive_horizon_makes_old_records_eligible
  (options : gmap string pyval) (now cut : Z) (w : World) :
  let days := py_int (options_get options "days" (VInt 90)) in
  let dry := py_bool (options_get options "dry_run" (VBool false)) in
  let self := mkCommand cut dry in
  days ≤ 0 →
  compute_cutoff now days = inr cut →
  now ≤ cut
  ∧ (∀ msg, (handle_noargs options now w).1 ≠ inl (CommandError msg))
  ∧ (integrity (db w) → (handle_noargs options now w).1 = inr tt)
  ∧ (∀ (s n : string) (t pk : Z),
       s ∉ ["pending"; "waiting"; "running"] → n ≠ "pending" → t < cut →
       (classify_job self (mkRow s t) = Eligible
        ∧ classify_ad_hoc_command self (mkRow s t) = Eligible
        ∧ classify_management_job self (mkRow s t) = Eligible
        ∧ classify_workflow_job self (mkRow s t) = Eligible
        ∧ classify_notification self (mkRow n t) = Eligible)
       ∧ deleted_by self (jobs_method self) "jobs" (cleanup_jobs self)
                    pk (mkRow s t) w
       ∧ deleted_by self (ad_hoc_commands_method self) "ad_hoc_commands"
                    (cleanup_ad_hoc_commands self) pk (mkRow s t) w
       ∧ deleted_by self (management_jobs_method self) "management_jobs"
                    (cleanup_management_jobs self) pk (mkRow s t) w
       ∧ deleted_by self (workflow_jobs_method self) "workflow_jobs"
                    (cleanup_workflow_jobs self) pk (mkRow s t) w
       ∧ deleted_by self (notifications_method self) "notifications"
                    (cleanup_notifications self) pk (mkRow n t) w)
  ∧ (∀ (s : string) (t pk parent : Z) (current last : option Z)
       (src : string),
       s ∉ ["pending"; "waiting"; "running"] → t < cut →
       ¬ ((current = Some pk ∨ last = Some pk) ∧ src ≠ "") →
       (projects (db w) !! parent = Some (mkProject current last src) →
        resolves (project_updates (db w)) current →
        resolves (project_updates (db w)) last →
        (classify_project_update self pk (mkProjectUpdate s t parent) w).1
        = inr Eligible
        ∧ deleted_by self (project_updates_method self) "project_updates"
                     (cleanup_project_updates self) pk
                     (mkProjectUpdate s t parent) w)
       ∧ (inventory_sources (db w) !! parent
          = Some (mkInventorySource current last src) →
          resolves (inventory_updates (db w)) current →
          resolves (inventory_updates (db w)) last →
          (classify_inventory_update self pk (mkInventoryUpdate s t parent) w).1
          = inr Eligible
          ∧ deleted_by self (inventory_updates_method self) "inventory_updates"
                       (cleanup_inventory_updates self) pk
                       (mkInventoryUpdate s t parent) w))
  ∧ (dry = false →
     ∀ w', handle_noargs options now w = (inr tt, w') →
           tables_without self (db w) (db w') (λ name, name ∈ chosen options)).
Proof.
  intros days dry self Hdays Hcut.
  destruct (compute_cutoff_returns _ _ _ Hcut) as [Hcuteq _].
  split.
  { rw Hcuteq. unfold datetime.us_per_day. lia. }
  split.
  { intros msg. by eapply handle_noargs_no_command_error. }
  split.
  { intros Hint.
    by destruct (handle_noargs_returns options now w cut Hcut Hint)
      as (w' & -> & _). }
  split; [|split].
  - intros s n t pk Hs Hn Ht.
    pose proof (passes_status_job self s t Hs) as Hj.
    pose proof (passes_status_notification self n t Hn) as Hnot.
    assert ((cutoff self <=? t) = false) as Hlt by by apply Z.leb_gt.
    rw Hlt in Hj. rw Hlt in Hnot.
    split; [done|]. split; [|split; [|split; [|split]]].
    + apply (verdict_deleted_by self (jobs_method self) "jobs");
        [in_list|done|]. apply (f_equal inr), Hj.
    + apply (verdict_deleted_by self (ad_hoc_commands_method self)
               "ad_hoc_commands"); [in_list|done|]. apply (f_equal inr), Hj.
    + apply (verdict_deleted_by self (management_jobs_method self)
               "management_jobs"); [in_list|done|]. apply (f_equal inr), Hj.
    + apply (verdict_deleted_by self (workflow_jobs_method self)
               "workflow_jobs"); [in_list|done|]. apply (f_equal inr), Hj.
    + apply (verdict_deleted_by self (notifications_method self)
               "notifications"); [in_list|done|]. apply (f_equal inr), Hnot.
  - intros s t pk parent current last src Hs Ht Hptr.
    assert ((cutoff self <=? t) = false) as Hlt by by apply Z.leb_gt.
    split.
    + intros Hp Hc Hl.
      pose proof (unprotected_project_update self s t pk parent current last
                    src (db w) Hs Hptr Hp Hc Hl) as Hv.
      rw Hlt in Hv. split.
      * by rw (classify_verdict (project_updates_method self));
          [apply project_updates_method_ok|].
      * by apply (verdict_deleted_by self (project_updates_method self)
                    "project_updates"); [in_list|..].
    + intros Hp Hc Hl.
      pose proof (unprotected_inventory_update self s t pk parent current last
                    src (db w) Hs Hptr Hp Hc Hl) as Hv.
      rw Hlt in Hv. split.
      * by rw (classify_verdict (inventory_updates_method self));
          [apply inventory_updates_method_ok|].
      * by apply (verdict_deleted_by self (inventory_updates_method self)
                    "inventory_updates"); [in_list|..].
  - intros Hdry w' Hrun.
    destruct (run_store _ _ _ _ _ Hrun)
      as [[_ Hd]|(cut0 & Hcut0 & _ & _ & Hrem & Hans)].
    { fold dry in Hd. rw (Hd eq_refl) in Hdry. done. }
    fold days in Hcut0. rw Hcut in Hcut0. injection Hcut0 as <-.
    unfold self. rw Hdry.
    by apply (remains_tables _ _ _ (models_to_cleanup options));
      [apply elem_of_chosen|..].
Qed.

(** Zero days on 2016-01-01 over the example store: the cutoff is the
    reading of the clock, job 1, created on day 5, is eligible, and the
    run has taken it from the table. *)
Lemma nonpositive_horizon_makes_old_records_eligible_witness :
  735963 * datetime.us_per_day ≤ 735963 * datetime.us_per_day
  ∧ classify_job (mkCommand (735963 * datetime.us_per_day) false)
                 (mkRow "successful" 5) = Eligible
  ∧ jobs (db (handle_noargs {[ "days" := VInt 0 ]}
                (735963 * datetime.us_per_day) example_world).2) !! 1 = None.
Proof.
  assert (py_int (options_get {[ "days" := VInt 0 ]} "days" (VInt 90)) ≤ 0)
    as Hdays by (vm_compute; discriminate).
  assert (compute_cutoff (735963 * datetime.us_per_day)
            (py_int (options_get {[ "days" := VInt 0 ]} "days" (VInt 90)))
          = inr (735963 * datetime.us_per_day)) as Hcut.
  { vm_compute. reflexivity. }
  assert ("successful" ∉ ["pending"; "waiting"; "running"]) as Hs.
  { apply (bool_decide_unpack _). vm_compute. exact I. }
  assert (5 < 735963 * datetime.us_per_day) as Ht by (vm_compute; reflexivity).
  destruct (nonpositive_horizon_makes_old_records_eligible
              {[ "days" := VInt 0 ]} (735963 * datetime.us_per_day)
              (735963 * datetime.us_per_day) example_world Hdays Hcut)
    as (Hle & _ & _ & Hrow & _ & Hrun).
  split; [exact Hle|].
  destruct (Hrow "successful" "running" 5 1 Hs ltac:(discriminate) Ht)
    as ((Hj & _) & _).
  split; [exact Hj|].
  destruct (Hrun eq_refl
              (handle_noargs {[ "days" := VInt 0 ]}
                 (735963 * datetime.us_per_day) example_world).2)
    as (Hjobs & _).
  - vm_compute. reflexivity.
  - destruct (jobs _ !! 1) as [r|] eqn:Hl; [|reflexivity].
    apply Hjobs in Hl as [Hl Hno]. exfalso. apply Hno. split.
    + apply (bool_decide_unpack _). vm_compute. exact I.
    + injection Hl as <-. split; [exact Hs|exact Ht].
Defined.

(** * More of the command *)

(** ** The store after a run *)

(** X1: a run that deletes and returns removes from the seven tables
    exactly the rows that are eligible in the categories the run goes
    through; every other row is still there, unchanged, and no row is
    added. A row is eligible when its status is not an active one and it
    was created strictly before the cutoff; an update, in addition, when
    its parent does not protect it. A parent protects an update when the
    update is its current or its last update and its scm type (source)
    is not empty: the current or last update of a parent whose scm type
    is empty is eligible, and removed. *)
Theorem run_deletes_exactly_eligible (options : gmap string pyval)
  (now cut : Z) (st : Store) (w' : World) :
  compute_cutoff now (py_int (options_get options "days" (VInt 90))) = inr cut →
  py_bool (options_get options "dry_run" (VBool false)) = false →
  handle_noargs options now (mkWorld st [] []) = (inr tt, w') →
  tables_without (mkCommand cut false) st (db w')
                 (λ name, name ∈ chosen options).
Proof.
  intros Hcut Hdry Hrun.
  destruct (run_store _ _ _ _ _ Hrun)
    as [[_ Hd]|(cut' & Hcut' & _ & _ & Hrem & Hans)].
  { rw (Hd eq_refl) in Hdry. done. }
  rw Hcut in Hcut'. injection Hcut' as <-.
  by apply (remains_tables _ _ _ (models_to_cleanup options));
    [apply elem_of_chosen|..].
Qed.

(** Ten days on 2016-01-01 over the example store, all categories: the
    two old jobs are gone, the running one is there, and so is update 7,
    which its project points at. *)
Lemma run_deletes_exactly_eligible_witness :
  let w' := (handle_noargs {[ "days" := VInt 10 ]}
               (735963 * datetime.us_per_day)
               (mkWorld example_store [] [])).2 in
  tables_without (mkCommand (735953 * datetime.us_per_day) false)
                 example_store (db w')
                 (λ name, name ∈ chosen {[ "days" := VInt 10 ]})
  ∧ jobs (db w') !! 1 = None
  ∧ jobs (db w') !! 2 = Some (mkRow "running" 1)
  ∧ project_updates (db w') !! 7 = Some (mkProjectUpdate "successful" 3 1)
  ∧ project_updates (db w') !! 8 = None.
Proof.
  intros w'. split.
  - apply (run_deletes_exactly_eligible {[ "days" := VInt 10 ]}
             (735963 * datetime.us_per_day)).
    + vm_compute. reflexivity.
    + vm_compute. reflexivity.
    + vm_compute. reflexivity.
  - vm_compute. repeat split.
Defined.

(** ** Runs that raise *)

Lemma tally_raises_row {R} (m : Method R) st (rows : list (Z * R)) counters e :
  tally m st rows counters = inl e →
  ∃ row, row ∈ rows ∧ verdict m st row.1 row.2 = inl e.
Proof.
  revert counters. induction rows as [|row rows IH]; intros counters; [done|].
  simpl. destruct (verdict m st row.1 row.2) as [e'|c] eqn:Hv.
  - intros [= <-]. exists row. by split; [left|].
  - intros (row' & Hin & Hv')%IH. exists row'. by split; [right|].
Qed.

(** The chain of a kind of update raises for a row exactly when the
    row is not in an active status and cannot be followed to the end,
    and what it raises is the [DoesNotExist] of one of the two models it
    follows. *)
Lemma verdict_project_update_raises self st pk pu :
  (∃ e, verdict (project_updates_method self) st pk pu = inl e)
  ↔ (pu_status pu ∉ ["pending"; "waiting"; "running"])
    ∧ ∀ p, projects st !! pu_project pu = Some p →
           ¬ (resolves (project_updates st) (p_current_update p)
              ∧ resolves (project_updates st) (p_last_update p)).
Proof.
  rw verdict_project_update. case_bool_decide as Hs.
  { split; [by intros [e ?]|]. by intros [? _]. }
  destruct (projects st !! pu_project pu) as [p|].
  - pose proof (dangling_resolves (project_updates st) (p_current_update p))
      as Hc.
    pose proof (dangling_resolves (project_updates st) (p_last_update p))
      as Hl.
    destruct (dangling _ (p_current_update p)).
    { split; [|by eexists]. intros _. split; [done|].
      intros p' [= <-] [Hr _]. by apply Hc in Hr. }
    destruct (dangling _ (p_last_update p)).
    { split; [|by eexists]. intros _. split; [done|].
      intros p' [= <-] [_ Hr]. by apply Hl in Hr. }
    split; [by intros [e ?]|]. intros [_ Hno]. exfalso.
    apply (Hno p eq_refl). split; [by apply Hc|by apply Hl].
  - split; [|by eexists]. intros _. by split.
Qed.

Lemma verdict_inventory_update_raises self st pk iu :
  (∃ e, verdict (inventory_updates_method self) st pk iu = inl e)
  ↔ (iu_status iu ∉ ["pending"; "waiting"; "running"])
    ∧ ∀ s, inventory_sources st !! iu_inventory_source iu = Some s →
           ¬ (resolves (inventory_updates st) (s_current_update s)
              ∧ resolves (inventory_updates st) (s_last_update s)).
Proof.
  rw verdict_inventory_update. case_bool_decide as Hs.
  { split; [by intros [e ?]|]. by intros [? _]. }
  destruct (inventory_sources st !! iu_inventory_source iu) as [p|].
  - pose proof (dangling_resolves (inventory_updates st) (s_current_update p))
      as Hc.
    pose proof (dangling_resolves (inventory_updates st) (s_last_update p))
      as Hl.
    destruct (dangling _ (s_current_update p)).
    { split; [|by eexists]. intros _. split; [done|].
      intros p' [= <-] [Hr _]. by apply Hc in Hr. }
    destruct (dangling _ (s_last_update p)).
    { split; [|by eexists]. intros _. split; [done|].
      intros p' [= <-] [_ Hr]. by apply Hl in Hr. }
    split; [by intros [e ?]|]. intros [_ Hno]. exfalso.
    apply (Hno p eq_refl). split; [by apply Hc|by apply Hl].
  - split; [|by eexists]. intros _. by split.
Qed.

Lemma verdict_project_update_exn self st pk pu e :
  verdict (project_updates_method self) st pk pu = inl e →
  ∃ t k, e = DoesNotExist t k ∧ t ∈ ["Project"; "ProjectUpdate"].
Proof.
  rw verdict_project_update.
  repeat case_match; try done; intros [= <-]; eexists _, _;
    (split; [reflexivity|]); [by right; left|by right; left|by left].
Qed.

Lemma verdict_inventory_update_exn self st pk iu e :
  verdict (inventory_updates_method self) st pk iu = inl e →
  ∃ t k, e = DoesNotExist t k ∧ t ∈ ["InventorySource"; "InventoryUpdate"].
Proof.
  rw verdict_inventory_update.
  repeat case_match; try done; intros [= <-]; eexists _, _;
    (split; [reflexivity|]); [by right; left|by right; left|by left].
Qed.

(** A category raises exactly when it is one of the two kinds of updates
    and one of its rows is broken. *)
Lemma counts_of_raises_broken self name st e :
  name ∈ model_names → counts_of self name st = inl e →
  (name = "project_updates" ∧ broken_project_update st
   ∧ ∃ t k, e = DoesNotExist t k ∧ t ∈ ["Project"; "ProjectUpdate"])
  ∨ (name = "inventory_updates" ∧ broken_inventory_update st
     ∧ ∃ t k, e = DoesNotExist t k ∧ t ∈ ["InventorySource"; "InventoryUpdate"]).
Proof.
  intros Hin. each_model Hin;
    cbv [counts_of policy policies assoc String.eqb Ascii.eqb Bool.eqb];
    intros ([pk r] & Hrow%elem_of_snapshot & Hv)%tally_raises_row;
    try done; simpl in Hv.
  - left. split; [done|]. split; [|by eapply verdict_project_update_exn].
    exists pk, r. split; [done|].
    apply (verdict_project_update_raises self st pk r). by eexists.
  - right. split; [done|]. split; [|by eapply verdict_inventory_update_exn].
    exists pk, r. split; [done|].
    apply (verdict_inventory_update_raises self st pk r). by eexists.
Qed.

Lemma broken_project_update_raises self st :
  broken_project_update st →
  ∃ e, counts_of self "project_updates" st = inl e.
Proof.
  intros (pk & pu & Hl & Hbroken).
  apply (verdict_project_update_raises self st pk pu) in Hbroken as [e He].
  change (counts_of self "project_updates" st)
    with (counts (project_updates_method self) st).
  destruct (counts (project_updates_method self) st) as [e'|counters] eqn:Hc;
    [by eexists|].
  destruct (counts_inr_verdict _ _ _ _ _ Hc Hl) as (c & Hv). congruence.
Qed.

Lemma broken_inventory_update_raises self st :
  broken_inventory_update st →
  ∃ e, counts_of self "inventory_updates" st = inl e.
Proof.
  intros (pk & iu & Hl & Hbroken).
  apply (verdict_inventory_update_raises self st pk iu) in Hbroken as [e He].
  change (counts_of self "inventory_updates" st)
    with (counts (inventory_updates_method self) st).
  destruct (counts (inventory_updates_method self) st) as [e'|counters] eqn:Hc;
    [by eexists|].
  destruct (counts_inr_verdict _ _ _ _ _ Hc Hl) as (c & Hv). congruence.
Qed.

(** The exception of the stages is that of a selected category, for the
    store the stages began with. *)
Lemma stages_raises_at self (selected : gset string) names :
  NoDup names → Forall (λ name, name ∈ model_names) names → ∀ st0 st e,
  (∀ name, name ∈ names → same_for self name st0 st) →
  stages self selected names st = inl e →
  ∃ name, name ∈ names ∧ name ∈ selected ∧ counts_of self name st0 = inl e.
Proof.
  intros Hnd Hall. induction Hall as [|n names Hin Hall IH];
    intros st0 st e Hsame; [done|]. simpl.
  apply NoDup_cons in Hnd as [Hnotin Hnd]. specialize (IH Hnd).
  case_decide as Hsel.
  - destruct (counts_of self n st) as [e'|[skipped deleted]] eqn:Hc.
    + intros [= <-]. exists n. split; [by left|]. split; [done|].
      rw -Hc. symmetry. apply same_for_counts. apply Hsame. by left.
    + destruct (stages self selected names _) as [e'|[reports st']] eqn:Hs;
        [|done].
      intros [= <-].
      destruct (IH st0 (if dry_run self then st else swept_of self n st) e')
        as (name & Hname & Hsel' & Hc'); [|exact Hs|].
      { intros name Hname. eapply same_for_trans; [apply Hsame; by right|].
        destruct (dry_run self); [apply same_for_refl|].
        apply sweep_frame;
          [by apply (proj1 (Forall_forall _ _) Hall)|done|].
        intros ->. by apply Hnotin. }
      exists name. by split; [right|].
  - intros Hs. destruct (IH st0 st e) as (name & Hname & Hsel' & Hc');
      [by intros name Hname; apply Hsame; right|done|].
    exists name. by split; [right|].
Qed.

(** X2: on a store that answers every query, a run raises exactly when
    the cutoff cannot be computed, or when a kind of update is among the
    categories the run goes through and one of its rows is broken: not in
    an active status, and without its parent in the store or with a
    parent one of whose pointers refers to an update that is not there.
    What it raises is then the configuration error, with the world as it
    was, or the [DoesNotExist] of one of the four models it follows; and
    the store is as it was on entry, whatever the run had deleted. *)
Theorem run_raises_exactly_when (options : gmap string pyval) (now : Z)
  (w : World) :
  let days := py_int (options_get options "days" (VInt 90)) in
  let out := handle_noargs options now w in
  ((∃ e, out.1 = inl e)
   ↔ (∃ e, compute_cutoff now days = inl e)
     ∨ ("project_updates" ∈ chosen options ∧ broken_project_update (db w))
     ∨ ("inventory_updates" ∈ chosen options
        ∧ broken_inventory_update (db w)))
  ∧ (∀ e, out.1 = inl e →
       db out.2 = db w
       ∧ ((e = CommandError too_large ∧ out.2 = w)
          ∨ ∃ t k, e = DoesNotExist t k
                   ∧ t ∈ ["Project"; "ProjectUpdate"; "InventorySource";
                          "InventoryUpdate"])).
Proof.
  intros days out. unfold out.
  destruct (compute_cutoff now days) as [e'|cut] eqn:Hcut.
  { rw (handle_noargs_overflow _ _ _ _ Hcut). simpl. split.
    - split; [|by eexists]. intros _. left. by eexists.
    - intros e [= <-]. split; [done|]. by left. }
  pose proof (handle_noargs_stages options now w cut Hcut) as H.
  cbv zeta in H.
  set (self := mkCommand cut
                 (py_bool (options_get options "dry_run" (VBool false)))) in *.
  assert ("project_updates" ∈ model_names) as Hpu by in_list.
  assert ("inventory_updates" ∈ model_names) as Hiu by in_list.
  destruct (stages self (models_to_cleanup options) model_names (db w))
    as [e'|[reports st']] eqn:Hs.
  - destruct H as (w1 & -> & Hdb & _). simpl.
    destruct (stages_raises_at _ _ model_names model_names_NoDup
                model_names_Forall (db w) (db w) e'
                (λ name _, same_for_refl _ name _) Hs)
      as (name & Hname & Hsel & Hc).
    apply (elem_of_chosen options name Hname) in Hsel.
    destruct (counts_of_raises_broken _ _ _ _ Hname Hc)
      as [(-> & Hb & t & k & -> & Ht)|(-> & Hb & t & k & -> & Ht)].
    + split; [split; [|by eexists]; intros _; right; by left|].
      intros e [= <-]. split; [done|]. right. exists t, k. split; [done|].
      revert Ht. rw !elem_of_cons. tauto.
    + split; [split; [|by eexists]; intros _; right; by right|].
      intros e [= <-]. split; [done|]. right. exists t, k. split; [done|].
      revert Ht. rw !elem_of_cons. tauto.
  - destruct H as (w1 & -> & _). simpl. split; [|done].
    split; [by intros [e ?]|]. intros Hbad. exfalso.
    assert (∀ name, name ∈ model_names → name ∈ chosen options →
              ∃ counters, counts_of self name (db w) = inr counters) as Hans.
    { intros name Hname Hsel%elem_of_chosen; [|done].
      by eapply (stages_counts self), Hsel;
        [apply model_names_NoDup|apply model_names_Forall|exact Hs|]. }
    destruct Hbad as [[e He]|[[Hsel Hb]|[Hsel Hb]]]; [done| |].
    + destruct (Hans _ Hpu Hsel) as (counters & Hc).
      destruct (broken_project_update_raises self _ Hb) as (e & He).
      congruence.
    + destruct (Hans _ Hiu Hsel) as (counters & Hc).
      destruct (broken_inventory_update_raises self _ Hb) as (e & He).
      congruence.
Qed.

(** The job is deleted, then the update has no project: the run raises,
    the store is back to what it was, and the deletion is among the
    queries. *)
Lemma run_raises_exactly_when_witness :
  let out := handle_noargs {[ "days" := VInt 10 ]}
               (735963 * datetime.us_per_day) (mkWorld dangling_store [] []) in
  out.1 = inl (DoesNotExist "Project" 2)
  ∧ db out.2 = dangling_store
  ∧ deletions (queries out.2) = [("Job", 1)].
Proof.
  intros out.
  assert (out.1 = inl (DoesNotExist "Project" 2)) as He
    by (vm_compute; reflexivity).
  split; [exact He|]. split.
  - destruct (run_raises_exactly_when {[ "days" := VInt 10 ]}
                (735963 * datetime.us_per_day) (mkWorld dangling_store [] []))
      as [_ Hraise].
    exact (proj1 (Hraise _ He)).
  - vm_compute. reflexivity.
Defined.

(** ** What a summary says of the store *)

Lemma same_for_record_count self name st st' :
  name ∈ model_names → same_for self name st st' →
  record_count name st' = record_count name st.
Proof.
  intros Hin. unfold same_for.
  destruct (policy_spec self name Hin) as (a & -> & _ & _ & Hrc).
  rw !Hrc. destruct a as [R m]. by intros [-> _].
Qed.

Lemma record_count_swept self name st counters :
  name ∈ model_names → counts_of self name st = inr counters →
  record_count name (swept_of self name st) = counters.1.
Proof.
  intros Hin. unfold counts_of, swept_of.
  destruct (policy_spec self name Hin) as (a & -> & Hok & _ & Hrc).
  rw Hrc. destruct a as [R m]. by apply size_swept.
Qed.

Lemma stages_sizes self (selected : gset string) names :
  dry_run self = false →
  NoDup names → Forall (λ name, name ∈ model_names) names → ∀ st reports st',
  stages self selected names st = inr (reports, st') →
  Forall2 (λ name report, record_count name st' = report.2)
          (filter (λ name, name ∈ selected) names) reports.
Proof.
  intros Hdry Hnd Hall. induction Hall as [|n names Hin Hall IH];
    intros st reports st'; simpl.
  - intros ?; simplify_eq. constructor.
  - apply NoDup_cons in Hnd as [Hnotin Hnd]. specialize (IH Hnd).
    rw filter_cons. case_decide; [|by apply IH].
    destruct (counts_of self n st) as [e|[skipped deleted]] eqn:Hc; [done|].
    rw Hdry.
    destruct (stages self selected names _) as [e|[reports' st'']] eqn:Hs;
      [done|].
    intros ?; simplify_eq. constructor; [|by eapply IH].
    simpl. rw (same_for_record_count self n (swept_of self n st) st' Hin).
    { by eapply stages_frame. }
    by rw (record_count_swept self n st _ Hin Hc).
Qed.

(** X3: after a run that deletes and returns, every category the run
    went through holds exactly as many records as its summary reports
    skipped, and every other category holds as many as before. *)
Theorem summary_skipped_is_what_is_left (options : gmap string pyval)
  (now cut : Z) (st : Store) (w' : World) :
  compute_cutoff now (py_int (options_get options "days" (VInt 90))) = inr cut →
  py_bool (options_get options "dry_run" (VBool false)) = false →
  handle_noargs options now (mkWorld st [] []) = (inr tt, w') →
  Forall2 (λ name report, record_count name (db w') = report.2)
          (chosen options) (summaries (logged w'))
  ∧ ∀ name, name ∈ model_names → name ∉ chosen options →
            record_count name (db w') = record_count name st.
Proof.
  intros Hcut Hdry Hrun.
  pose proof (handle_noargs_stages options now (mkWorld st [] []) cut Hcut) as H.
  cbv zeta in H. rw Hdry in H. change (db (mkWorld st [] [])) with st in H.
  destruct (stages _ (models_to_cleanup options) model_names st)
    as [e|[reports st']] eqn:Hs.
  { destruct H as (w1 & Hrun' & _). rw Hrun in Hrun'. done. }
  destruct H as (w1 & Hrun' & Hdb & Hl & _). rw Hrun in Hrun'. simplify_eq.
  simpl in Hl. split.
  - rw Hl -selected_chosen.
    by eapply (stages_sizes (mkCommand cut false)), Hs;
      [|apply model_names_NoDup|apply model_names_Forall].
  - intros name Hname Hno.
    pose proof (stages_remains (mkCommand cut false) _ model_names eq_refl
                  model_names_NoDup model_names_Forall _ _ _ Hs name Hname)
      as Hrem.
    rw bool_decide_false in Hrem.
    { intros [_ Hsel]. by apply Hno, elem_of_chosen. }
    revert Hrem. unfold remains.
    destruct (policy_spec (mkCommand cut false) name Hname)
      as (a & -> & _ & _ & Hrc).
    rw !Hrc. destruct a as [R m]. intros Hrem. f_equal. apply map_eq.
    intros pk. apply option_eq. intros r. rw Hrem. by split; [intros []|].
Qed.

(** The jobs of the example store, the only category flagged: one job is
    left, as the summary says; the two updates of the project are both
    still there. *)
Lemma summary_skipped_is_what_is_left_witness :
  let w' := (handle_noargs {[ "only_jobs" := VBool true; "days" := VInt 10 ]}
               (735963 * datetime.us_per_day)
               (mkWorld example_store [] [])).2 in
  summaries (logged w') = [("jobs", 2%nat, 1%nat)]
  ∧ record_count "jobs" (db w') = 1%nat
  ∧ record_count "project_updates" (db w') = 2%nat.
Proof.
  intros w'.
  destruct (summary_skipped_is_what_is_left
              {[ "only_jobs" := VBool true; "days" := VInt 10 ]}
              (735963 * datetime.us_per_day) (735953 * datetime.us_per_day)
              example_store w') as [Hsum Hother].
  { vm_compute. reflexivity. }
  { vm_compute. reflexivity. }
  { vm_compute. reflexivity. }
  split; [vm_compute; reflexivity|]. split.
  - vm_compute. reflexivity.
  - rw Hother.
    + apply (bool_decide_unpack _). vm_compute. exact I.
    + apply (bool_decide_unpack _). vm_compute. exact I.
    + vm_compute. reflexivity.
Defined.

(** ** The log of a run *)

Lemma logs_only_ret {A} P (a : A) : logs_only P (mret a).
Proof. intros w. exists []. by rw app_nil_r. Qed.

Lemma logs_only_raise {A} P e : logs_only P (raise (A := A) e).
Proof. intros w. exists []. by rw app_nil_r. Qed.

Lemma logs_only_bind {A B} P (c : M A) (f : A → M B) :
  logs_only P c → (∀ a, logs_only P (f a)) → logs_only P (c ≫= f).
Proof.
  intros Hc Hf w. monad_unfold. destruct (Hc w) as (new & Hl & Hnew).
  destruct (c w) as [[e|a] w1]; simpl in *; [by exists new|].
  destruct (Hf a w1) as (new' & Hl' & Hnew'). exists (new ++ new')%list.
  rw Hl' Hl app_assoc. split; [done|]. by apply Forall_app.
Qed.

Lemma logs_only_log P level fmt a :
  P (mkLogRecord level fmt a) → logs_only P (log level fmt a).
Proof. intros HP w. eexists [_]. split; [done|]. by constructor. Qed.

Lemma logs_only_query P q : logs_only P (query q).
Proof. intros w. exists []. by rw app_nil_r. Qed.

Lemma logs_only_delete_instance P table del pk :
  logs_only P (delete_instance table del pk).
Proof. intros w. exists []. by rw app_nil_r. Qed.

Lemma logs_only_atomic {A} P (c : M A) : logs_only P c → logs_only P (atomic c).
Proof.
  intros Hc w. destruct (Hc w) as (new & Hl & Hnew). exists new.
  unfold atomic. by destruct (c w) as [[e|a] w1].
Qed.

Lemma logs_only_for_each {A S} P (body : A → S → M S) l :
  (∀ x s, logs_only P (body x s)) → ∀ s, logs_only P (for_each body l s).
Proof.
  intros Hbody. induction l as [|x l IH]; intros s; simpl.
  - apply logs_only_ret.
  - by apply logs_only_bind.
Qed.

Lemma logs_only_classify {R} P (m : Method R) pk r :
  method_ok m → logs_only P (classify m pk r).
Proof.
  intros Hok w. destruct (ok_reads m Hok pk r w) as (qs & -> & _).
  exists []. by rw app_nil_r.
Qed.

Lemma logs_only_branch self table noun del pk st c counters :
  logs_only (worded (dry_run self))
            (branch self table noun del pk st c counters).
Proof.
  unfold branch. destruct counters as [skipped deleted].
  destruct c;
    repeat first
      [ apply logs_only_ret
      | apply logs_only_delete_instance
      | apply logs_only_log
      | apply logs_only_bind; [|intros _]
      | case_match ];
    unfold worded; simpl; auto.
Qed.

Lemma logs_only_cleanup {R} self (m : Method R) :
  method_ok m → logs_only (worded (dry_run self)) (cleanup self m).
Proof.
  intros Hok. unfold cleanup, objects_all.
  apply logs_only_bind.
  { apply logs_only_bind; [apply logs_only_query|]. intros _ w. exists [].
    by rw app_nil_r. }
  intros rows. apply logs_only_for_each. intros row counters.
  apply logs_only_bind; [by apply logs_only_classify|].
  intros c. apply logs_only_branch.
Qed.

Lemma logs_only_call_method self name :
  logs_only (worded (dry_run self)) (call_method self name).
Proof.
  unfold call_method.
  assert (Forall (λ entry, logs_only (worded (dry_run self)) (entry.2 self))
                 methods) as Hall.
  { repeat constructor; simpl; apply logs_only_cleanup.
    - apply jobs_method_ok.
    - apply ad_hoc_commands_method_ok.
    - apply project_updates_method_ok.
    - apply inventory_updates_method_ok.
    - apply management_jobs_method_ok.
    - apply workflow_jobs_method_ok.
    - apply notifications_method_ok. }
  induction Hall as [|[k f] l Hf Hall IH]; simpl.
  - apply logs_only_raise.
  - by destruct (String.eqb k name).
Qed.

Lemma logs_only_stage self (selected : gset string) name u :
  logs_only (worded (dry_run self)) (stage self selected name u).
Proof.
  unfold stage. case_decide; [|apply logs_only_ret].
  apply logs_only_bind; [apply logs_only_call_method|].
  intros [skipped deleted].
  destruct (dry_run self); apply logs_only_log; unfold worded; simpl; auto.
Qed.

Lemma handle_noargs_logs_only options now :
  logs_only (worded (py_bool (options_get options "dry_run" (VBool false))))
            (handle_noargs options now).
Proof.
  apply logs_only_atomic. unfold handle_noargs_body.
  destruct (compute_cutoff now _) as [[]|cut]; try apply logs_only_raise.
  apply logs_only_for_each. intros name u. apply (logs_only_stage (mkCommand _ _)).
Qed.

(** X4: every record a run hands to its logger is a skip line at level
    DEBUG, a delete line at level INFO or a summary at level 99, and all
    of them in the wording of the mode of the run: a dry run says "would
    skip", "would delete" and "would be deleted", never "skipping" or
    "deleting", and a run that deletes never says "would". Nothing is
    taken from the log. *)
Theorem log_is_worded_by_mode (options : gmap string pyval) (now : Z)
  (w : World) :
  ∃ new,
    logged (handle_noargs options now w).2 = (logged w ++ new)%list
    ∧ Forall (worded (py_bool (options_get options "dry_run" (VBool false))))
             new.
Proof.
  revert w. apply logs_only_atomic. unfold handle_noargs_body.
  destruct (compute_cutoff now _) as [[]|cut]; try apply logs_only_raise.
  apply logs_only_for_each. intros name u.
  apply (logs_only_stage (mkCommand _ _)).
Qed.

(** X5: a method that returns has logged one line for every record of
    its category, in the order it went through them and nothing else:
    as many lines at level DEBUG as its skipped counter, as many at
    level INFO as its deleted counter. *)
Theorem lines_match_counters (self : Command) (name : string)
  (w w' : World) (skipped deleted : nat) :
  name ∈ model_names →
  call_method self ("cleanup_" +:+ name) w = (inr (skipped, deleted), w') →
  ∃ new, logged w' = (logged w ++ new)%list
         ∧ omap subject new = record_keys name (db w)
         ∧ length new = length (record_keys name (db w))
         ∧ lines_at DEBUG new = skipped
         ∧ lines_at INFO new = deleted.
Proof.
  intros Hin.
  destruct (policy_spec self name Hin) as (a & Hp & Hok & -> & _).
  destruct (record_keys_snapshot self name Hin) as (a' & Hp' & ->).
  rw Hp in Hp'. injection Hp' as <-. destruct a as [R m]. intros Hrun.
  destruct (cleanup_lines self m Hok _ _ _ Hrun) as (new & ? & ? & ? & ? & ?).
  exists new. by rw length_fmap.
Qed.

Lemma lines_match_counters_witness :
  ∃ new,
    logged (call_method (mkCommand 50 false) "cleanup_jobs" example_world).2
    = new
    ∧ omap subject new = record_keys "jobs" example_store
    ∧ lines_at DEBUG new = 2%nat
    ∧ lines_at INFO new = 1%nat.
Proof.
  assert ("jobs" ∈ model_names) as Hin.
  { apply (bool_decide_unpack _). vm_compute. exact I. }
  destruct (lines_match_counters (mkCommand 50 false) "jobs" example_world
              (call_method (mkCommand 50 false) "cleanup_jobs" example_world).2
              2 1 Hin) as (new & Hl & Hs & _ & Hd & Hi).
  { vm_compute. reflexivity. }
  exists new. split; [exact Hl|]. split; [exact Hs|]. split; [exact Hd|exact Hi].
Defined.

(** ** The deletions of a method *)

(** X6: a method that returns in a run that deletes has issued as many
    deletions as its deleted counter, all on its own table, each for a
    different record, and only for records that were in the table when
    the method began; in a dry run it has issued none. *)
Theorem deletions_match_counter (self : Command) (name : string)
  (w w' : World) (skipped deleted : nat) :
  name ∈ model_names →
  call_method self ("cleanup_" +:+ name) w = (inr (skipped, deleted), w') →
  ∃ keys, deletions (queries w')
          = (deletions (queries w)
             ++ ((λ pk, (table_of self name, pk)) <$> keys))%list
          ∧ NoDup keys
          ∧ (∀ pk, pk ∈ keys → pk ∈ record_keys name (db w))
          ∧ length keys = (if dry_run self then 0%nat else deleted).
Proof.
  intros Hin Hrun.
  pose proof (call_method_counts self name w Hin) as Hc.
  rw Hrun in Hc. simpl in Hc. symmetry in Hc. revert Hrun Hc.
  unfold counts_of, table_of.
  destruct (policy_spec self name Hin) as (a & Hp & Hok & -> & _).
  destruct (record_keys_snapshot self name Hin) as (a' & Hp' & ->).
  rw Hp in Hp'. injection Hp' as <-. rw Hp. destruct a as [R m].
  intros Hrun Hc.
  destruct (cleanup_answer self m Hok w _ Hc) as (w1 & Hrun' & _ & Hd & _).
  rw Hrun in Hrun'. injection Hrun' as <-.
  destruct (dry_run self).
  - exists []. rw Hd. split; [done|]. split; [constructor|]. split; [|done].
    by intros pk ?%elem_of_nil.
  - exists (doomed m (db w) (snapshot m (db w))). split; [done|].
    split; [apply NoDup_doomed, NoDup_snapshot|]. split.
    + intros pk (r & Hr & _)%elem_of_doomed.
      apply list_elem_of_fmap. by exists (pk, r).
    + pose proof (tally_doomed m _ _ _ _ Hc) as Hlen. simpl in Hlen. done.
Qed.

Lemma deletions_match_counter_witness :
  ∃ keys,
    deletions
      (queries (call_method (mkCommand 50 false) "cleanup_jobs"
                            example_world).2)
    = (λ pk, ("Job", pk)) <$> keys
    ∧ NoDup keys
    ∧ length keys = 1%nat.
Proof.
  assert ("jobs" ∈ model_names) as Hin.
  { apply (bool_decide_unpack _). vm_compute. exact I. }
  destruct (deletions_match_counter (mkCommand 50 false) "jobs" example_world
              (call_method (mkCommand 50 false) "cleanup_jobs" example_world).2
              2 1 Hin) as (keys & Hd & Hnd & _ & Hlen).
  { vm_compute. reflexivity. }
  exists keys. split; [exact Hd|]. split; [exact Hnd|exact Hlen].
Defined.

(** X13: a run that returns has issued as many deletions as its
    summaries count deleted, and none when it is a dry run. *)
Theorem run_deletions_match_summaries (options : gmap string pyval)
  (now cut : Z) (st : Store) (w' : World) :
  compute_cutoff now (py_int (options_get options "days" (VInt 90))) = inr cut →
  handle_noargs options now (mkWorld st [] []) = (inr tt, w') →
  length (deletions (queries w'))
  = if py_bool (options_get options "dry_run" (VBool false)) then 0%nat
    else sum_list ((λ report, report.1.2) <$> summaries (logged w')).
Proof.
  intros Hcut Hrun.
  pose proof (handle_noargs_stages options now (mkWorld st [] []) cut Hcut) as H.
  cbv zeta in H. change (db (mkWorld st [] [])) with st in H.
  destruct (stages _ (models_to_cleanup options) model_names st)
    as [e|[reports st']] eqn:Hs.
  { destruct H as (w1 & Hrun' & _). rw Hrun in Hrun'. done. }
  destruct H as (w1 & Hrun' & _ & Hl & _). rw Hrun in Hrun'.
  injection Hrun' as <-. simpl in Hl. rw Hl.
  by rw (handle_noargs_deleted options now (mkWorld st [] []) cut w' reports st'
           Hcut Hrun Hs).
Qed.

(** Ten days on 2016-01-01 over the example store: two jobs, an update
    of the project and the notification are deleted, four deletions in
    all. *)
Lemma run_deletions_match_summaries_witness :
  let w' := (handle_noargs {[ "days" := VInt 10 ]}
               (735963 * datetime.us_per_day)
               (mkWorld example_store [] [])).2 in
  length (deletions (queries w')) = 4%nat
  ∧ sum_list ((λ report, report.1.2) <$> summaries (logged w')) = 4%nat.
Proof.
  intros w'.
  pose proof (run_deletions_match_summaries {[ "days" := VInt 10 ]}
                (735963 * datetime.us_per_day) (735953 * datetime.us_per_day)
                example_store w') as H.
  split; [|vm_compute; reflexivity].
  etransitivity; [apply H; vm_compute; reflexivity|].
  vm_compute. reflexivity.
Defined.

(** ** A longer horizon *)

Lemma doomed_length_mono {R} (m m' : Method R) st (rows : list (Z * R)) :
  (∀ row, verdict m' st row.1 row.2 = inr Eligible →
          verdict m st row.1 row.2 = inr Eligible) →
  (length (doomed m' st rows) ≤ length (doomed m st rows))%nat.
Proof.
  intros Himp. unfold doomed. rw !length_fmap.
  induction rows as [|row rows IH]; [done|].
  rw !filter_cons. repeat case_decide; simpl; try lia.
  exfalso. auto.
Qed.

Lemma tally_deleted_mono {R} (m m' : Method R) st (rows : list (Z * R))
  counters counters' :
  (∀ row, verdict m' st row.1 row.2 = inr Eligible →
          verdict m st row.1 row.2 = inr Eligible) →
  tally m' st rows (0%nat, 0%nat) = inr counters' →
  tally m st rows (0%nat, 0%nat) = inr counters →
  (counters'.2 ≤ counters.2 ∧ counters.1 ≤ counters'.1)%nat.
Proof.
  intros Himp H' H.
  pose proof (doomed_length_mono m m' st rows Himp).
  pose proof (tally_doomed _ _ _ _ _ H). pose proof (tally_doomed _ _ _ _ _ H').
  pose proof (tally_sum _ _ _ _ _ H). pose proof (tally_sum _ _ _ _ _ H').
  simpl in *. lia.
Qed.

Lemma eligible_row_mono self self' active r :
  cutoff self' ≤ cutoff self →
  eligible_row self' active r → eligible_row self active r.
Proof. intros Hle [? ?]. split; [done|lia]. Qed.

Lemma verdict_project_update_mono self self' st pk pu :
  cutoff self' ≤ cutoff self →
  verdict (project_updates_method self') st pk pu = inr Eligible →
  verdict (project_updates_method self) st pk pu = inr Eligible.
Proof.
  rw !verdict_project_update. intros Hle. case_bool_decide; [done|].
  destruct (projects st !! pu_project pu) as [p|]; [|done].
  destruct (dangling _ (p_current_update p)); [done|].
  destruct (dangling _ (p_last_update p)); [done|].
  destruct (_ && _); [done|].
  destruct (Z.geb_spec (pu_created pu) (cutoff self')); [done|]. intros _.
  destruct (Z.geb_spec (pu_created pu) (cutoff self)); [lia|done].
Qed.

Lemma verdict_inventory_update_mono self self' st pk iu :
  cutoff self' ≤ cutoff self →
  verdict (inventory_updates_method self') st pk iu = inr Eligible →
  verdict (inventory_updates_method self) st pk iu = inr Eligible.
Proof.
  rw !verdict_inventory_update. intros Hle. case_bool_decide; [done|].
  destruct (inventory_sources st !! iu_inventory_source iu) as [p|]; [|done].
  destruct (dangling _ (s_current_update p)); [done|].
  destruct (dangling _ (s_last_update p)); [done|].
  destruct (_ && _); [done|].
  destruct (Z.geb_spec (iu_created iu) (cutoff self')); [done|]. intros _.
  destruct (Z.geb_spec (iu_created iu) (cutoff self)); [lia|done].
Qed.

Lemma compute_cutoff_mono now days days' cut cut' :
  days ≤ days' →
  compute_cutoff now days = inr cut → compute_cutoff now days' = inr cut' →
  cut' ≤ cut.
Proof.
  intros Hle [-> _]%compute_cutoff_returns [-> _]%compute_cutoff_returns.
  unfold datetime.us_per_day. lia.
Qed.

(** X7: a longer horizon never deletes more. With more days the cutoff
    is earlier, and every method, over the same store, then counts at
    most as many records deleted and at least as many skipped. *)
Theorem longer_horizon_deletes_less (now days days' cut cut' : Z)
  (dry dry' : bool) (name : string) (st : Store)
  (skipped deleted skipped' deleted' : nat) :
  days ≤ days' →
  compute_cutoff now days = inr cut →
  compute_cutoff now days' = inr cut' →
  name ∈ model_names →
  (call_method (mkCommand cut dry) ("cleanup_" +:+ name) (mkWorld st [] [])).1
  = inr (skipped, deleted) →
  (call_method (mkCommand cut' dry') ("cleanup_" +:+ name) (mkWorld st [] [])).1
  = inr (skipped', deleted') →
  cut' ≤ cut ∧ (deleted' ≤ deleted)%nat ∧ (skipped ≤ skipped')%nat.
Proof.
  intros Hdays Hcut Hcut' Hin.
  pose proof (compute_cutoff_mono _ _ _ _ _ Hdays Hcut Hcut') as Hle.
  rw !call_method_counts; [done..|]. simpl.
  intros H H'. split; [done|]. revert H H'.
  each_model Hin;
    cbv [counts_of policy policies assoc String.eqb Ascii.eqb Bool.eqb];
    intros H H';
    (eapply (tally_deleted_mono _ _ _ _ (skipped, deleted) (skipped', deleted'));
     [|exact H'|exact H]); intros [pk r]; simpl.
  - unfold jobs_method. rw !verdict_simple. intros [= He]. f_equal.
    revert He. rw !classify_job_eligible. by apply eligible_row_mono.
  - unfold ad_hoc_commands_method. rw !verdict_simple. intros [= He]. f_equal.
    revert He. rw !classify_job_eligible. by apply eligible_row_mono.
  - by apply verdict_project_update_mono.
  - by apply verdict_inventory_update_mono.
  - unfold management_jobs_method. rw !verdict_simple. intros [= He]. f_equal.
    revert He. rw !classify_job_eligible. by apply eligible_row_mono.
  - unfold workflow_jobs_method. rw !verdict_simple. intros [= He]. f_equal.
    revert He. rw !classify_job_eligible. by apply eligible_row_mono.
  - unfold notifications_method. rw !verdict_simple. intros [= He]. f_equal.
    revert He. rw !classify_notification_eligible. by apply eligible_row_mono.
Qed.

(** The jobs of the example store on 2016-01-01: ten days delete two of
    them, the 735963 days back to year 1 none. *)
Lemma longer_horizon_deletes_less_witness :
  (call_method (mkCommand (735953 * datetime.us_per_day) false) "cleanup_jobs"
               example_world).1 = inr (1%nat, 2%nat)
  ∧ (call_method (mkCommand 0 false) "cleanup_jobs" example_world).1
    = inr (3%nat, 0%nat)
  ∧ (0 ≤ 2)%nat ∧ (1 ≤ 3)%nat.
Proof.
  assert ("jobs" ∈ model_names) as Hin.
  { apply (bool_decide_unpack _). vm_compute. exact I. }
  assert ((call_method (mkCommand (735953 * datetime.us_per_day) false)
                       "cleanup_jobs" example_world).1 = inr (1%nat, 2%nat))
    as H10 by (vm_compute; reflexivity).
  assert ((call_method (mkCommand 0 false) "cleanup_jobs" example_world).1
          = inr (3%nat, 0%nat)) as Hall by (vm_compute; reflexivity).
  destruct (longer_horizon_deletes_less (735963 * datetime.us_per_day)
              10 735963 (735953 * datetime.us_per_day) 0 false false
              "jobs" example_store 1 2 3 0) as (_ & Hd & Hs).
  - lia.
  - vm_compute. reflexivity.
  - vm_compute. reflexivity.
  - exact Hin.
  - exact H10.
  - exact Hall.
  - split; [exact H10|]. split; [exact Hall|]. split; [exact Hd|exact Hs].
Defined.

(** ** What is written of the log *)

Lemma filter_Forall_iff {A} (P1 P2 Q : A → Prop)
  `{!∀ x, Decision (P1 x), !∀ x, Decision (P2 x)} (l : list A) :
  Forall Q l → (∀ x, Q x → P1 x ↔ P2 x) → filter P1 l = filter P2 l.
Proof.
  intros HQ Hiff. induction HQ as [|x l Hx HQ IH]; [done|].
  rw !filter_cons IH. destruct (Hiff x Hx) as [H12 H21].
  repeat case_decide; try done; exfalso; auto.
Qed.

Lemma filter_all {A} (P : A → Prop) `{!∀ x, Decision (P x)} (l : list A) :
  Forall P l → filter P l = l.
Proof.
  induction 1 as [|x l Hx Hl IH]; [done|].
  by rw filter_cons decide_True; [|rw IH].
Qed.

(** With one handler, what is written is what the logger is enabled
    for. *)
Lemma written_one_handler logger inherited (l : list LogRecord) :
  handlers logger = 1%nat →
  written logger inherited l
  = filter (λ r, effective_level logger inherited ≤ levelno r) l.
Proof.
  intros Hh. unfold written, is_enabled_for. rw Hh.
  induction l as [|r l IH]; [done|].
  rw filter_cons. change (mbind ?f (r :: l)) with (f r ++ mbind f l)%list.
  rw IH. destruct (Z.leb_spec (effective_level logger inherited) (levelno r));
    case_decide; try done; lia.
Qed.

Lemma worded_levelno dry r :
  worded dry r → levelno r = DEBUG ∨ levelno r = INFO ∨ levelno r = 99.
Proof. intros [[? _]|[[? _]|[? _]]]; auto. Qed.

(** X8: what a first run in a process writes of its log. With verbosity
    0 the summaries alone; with verbosity 1 the summaries and the delete
    lines, no skip line; with verbosity 2 every record. With any other
    verbosity the level of the logger is not set, and what is written is
    what the level inherited from the loggers above lets through. *)
Theorem verbosity_selects_lines (options : gmap string pyval) (now : Z)
  (w : World) (inherited : Z) :
  let logger := init_logging (verbosity_of options) new_logger in
  ∃ new,
    logged (handle_noargs options now w).2 = (logged w ++ new)%list
    ∧ (verbosity_of options = 0 →
       written logger inherited new = filter (λ r, levelno r = 99) new)
    ∧ (verbosity_of options = 1 →
       written logger inherited new = filter (λ r, levelno r ≠ DEBUG) new)
    ∧ (verbosity_of options = 2 → written logger inherited new = new)
    ∧ (¬ (0 ≤ verbosity_of options ≤ 2) →
       written logger inherited new
       = filter (λ r, inherited ≤ levelno r) new).
Proof.
  intros logger.
  destruct (handle_noargs_logs_only options now w) as (new & Hl & Hnew).
  exists new. split; [exact Hl|].
  assert (Forall (λ r, levelno r = DEBUG ∨ levelno r = INFO ∨ levelno r = 99)
                 new) as Hlev.
  { eapply Forall_impl; [exact Hnew|]. intros r. apply worded_levelno. }
  rw written_one_handler; [done|]. unfold logger, init_logging.
  split; [|split; [|split]].
  - intros ->. apply (filter_Forall_iff _ _ _ _ Hlev).
    intros r. change (log_levels !! 0) with (Some ERROR).
    unfold effective_level, ERROR, DEBUG, INFO. simpl. lia.
  - intros ->. apply (filter_Forall_iff _ _ _ _ Hlev).
    intros r. change (log_levels !! 1) with (Some INFO).
    unfold effective_level, DEBUG, INFO. simpl. lia.
  - intros ->. apply filter_all. eapply Forall_impl; [exact Hlev|].
    intros r. change (log_levels !! 2) with (Some DEBUG).
    unfold effective_level, DEBUG, INFO. simpl. lia.
  - intros Hv.
    assert (match log_levels !! verbosity_of options with
            | Some level => level
            | None => 0
            end = 0) as ->; [|done].
    destruct (decide (verbosity_of options = 3)) as [->|?]; [done|].
    unfold log_levels. simpl.
    rw !lookup_insert_ne; [lia..|]. by rw lookup_empty.
Qed.

(** Verbosity 0, ten days, the example store: of the records logged only
    the seven summaries are written. *)
Lemma verbosity_selects_lines_witness :
  let options : gmap string pyval :=
    {[ "verbosity" := VInt 0; "days" := VInt 10 ]} in
  let out := handle_noargs options (735963 * datetime.us_per_day)
                           example_world in
  length (logged out.2) = 14%nat
  ∧ length (written (init_logging (verbosity_of options) new_logger) 30
                    (logged out.2)) = 7%nat.
Proof.
  intros options out.
  destruct (verbosity_selects_lines options (735963 * datetime.us_per_day)
              example_world 30) as (new & Hl & H0 & _).
  fold out in Hl. simpl in Hl. rw Hl.
  assert (verbosity_of options = 0) as Hv by (vm_compute; reflexivity).
  rw (H0 Hv). rw -Hl. split; vm_compute; reflexivity.
Defined.

Lemma written_replicate (f : LogRecord → bool) (n : nat) (l : list LogRecord) :
  (r ← l; if f r then replicate n r else [])
  = (r ← (r ← l; if f r then replicate 1 r else []); replicate n r).
Proof.
  induction l as [|r l IH]; [done|].
  rw !bind_cons bind_app -IH. destruct (f r); [|done].
  simpl. by rw app_nil_r.
Qed.

(** X9: every run of the command in a process adds a handler to the one
    logger and takes none away: after one more run than [earlier],
    whatever their verbosities were, each record that a single run with
    the last verbosity would write is written once for every run so
    far. *)
Theorem handlers_pile_up (earlier : list Z) (verbosity inherited : Z)
  (l : list LogRecord) :
  let logger :=
    foldl (λ logger v, init_logging v logger) new_logger
          (earlier ++ [verbosity]) in
  handlers logger = S (length earlier)
  ∧ written logger inherited l
    = (r ← written (init_logging verbosity new_logger) inherited l;
       replicate (S (length earlier)) r).
Proof.
  intros logger.
  assert (∀ vs start, handlers (foldl (λ logger v, init_logging v logger) start vs)
                      = (length vs + handlers start)%nat) as Hh.
  { induction vs as [|v vs IH]; intros start; [done|]. simpl. rw IH. simpl. lia. }
  assert (logger = mkLogger (logger_level (init_logging verbosity new_logger))
                            (S (length earlier)) false) as ->.
  { unfold logger. rw foldl_app. simpl. unfold init_logging at 1.
    f_equal. rw Hh. simpl. lia. }
  split; [done|].
  apply (written_replicate
           (λ r, is_enabled_for (init_logging verbosity new_logger) inherited
                                (levelno r))).
Qed.

(** ** The options *)

Lemma handle_noargs_ext options options' now w :
  py_int (options_get options "days" (VInt 90))
  = py_int (options_get options' "days" (VInt 90)) →
  py_bool (options_get options "dry_run" (VBool false))
  = py_bool (options_get options' "dry_run" (VBool false)) →
  (∀ m, m ∈ model_names → flagged options m = flagged options' m) →
  handle_noargs options now w = handle_noargs options' now w.
Proof.
  intros Hdays Hdry Hflag.
  assert (models_to_cleanup options = models_to_cleanup options') as Hsel.
  { unfold models_to_cleanup.
    assert (∀ (l : list string) (s0 : gset string),
              (∀ m, m ∈ l → m ∈ model_names) →
              foldl (λ (s : gset string) m,
                       if flagged options m then s ∪ {[m]} else s) s0 l
              = foldl (λ (s : gset string) m,
                         if flagged options' m then s ∪ {[m]} else s) s0 l)
      as Hfold.
    { induction l as [|m l IH]; intros s0 Hl; [done|]. simpl.
      rw (Hflag m); [by apply Hl; left|]. apply IH.
      intros m' ?. apply Hl. by right. }
    by rw Hfold. }
  unfold handle_noargs, handle_noargs_body. by rw Hdays Hdry Hsel.
Qed.

Lemma options_get_insert_default options key v key' :
  key ∉ read_keys ∨ (options !! key = None ∧ v = default_of key) →
  key' ∈ read_keys →
  options_get (<[key := v]> options) key' (default_of key')
  = options_get options key' (default_of key').
Proof.
  intros H Hin. unfold options_get. destruct (decide (key = key')) as [->|Hne].
  - destruct H as [H|[-> ->]]; [done|]. by rw lookup_insert_eq.
  - by rw lookup_insert_ne.
Qed.

Lemma default_of_flag m : default_of ("only_" +:+ m) = VBool false.
Proof. unfold default_of. by repeat case_decide. Qed.

(** X10: the options are read by key, with a default for a key that is
    not there: giving a missing key its default (90 for the days, 1 for
    the verbosity, false for the dry run and for each flag) changes
    nothing of the run nor of its verbosity, and neither does any key
    the command does not read. *)
Theorem missing_option_is_its_default (options : gmap string pyval)
  (key : string) (v : pyval) (now : Z) (w : World) :
  key ∉ read_keys ∨ (options !! key = None ∧ v = default_of key) →
  handle_noargs (<[key := v]> options) now w = handle_noargs options now w
  ∧ verbosity_of (<[key := v]> options) = verbosity_of options.
Proof.
  intros H. split.
  - apply handle_noargs_ext.
    + f_equal. apply (options_get_insert_default options key v "days" H).
      apply (bool_decide_unpack _). by vm_compute.
    + f_equal. apply (options_get_insert_default options key v "dry_run" H).
      apply (bool_decide_unpack _). by vm_compute.
    + intros m Hm. unfold flagged. f_equal. rw -(default_of_flag m).
      apply (options_get_insert_default options key v _ H).
      do 3 right. by apply list_elem_of_fmap_2.
  - unfold verbosity_of. f_equal.
    apply (options_get_insert_default options key v "verbosity" H).
    by left.
Qed.

Lemma missing_option_is_its_default_witness :
  handle_noargs (<["days" := VInt 90]> ∅) (735963 * datetime.us_per_day)
                example_world
  = handle_noargs ∅ (735963 * datetime.us_per_day) example_world
  ∧ handle_noargs (<["color" := VBool true]> ∅) (735963 * datetime.us_per_day)
                  example_world
    = handle_noargs ∅ (735963 * datetime.us_per_day) example_world.
Proof.
  split.
  - apply (missing_option_is_its_default ∅ "days" (VInt 90)).
    right. split; reflexivity.
  - apply (missing_option_is_its_default ∅ "color" (VBool true)).
    left. apply (bool_decide_unpack _). vm_compute. exact I.
Defined.

(** X11: the advice of the error message holds: at any time from the
    year 275 on, a horizon of no days up to 99999 days has a cutoff, the
    time that many days before, and the command does not raise its
    configuration error. *)
Theorem advised_horizon_is_accepted (options : gmap string pyval)
  (now : Z) (w : World) (msg : string) :
  let days := py_int (options_get options "days" (VInt 90)) in
  datetime.representable now →
  99999 * datetime.us_per_day ≤ now →
  0 ≤ days ≤ 99999 →
  compute_cutoff now days = inr (now - days * datetime.us_per_day)
  ∧ (handle_noargs options now w).1 ≠ inl (CommandError msg).
Proof.
  intros days [Hr1 Hr2] Hnow Hdays.
  assert (compute_cutoff now days = inr (now - days * datetime.us_per_day))
    as Hcut.
  { unfold compute_cutoff, datetime.timedelta, datetime.sub.
    unfold datetime.us_per_day, datetime.MAX_DELTA_DAYS in *.
    rw (proj2 (Z.leb_le (Z.abs days) 999999999)); [lia|].
    rw (proj2 (Z.leb_le 0 (now - days * 86400000000))); [lia|].
    by rw (proj2 (Z.ltb_lt (now - days * 86400000000) datetime.end_of_time));
      [lia|]. }
  split; [done|]. by eapply handle_noargs_no_command_error.
Qed.

Lemma advised_horizon_is_accepted_witness :
  compute_cutoff (735963 * datetime.us_per_day) 99999
  = inr (635964 * datetime.us_per_day).
Proof.
  destruct (advised_horizon_is_accepted {[ "days" := VInt 99999 ]}
              (735963 * datetime.us_per_day) example_world "") as [H _].
  - vm_compute. split; [discriminate|reflexivity].
  - vm_compute. discriminate.
  - vm_compute. split; discriminate.
  - exact H.
Defined.

(** X12: the set of categories a run goes through is never empty and
    holds model names only; a model name is in it exactly when its flag
    is set or no flag is. *)
Theorem selection_is_never_empty (options : gmap string pyval) :
  models_to_cleanup options ≠ ∅
  ∧ (∀ m, m ∈ models_to_cleanup options → m ∈ model_names)
  ∧ (∀ m, m ∈ model_names →
          m ∈ models_to_cleanup options
          ↔ flagged options m = true
            ∨ existsb (flagged options) model_names = false)
  ∧ chosen options ≠ [].
Proof.
  assert (∀ m, m ∈ models_to_cleanup options → m ∈ model_names) as Hsub.
  { intros m. unfold models_to_cleanup. cbv zeta. case_decide.
    - rw elem_of_union elem_of_added elem_of_list_to_set elem_of_empty.
      by intros [[[]|[? _]]|?].
    - rw elem_of_added elem_of_empty. by intros [[]|[? _]]. }
  assert (∃ m, m ∈ model_names ∧ m ∈ models_to_cleanup options) as (m0 & Hm0 & Hin0).
  { destruct (existsb (flagged options) model_names) eqn:He.
    - apply existsb_exists in He as (m & Hm%list_elem_of_In & Hf).
      exists m. split; [done|]. apply elem_of_models_to_cleanup; auto.
    - exists "jobs". assert ("jobs" ∈ model_names) as Hj by by left.
      split; [done|]. apply elem_of_models_to_cleanup; auto. }
  split. { intros Hempty. rw Hempty in Hin0. by apply elem_of_empty in Hin0. }
  split; [done|]. split; [apply elem_of_models_to_cleanup|].
  intros Hnil. apply (elem_of_chosen options m0 Hm0) in Hin0.
  rw Hnil in Hin0. by apply elem_of_nil in Hin0.
Qed.
